(** * parsepatch: a shallow embedding of [parsepatch/patch.py]

    The Python module scans a git-style patch line by line through a pair of
    generators ([Patch._get_lines] driven by [Patch._lines]), collects signed
    line anchors per hunk and reconciles them in [Patch.get_touched].

    Python values are embedded as follows: [str] as [string], [int] line
    numbers as [Z], list positions and lengths as [nat], [set] as [gset],
    the result [dict] as [gmap string FileChange].  The two generators are
    embedded as a resumable state machine over the fields of the [Patch]
    object, exceptions as an error result threaded beside the object, and
    the logger as the list of the messages that [logger.error] receives. *)

From stdpp Require Import gmap strings list sorting.
From Stdlib Require Import ZArith Ascii String.

Local Open Scope Z_scope.
Local Open Scope string_scope.
Local Open Scope list_scope.

(** ** Python built-ins on strings *)

Module Py.

(** [x.startswith(p)] *)
Fixpoint startswith (x p : string) : bool :=
  match p, x with
  | EmptyString, _ => true
  | String c p', String d x' => Ascii.eqb c d && startswith x' p'
  | String _ _, EmptyString => false
  end.

(** [s.split(sep)] for a one-character separator: never returns the empty
    list, and a trailing separator yields a trailing empty string. *)
Fixpoint split (sep : ascii) (s : string) : list string :=
  match s with
  | EmptyString => [EmptyString]
  | String c s' =>
      if Ascii.eqb c sep then EmptyString :: split sep s'
      else match split sep s' with
           | h :: t => String c h :: t
           | [] => [String c EmptyString]
           end
  end.

(** [s[n:]] *)
Fixpoint drop (n : nat) (s : string) : string :=
  match n, s with
  | O, _ => s
  | S n', String _ s' => drop n' s'
  | S _, EmptyString => EmptyString
  end.

Definition is_digit (c : ascii) : bool :=
  let n := nat_of_ascii c in ((48 <=? n) && (n <=? 57))%nat.

Definition digit_val (c : ascii) : Z := Z.of_nat (nat_of_ascii c) - 48.

Fixpoint int_from (acc : Z) (s : string) : Z :=
  match s with
  | EmptyString => acc
  | String c s' => int_from (10 * acc + digit_val c) s'
  end.

(** [int(s)] on a string of ASCII digits (the only strings the hunk-header
    pattern captures). *)
Definition int (s : string) : Z := int_from 0 s.

(** [chunk.pop()] on a list: the last element and the list without it;
    [None] stands for the [IndexError] of popping an empty list. *)
Fixpoint pop {A} (l : list A) : option (list A * A) :=
  match l with
  | [] => None
  | [x] => Some ([], x)
  | x :: l' => match pop l' with
               | Some (r, y) => Some (x :: r, y)
               | None => None
               end
  end.

End Py.

(** ** Regular expressions of the [re] module

    A backtracking matcher in continuation-passing style, with Python's
    priorities: a greedy quantifier first tries to take more.  Repetition is
    only needed over single-character classes, which is all the two patterns
    of the module use. *)

Module Re.

Inductive re : Type :=
| Bol                              (* ^ *)
| Eol                              (* $ *)
| Lit (c : ascii)                  (* a literal character *)
| Cls (p : ascii → bool)           (* a character class, or [.] *)
| Star (p : ascii → bool)          (* [p]*  greedy *)
| Plus (p : ascii → bool)          (* [p]+  greedy *)
| Opt (r : re)                     (* r?    greedy *)
| Cat (r1 r2 : re)
| Group (i : nat) (r : re).        (* capturing group number i *)

(** Captured groups, most recent binding first. *)
Definition caps : Type := list (nat * string).

Definition group (c : caps) (i : nat) : option string :=
  snd <$> List.find (λ p, Nat.eqb (fst p) i) c.

Definition cont : Type := nat → string → caps → option caps.

Fixpoint take (n : nat) (s : string) : string :=
  match n, s with
  | S n', String c s' => String c (take n' s')
  | _, _ => EmptyString
  end.

(** Greedy [p]*: consume while possible, give back one character at a time
    when the continuation fails. *)
Fixpoint star (p : ascii → bool) (pos : nat) (s : string) (c : caps)
    (k : cont) : option caps :=
  match s with
  | String a s' =>
      if p a then
        match star p (S pos) s' c k with
        | Some r => Some r
        | None => k pos s c
        end
      else k pos s c
  | EmptyString => k pos s c
  end.

Definition linefeed : ascii := ascii_of_nat 10.

Fixpoint run (r : re) (pos : nat) (s : string) (c : caps) (k : cont)
    : option caps :=
  match r with
  | Bol => if Nat.eqb pos 0 then k pos s c else None
  | Eol =>
      (* end of the string, or just before a final line feed *)
      match s with
      | EmptyString => k pos s c
      | String a EmptyString => if Ascii.eqb a linefeed then k pos s c else None
      | _ => None
      end
  | Lit a =>
      match s with
      | String b s' => if Ascii.eqb a b then k (S pos) s' c else None
      | EmptyString => None
      end
  | Cls p =>
      match s with
      | String b s' => if p b then k (S pos) s' c else None
      | EmptyString => None
      end
  | Star p => star p pos s c k
  | Plus p =>
      match s with
      | String b s' => if p b then star p (S pos) s' c k else None
      | EmptyString => None
      end
  | Opt r' =>
      match run r' pos s c k with
      | Some res => Some res
      | None => k pos s c
      end
  | Cat r1 r2 => run r1 pos s c (λ pos' s' c', run r2 pos' s' c' k)
  | Group i r' =>
      run r' pos s c (λ pos' s' c', k pos' s' ((i, take (pos' - pos) s) :: c'))
  end.

(** [pat.match(s)]: a match starting at position 0. *)
Definition match_ (r : re) (s : string) : option caps :=
  run r 0%nat s [] (λ _ _ c, Some c).

(** [pat.search(s)]: the first position from which a match starts. *)
Fixpoint search_from (r : re) (pos : nat) (s : string) : option caps :=
  match run r pos s [] (λ _ _ c, Some c) with
  | Some c => Some c
  | None => match s with
            | String _ s' => search_from r (S pos) s'
            | EmptyString => None
            end
  end.

Definition search (r : re) (s : string) : option caps := search_from r 0%nat s.

(** Concatenation of a list of pieces. *)
Fixpoint seq (rs : list re) : re :=
  match rs with
  | [] => Opt Bol   (* matches the empty string anywhere *)
  | [r] => r
  | r :: rs' => Cat r (seq rs')
  end.

(** The literal text [s]. *)
Fixpoint lits (s : string) : list re :=
  match s with
  | EmptyString => []
  | String c s' => Lit c :: lits s'
  end.

End Re.

(** ** Module constants *)

Definition digit : ascii → bool := Py.is_digit.
Definition blank (c : ascii) : bool := Ascii.eqb c " " || Ascii.eqb c (ascii_of_nat 9).
Definition dot (c : ascii) : bool := negb (Ascii.eqb c Re.linefeed).
Definition not_star (c : ascii) : bool := negb (Ascii.eqb c "*").
Definition is_star (c : ascii) : bool := Ascii.eqb c "*".
Definition plus_or_minus (c : ascii) : bool := Ascii.eqb c "+" || Ascii.eqb c "-".

(** [NUMS_PAT = ^@@ -([0-9]+),?([0-9]+)? \+([0-9]+),?([0-9]+)? @@] *)
Definition NUMS_PAT : Re.re :=
  Re.seq ([Re.Bol] ++ Re.lits "@@ -"
          ++ [Re.Group 1 (Re.Plus digit); Re.Opt (Re.Lit ","); Re.Opt (Re.Group 2 (Re.Plus digit))]
          ++ Re.lits " +"
          ++ [Re.Group 3 (Re.Plus digit); Re.Opt (Re.Lit ","); Re.Opt (Re.Group 4 (Re.Plus digit))]
          ++ Re.lits " @@").

(** [FIRST = {' ', '+', '-'}] *)
Definition FIRST (c : ascii) : bool :=
  Ascii.eqb c " " || Ascii.eqb c "+" || Ascii.eqb c "-".

(** EMPTY_PAT, piece by piece (the source writes them without the spaces):
    ^  [+-]  [ \t]*  (?: // .* )?  (?: /\* [^\*]* [\*]+ / )?  [ \t]*  $ *)
Definition EMPTY_PAT : Re.re :=
  Re.seq [Re.Bol; Re.Cls plus_or_minus; Re.Star blank;
          Re.Opt (Re.seq [Re.Lit "/"; Re.Lit "/"; Re.Star dot]);
          Re.Opt (Re.seq [Re.Lit "/"; Re.Lit "*"; Re.Star not_star; Re.Plus is_star; Re.Lit "/"]);
          Re.Star blank; Re.Eol].

(** ** The reconciler: [Patch.get_touched]

    The two anchor lists become sets; iteration over a Python set has no
    specified order, but every list built from one is sorted before it is
    returned. *)

Definition get_touched (added deleted : list Z) : list Z * list Z * list Z :=
  let added : gset Z := list_to_set added in
  let deleted : gset Z := list_to_set deleted in
  let touched : gset Z :=
    set_map Z.abs
      (filter (λ x, 0 < x ∧ ({[x; - x]} : gset Z) ∩ deleted ≠ ∅) added) in
  let touched : gset Z :=
    touched ∪
    set_map Z.abs
      (filter (λ x, 0 < x ∧ ({[x; - x]} : gset Z) ∩ added ≠ ∅) deleted) in
  let added := filter (λ x, 0 < x ∧ x ∉ touched) (elements added) in
  let deleted := filter (λ x, 0 < x ∧ x ∉ touched) (elements deleted) in
  let touched := merge_sort Z.le (elements touched) in
  let added := merge_sort Z.le added in
  let deleted := merge_sort Z.le deleted in
  (added, deleted, touched).

(** ** Line reassembly: the generator [lines_chunk] of [parse_changeset]

    The fragments of the transport are a finite sequence; the generator is
    embedded as the list of the chunks it yields, [last] being its local
    variable. *)

Fixpoint lines_chunk_from (last : option string) (it : list string)
    : list (list string) :=
  match it with
  | [] => []
  | chunk :: it' =>
      let chunk := Py.split Re.linefeed chunk in
      let chunk :=
        match last, chunk with
        | Some l, c0 :: cs => (l +:+ c0) :: cs
        | _, _ => chunk
        end in
      match Py.pop chunk with
      | Some (chunk, last') => chunk :: lines_chunk_from (Some last') it'
      | None => []   (* not reached: [split] never returns an empty list *)
      end
  end.

Definition lines_chunk (it : list string) : list (list string) :=
  lines_chunk_from None it.

(** ** The parse result *)

Inductive FileChange : Type :=
| New                                          (* {'new': True} *)
| Modified (added deleted touched : list Z).   (* {..., 'new': False} *)

(** ** Exceptions, and computations on the [Patch] object *)

Inductive exn : Type := StopIteration | IndexError | AttributeError | TypeError.

Inductive res (A : Type) : Type :=
| Ok (a : A)
| Raise (e : exn)
| OutOfFuel.      (* a loop of the embedding used up its budget *)
Arguments Ok {A} a.
Arguments Raise {A} e.
Arguments OutOfFuel {A}.

(** Where the generator [_lines] is suspended. *)
Inductive gen_state : Type :=
| Created      (* not started *)
| AtLine       (* at [n = (yield line)] *)
| AtNone       (* at [yield None] *)
| Finished.

(** The attributes of a [Patch].  [source] is what [lines_gen] has not
    produced yet and [get_lines] the state of the generator object; the
    stack [conditions] has its top (the last element of the Python list)
    first.  [added] and [deleted] are [None] until [get_files] runs. *)
Record Patch : Type := mkPatch {
  index : nat;
  lines : list string;
  N : nat;
  source : list (list string);
  get_lines : gen_state;
  conditions : list (string → bool);
  added : option (list Z);
  deleted : option (list Z);
  results : gmap string FileChange;
  filename : string;
  changeset : string
}.

Definition set_index (v : nat) (p : Patch) : Patch :=
  mkPatch v (lines p) (N p) (source p) (get_lines p) (conditions p)
          (added p) (deleted p) (results p) (filename p) (changeset p).
Definition set_lines (v : list string) (p : Patch) : Patch :=
  mkPatch (index p) v (N p) (source p) (get_lines p) (conditions p)
          (added p) (deleted p) (results p) (filename p) (changeset p).
Definition set_N (v : nat) (p : Patch) : Patch :=
  mkPatch (index p) (lines p) v (source p) (get_lines p) (conditions p)
          (added p) (deleted p) (results p) (filename p) (changeset p).
Definition set_source (v : list (list string)) (p : Patch) : Patch :=
  mkPatch (index p) (lines p) (N p) v (get_lines p) (conditions p)
          (added p) (deleted p) (results p) (filename p) (changeset p).
Definition set_get_lines (v : gen_state) (p : Patch) : Patch :=
  mkPatch (index p) (lines p) (N p) (source p) v (conditions p)
          (added p) (deleted p) (results p) (filename p) (changeset p).
Definition set_conditions (v : list (string → bool)) (p : Patch) : Patch :=
  mkPatch (index p) (lines p) (N p) (source p) (get_lines p) v
          (added p) (deleted p) (results p) (filename p) (changeset p).
Definition set_added (v : option (list Z)) (p : Patch) : Patch :=
  mkPatch (index p) (lines p) (N p) (source p) (get_lines p) (conditions p)
          v (deleted p) (results p) (filename p) (changeset p).
Definition set_deleted (v : option (list Z)) (p : Patch) : Patch :=
  mkPatch (index p) (lines p) (N p) (source p) (get_lines p) (conditions p)
          (added p) v (results p) (filename p) (changeset p).
Definition set_results (v : gmap string FileChange) (p : Patch) : Patch :=
  mkPatch (index p) (lines p) (N p) (source p) (get_lines p) (conditions p)
          (added p) (deleted p) v (filename p) (changeset p).
Definition set_filename (v : string) (p : Patch) : Patch :=
  mkPatch (index p) (lines p) (N p) (source p) (get_lines p) (conditions p)
          (added p) (deleted p) (results p) v (changeset p).
Definition set_changeset (v : string) (p : Patch) : Patch :=
  mkPatch (index p) (lines p) (N p) (source p) (get_lines p) (conditions p)
          (added p) (deleted p) (results p) (filename p) v.

(** [Patch.__init__] *)
Definition Patch_init (lines_gen : list (list string)) : Patch :=
  {| index := 0; lines := []; N := 0; source := lines_gen;
     get_lines := Created; conditions := [];
     added := None; deleted := None; results := ∅;
     filename := ""; changeset := "" |}.

(** A method: it runs on the object, may change it, and returns or raises. *)
Definition M (A : Type) : Type := Patch → res A * Patch.

Definition ret {A} (a : A) : M A := λ self, (Ok a, self).
Definition raise {A} (e : exn) : M A := λ self, (Raise e, self).
Definition bind {A B} (m : M A) (k : A → M B) : M B := λ self,
  match m self with
  | (Ok a, self') => k a self'
  | (Raise e, self') => (Raise e, self')
  | (OutOfFuel, self') => (OutOfFuel, self')
  end.

Notation "'let*' x ':=' m 'in' k" := (bind m (λ x, k))
  (at level 10, x pattern, m at level 100, k at level 200).
Notation "m ;; k" := (bind m (λ _, k))
  (at level 100, k at level 200, right associativity).

(** ** The generators

    [_get_lines] walks the chunks of [lines_gen]; it is suspended only at its
    [yield], inside the [for] loop, so that its state is the rest of the
    chunks, [source]. *)

(** The [for] loop of [_get_lines] up to its next [yield] ([true]) or to the
    end of [lines_gen] ([false], the generator raises [StopIteration]). *)
Fixpoint _get_lines_for (src : list (list string)) (self : Patch) : bool * Patch :=
  match src with
  | [] => (false, set_source [] self)
  | ls :: src' =>
      let self := set_N (List.length ls) self in
      if (index self <? N self)%nat
      then (true, set_source src' (set_lines ls self))
      else _get_lines_for src' (set_index (index self - N self) self)
  end.

(** [gen.send(n)] on the suspended [_get_lines], [next(gen)] being
    [gen.send(None)]; the first [next] of all enters the loop likewise, with
    no value to receive. *)
Definition _get_lines (n : option nat) (self : Patch) : bool * Patch :=
  let self := match n with
              | Some n => set_index n self
              | None => self
              end in
  _get_lines_for (source self) self.

(** [_check] *)
Definition _check (self : Patch) (x : string) : bool :=
  match conditions self with
  | c :: _ => c x
  | [] => true
  end.

(** [_condition] *)
Definition _condition (checker : string → bool) : M unit := λ self,
  (Ok (), set_conditions (checker :: conditions self) self).

(** What a resumed generator does next. *)
Inductive yielded : Type :=
| Yield (x : option string)
| Stop                        (* it returned: [StopIteration] for the caller *)
| Throw (e : exn).

(** The body of the [while] loop of [_lines] up to its [yield]. *)
Definition _lines_body (self : Patch) : yielded * Patch :=
  match lines self !! index self with
  | None => (Throw IndexError, set_get_lines Finished self)
  | Some x =>
      if _check self x
      then (Yield (Some x), set_get_lines AtLine self)
      else (Yield None,
            set_get_lines AtNone (set_conditions (tail (conditions self)) self))
  end.

(** [_lines] from the test of its [while] loop.  When the test fails the
    enclosing [for _ in gen] resumes [gen], which yields only under the same
    test [index < N]. *)
Definition _lines_while (self : Patch) : yielded * Patch :=
  if (index self <? N self)%nat then _lines_body self
  else match _get_lines None self with
       | (true, self') => _lines_body self'
       | (false, self') => (Stop, set_get_lines Finished self')
       end.

(** [self.get_lines.send(v)]; [next(self.get_lines)] is [send None]. *)
Definition send (v : option nat) (self : Patch) : yielded * Patch :=
  match get_lines self with
  | Finished => (Stop, self)
  | Created =>
      match v with
      | Some _ => (Throw TypeError, self)
      | None =>
          match _get_lines None self with
          | (true, self') => _lines_while self'
          | (false, self') => (Stop, set_get_lines Finished self')
          end
      end
  | AtNone => _lines_while self       (* the value sent is dropped *)
  | AtLine =>
      let n := default 1%nat v in
      if (N self <=? index self + n)%nat
      then (* diff <= 0: gen.send(-diff) *)
        match _get_lines (Some (index self + n - N self)%nat) self with
        | (true, self') => _lines_while self'
        | (false, self') => (Stop, set_get_lines Finished self')
        end
      else _lines_while (set_index (index self + n)%nat self)
  end.

(** One turn of [for line in self.get_lines]: [None] when the loop is over. *)
Definition next_line : M (option (option string)) := λ self,
  match send None self with
  | (Yield x, self') => (Ok (Some x), self')
  | (Stop, self') => (Ok None, self')
  | (Throw e, self') => (Raise e, self')
  end.

(** [line] *)
Definition line : M string := λ self,
  match lines self !! index self with
  | Some x => (Ok x, self)
  | None => (Raise IndexError, self)
  end.

(** [move] *)
Definition move (n : nat) : M unit := λ self,
  match send (Some n) self with
  | (Yield _, self') => (Ok (), self')
  | (Stop, self') => (Raise StopIteration, self')
  | (Throw e, self') => (Raise e, self')
  end.

(** The lines the object still holds or can pull.  A loop over [get_lines]
    takes fewer turns than [fuel]: every turn but the last moves the cursor
    on or drops a condition. *)
Definition pending (self : Patch) : nat :=
  (List.length (lines self) + sum_list (List.length <$> source self))%nat.

Definition fuel (self : Patch) : nat :=
  (2 * pending self + List.length (conditions self) + 3)%nat.

(** ** The scanner *)

(** [for line in self.get_lines: if line is None: break] *)
Fixpoint skip_lines (n : nat) : M unit :=
  match n with
  | O => λ self, (OutOfFuel, self)
  | S n' =>
      let* x := next_line in
      match x with
      | Some (Some _) => skip_lines n'
      | Some None => ret ()
      | None => ret ()
      end
  end.

(** [parse_numbers]: the pairs [n[:2]] and [n[2:]]. *)
Definition parse_numbers (ln : option string) : M ((Z * Z) * (Z * Z)) :=
  let* ln := match ln with
              | Some (String c s) => ret (String c s)
              | _ => line
              end in
  match Re.search NUMS_PAT ln with
  | None => raise AttributeError
  | Some m =>
      let n i := match Re.group m i with
                 | Some (String c s) => Py.int (String c s)
                 | _ => 1
                 end in
      ret ((n 1%nat, n 2%nat), (n 3%nat, n 4%nat))
  end.

(** [skip_binary] *)
Definition skip_binary : M unit :=
  _condition (λ x, negb (String.eqb x ""));;
  λ self, skip_lines (fuel self) self.

(** [is_binary] *)
Definition is_binary : M bool :=
  let* x := line in ret (String.eqb x "GIT binary patch").

(** [skip_useless] *)
Definition skip_useless : M unit :=
  _condition (λ x, Py.startswith x "---" || Py.startswith x "+++"
                   || Py.startswith x "index " || Py.startswith x "old mode"
                   || Py.startswith x "new mode");;
  λ self, skip_lines (fuel self) self.

(** [skip_deleted_file] *)
Definition skip_deleted_file : M unit :=
  skip_useless;;
  let* b := is_binary in
  if b then skip_binary
  else
    let* x := line in
    if Py.startswith x "@" then
      let* (minus, _) := parse_numbers None in
      move (Z.to_nat (snd minus))
    else ret ().

(** [skip_new_file] *)
Definition skip_new_file : M unit :=
  skip_useless;;
  (let* b := is_binary in
   if b then skip_binary
   else
     let* x := line in
     if Py.startswith x "@" then
       let* (_, plus) := parse_numbers None in
       move (Z.to_nat (snd plus))
     else ret ());;
  λ self,
    if String.eqb (filename self) "" then (Ok (), self)
    else (Ok (), set_results (<[filename self := New]> (results self)) self).

(** The loop of [next_diff]. *)
Fixpoint next_diff_for (n : nat) : M bool :=
  match n with
  | O => λ self, (OutOfFuel, self)
  | S n' =>
      let* x := next_line in
      match x with
      | Some (Some _) => next_diff_for n'
      | Some None => ret true
      | None => ret false
      end
  end.

(** [next_diff] *)
Definition next_diff : M bool :=
  _condition (λ x, negb (Py.startswith x "diff --git a/"));;
  λ self, next_diff_for (fuel self) self.

(** [get_signed_count] *)
Definition get_signed_count (ln : string) (count : Z) : Z :=
  match Re.match_ EMPTY_PAT ln with
  | Some _ => - count
  | None => count
  end.

(** [self.added.append(x)] and [self.deleted.append(x)] *)
Definition added_append (x : Z) : M unit := λ self,
  match added self with
  | Some l => (Ok (), set_added (Some (l ++ [x])) self)
  | None => (Raise AttributeError, self)
  end.
Definition deleted_append (x : Z) : M unit := λ self,
  match deleted self with
  | Some l => (Ok (), set_deleted (Some (l ++ [x])) self)
  | None => (Raise AttributeError, self)
  end.

(** The loop of [count_minus]. *)
Fixpoint count_minus_for (n : nat) (count : Z) : M unit :=
  match n with
  | O => λ self, (OutOfFuel, self)
  | S n' =>
      let* x := next_line in
      match x with
      | Some (Some ln) =>
          deleted_append (get_signed_count ln count);;
          count_minus_for n' (count + 1)
      | Some None => ret ()
      | None => ret ()
      end
  end.

(** [count_minus] *)
Definition count_minus (count : Z) : M unit :=
  _condition (λ x, Py.startswith x "-");;
  λ self, count_minus_for (fuel self) count self.

(** The local function [check] of [parse_hunk]. *)
Definition check (x : string) : bool :=
  match x with
  | String c _ => FIRST c
  | EmptyString => false
  end.

(** The loop of [parse_hunk]. *)
Fixpoint parse_hunk_for (n : nat) (count : Z) : M unit :=
  match n with
  | O => λ self, (OutOfFuel, self)
  | S n' =>
      let* x := next_line in
      match x with
      | Some (Some ln) =>
          match ln with
          | EmptyString => raise IndexError         (* line[0] *)
          | String first _ =>
              if Ascii.eqb first " " then parse_hunk_for n' (count + 1)
              else if Ascii.eqb first "+" then
                added_append (get_signed_count ln count);;
                parse_hunk_for n' (count + 1)
              else if Ascii.eqb first "-" then
                deleted_append (get_signed_count ln count);;
                count_minus (count + 1);;
                parse_hunk_for n' count
              else parse_hunk_for n' count
          end
      | Some None => ret ()
      | None => ret ()
      end
  end.

(** [parse_hunk] *)
Definition parse_hunk (ln : string) : M unit :=
  let* (_, plus) := parse_numbers (Some ln) in
  let count := fst plus in
  _condition check;;
  λ self, parse_hunk_for (fuel self) count self.

(** The loop of [parse_hunks]. *)
Fixpoint parse_hunks_for (n : nat) : M unit :=
  match n with
  | O => λ self, (OutOfFuel, self)
  | S n' =>
      let* x := next_line in
      match x with
      | Some (Some ln) => parse_hunk ln;; parse_hunks_for n'
      | Some None => ret ()
      | None => ret ()
      end
  end.

(** [parse_hunks] *)
Definition parse_hunks (ln : string) : M unit :=
  _condition (λ x, Py.startswith x "@");;
  λ self, parse_hunks_for (fuel self) self.

(** Truth value of an attribute that is [None] or a list. *)
Definition truthy {A} (l : option (list A)) : bool :=
  match l with
  | Some (_ :: _) => true
  | _ => false
  end.

(** The end of [get_changes], after its loop. *)
Definition record_changes : M unit := λ self,
  if truthy (added self) || truthy (deleted self) then
    match added self, deleted self with
    | Some a, Some d =>
        let '(a', d', t) := get_touched a d in
        (Ok (), set_results (<[filename self := Modified a' d' t]> (results self)) self)
    | _, _ => (Raise TypeError, self)      (* set(None) *)
    end
  else (Ok (), self).

(** The loop of [get_changes]: every branch of its body ends in [break]. *)
Definition get_changes_for : M unit :=
  let* x := next_line in
  match x with
  | Some (Some ln) =>
      if Py.startswith ln "new file" then skip_new_file
      else if Py.startswith ln "deleted file" then skip_deleted_file
      else
        skip_useless;;
        let* ln := line in
        if Py.startswith ln "@" then parse_hunks ln else ret ()
  | Some None => raise AttributeError      (* None.startswith *)
  | None => ret ()
  end.

(** [get_changes] *)
Definition get_changes : M unit := get_changes_for;; record_changes.

(** ** The driver

    [utils.is_interesting_file] and the module [six] live outside the file:
    the predicate is a parameter, and so is what evaluating [six.strings]
    gives, an exception or a value. *)

(** The Python values that meet in the type test of [parse_patch]. *)
Inductive pyval : Type :=
| PyStr (s : string)
| PyList (l : list string)
| PyClass (name : string).

Definition class_name (v : pyval) : string :=
  match v with
  | PyStr _ => "str"
  | PyList _ => "list"
  | PyClass _ => "type"
  end.

(** [isinstance(obj, classinfo)]: [classinfo] has to be a class. *)
Definition isinstance (obj classinfo : pyval) : res bool :=
  match classinfo with
  | PyClass c => Ok (String.eqb (class_name obj) c)
  | _ => Raise TypeError
  end.

(** What [parse] gives its caller. *)
Inductive outcome : Type :=
| Returns (m : gmap string FileChange)
| Raises (e : exn)
| Diverges.

(** [self.chgset]: no attribute of that name is ever assigned, [__init__]
    and [parse_changeset] set [changeset]. *)
Definition chgset (self : Patch) : res string := Raise AttributeError.

Section Driver.

Variable is_interesting_file : string → bool.
Variable six_strings : exn + pyval.

(** [get_files] *)
Definition get_files : M bool :=
  let* ln := line in
  let toks := Py.split " " ln in
  match toks !! 2%nat with
  | None => raise IndexError
  | Some old_p =>
      let old_p := if Py.startswith old_p "a/" then Py.drop 2 old_p else old_p in
      match toks !! 3%nat with
      | None => raise IndexError
      | Some new_p =>
          let new_p := if Py.startswith new_p "b/" then Py.drop 2 new_p else new_p in
          λ self,
            let self := set_deleted (Some []) (set_added (Some []) self) in
            if is_interesting_file new_p
            then (Ok true, set_filename new_p self)
            else (Ok false, set_filename "" self)
      end
  end.

(** The [while] loop of [parse]. *)
Fixpoint parse_while (n : nat) : M unit :=
  match n with
  | O => λ self, (OutOfFuel, self)
  | S n' =>
      let* more := next_diff in
      if more : bool then
        let* interesting := get_files in
        (if interesting : bool then move 1;; get_changes else move 1);;
        parse_while n'
      else ret ()
  end.

(** [parse]: the result and the messages given to [logger.error]. *)
Definition parse (self : Patch) : outcome * list string :=
  match parse_while (fuel self) self with
  | (Ok _, self') => (Returns (results self'), [])
  | (Raise StopIteration, self') => (Returns (results self'), [])
  | (Raise _, self') =>
      match chgset self' with
      | Ok c => (Returns ∅, ["Error in parsing patch with revision " +:+ c])
      | Raise e => (Raises e, [])
      | OutOfFuel => (Diverges, [])
      end
  | (OutOfFuel, _) => (Diverges, [])
  end.

(** [parse_changeset], from the fragments [it] that the transport
    delivers for the revision. *)
Definition parse_changeset (chgset : string) (it : list string)
    : outcome * list string :=
  let p := Patch_init (lines_chunk it) in
  let p := set_changeset chgset p in
  parse p.

(** Iterating over a string gives its characters. *)
Fixpoint chars (s : string) : list string :=
  match s with
  | EmptyString => []
  | String c s' => String c EmptyString :: chars s'
  end.

(** [parse_patch], for a patch that is a string or a list of lines. *)
Definition parse_patch (patch : string + list string) : outcome * list string :=
  match six_strings with
  | inl e => (Raises e, [])
  | inr strings =>
      let classinfo := match patch with
                       | inl s => PyStr s
                       | inr l => PyList l
                       end in
      match isinstance strings classinfo with
      | Raise e => (Raises e, [])
      | OutOfFuel => (Diverges, [])
      | Ok b =>
          match patch with
          | inl s =>
              let x := if b then Py.split Re.linefeed s else chars s in
              parse (Patch_init [x])
          | inr l =>
              if b then (Raises AttributeError, [])    (* a list has no split *)
              else parse (Patch_init [l])
          end
      end
  end.

(** [parse_file], from the text that reading the file gives. *)
Definition parse_file (contents : string) : outcome * list string :=
  parse_patch (inl contents).

End Driver.


(** ** Notions used to state the properties *)

(** A line feed, as a string. *)
Definition nl : string := String Re.linefeed "".

(** The text that the fragments make up. *)
Definition joined (it : list string) : string := foldr String.append "" it.

(** The carried piece [last] put in front of the first line of [l]. *)
Definition prepend (last : string) (l : list string) : list string :=
  match l with
  | h :: t => (last +:+ h) :: t
  | [] => l
  end.

(** The lines that the generator has still to deliver, the line at the
    cursor first. *)
Definition upcoming (self : Patch) : list string :=
  match get_lines self with
  | Created => List.concat (source self)
  | AtLine | AtNone => drop (index self) (lines self) ++ List.concat (source self)
  | Finished => []
  end.

(** The states that the generators keep to: a suspended generator has its
    cursor inside the chunk it holds. *)
Definition wf (self : Patch) : Prop :=
  match get_lines self with
  | Created => index self = 0%nat
  | AtLine | AtNone =>
      (index self < N self)%nat ∧ N self = List.length (lines self)
  | Finished => True
  end.

(** A measure that no method increases and every line delivered decreases. *)
Definition weight (self : Patch) : nat :=
  match get_lines self with
  | Created | AtNone =>
      (2 * List.length (upcoming self) + 1 + List.length (conditions self))%nat
  | AtLine =>
      (2 * List.length (upcoming self) + List.length (conditions self))%nat
  | Finished => 0%nat
  end.

(** The attributes that the generators leave alone. *)
Definition same_record (self self' : Patch) : Prop :=
  added self' = added self ∧ deleted self' = deleted self
  ∧ results self' = results self ∧ filename self' = filename self
  ∧ changeset self' = changeset self.

(** How many lines a resumed generator moves on before it looks at one. *)
Definition shift (v : option nat) (self : Patch) : nat :=
  match get_lines self with
  | AtLine => default 1%nat v
  | _ => 0%nat
  end.

(** What a turn of the loop of [_lines] yields for the line at the cursor. *)
Definition delivers (self : Patch) (x : string) (rest : list string)
    (r : yielded * Patch) : Prop :=
  if _check self x
  then ∃ self', r = (Yield (Some x), self') ∧ get_lines self' = AtLine
         ∧ upcoming self' = x :: rest ∧ conditions self' = conditions self
         ∧ wf self' ∧ same_record self self'
  else ∃ self', r = (Yield None, self') ∧ get_lines self' = AtNone
         ∧ upcoming self' = x :: rest ∧ conditions self' = tail (conditions self)
         ∧ wf self' ∧ same_record self self'.


(** How a method call ends. *)
Inductive kind : Type := KOk | KRaise (e : exn) | KOut.

Definition kind_of {A} (r : res A) : kind :=
  match r with
  | Ok _ => KOk
  | Raise e => KRaise e
  | OutOfFuel => KOut
  end.

(** A method keeps the invariant [I], relates the object before and after
    by [R], and ends in one of the ways [E]. *)
Definition law {A} (I : Patch → Prop) (R : Patch → Patch → Prop)
    (E : kind → Prop) (m : M A) : Prop :=
  ∀ self, I self → E (kind_of (m self).1) ∧ R self (m self).2 ∧ I (m self).2.

(** The method does not add to [weight]. *)
Definition lighter (self self' : Patch) : Prop := (weight self' <= weight self)%nat.

(** The method does not add to [weight] and keeps the record attributes. *)
Definition lighter_same (self self' : Patch) : Prop :=
  (weight self' <= weight self)%nat ∧ same_record self self'.

(** The method ends: it returns or raises. *)
Definition ends (k : kind) : Prop := k ≠ KOut.

(** ** Sample patches *)

(** An interest predicate that takes every path. *)
Definition every_file (path : string) : bool := true.

(** The section of a deleted file. *)
Definition deleted_section : list string :=
  ["diff --git a/d.cpp b/d.cpp";
   "deleted file mode 100644";
   "--- a/d.cpp";
   "+++ /dev/null";
   "@@ -1,2 +0,0 @@";
   "-a";
   "-b"].

(** The object when [next_diff] has found the header of [deleted_section]. *)
Definition at_deleted_header : Patch :=
  (next_diff (Patch_init [deleted_section])).2.

(** The section of a modified file whose one change is a comment line. *)
Definition comment_only_section : list string :=
  ["diff --git a/e.cpp b/e.cpp";
   "--- a/e.cpp";
   "+++ b/e.cpp";
   "@@ -1,1 +1,2 @@";
   " a";
   "+  // comment"].

(** The lines that the next [next(self.get_lines)] looks at, the first of
    them being the one it tests. *)
Definition next_from (self : Patch) : list string :=
  drop (shift None self) (upcoming self).

(** The condition that [count_minus] pushes. *)
Definition is_minus (x : string) : bool := Py.startswith x "-".

(** The anchors of a run of lines counted from [count]. *)
Definition run_anchors (count : Z) (ms : list string) : list Z :=
  imap (λ i m, get_signed_count m (count + Z.of_nat i)) ms.

(** A hunk with a run of three deleted lines, and the object when the loop
    of [parse_hunk] starts on it: the header has been yielded, [check] is
    the top condition and the anchor lists are empty. *)
Definition run_hunk : list string :=
  ["@@ -10,4 +10,3 @@ f"; "-old1"; "-"; "-old3"; "+new1"; " ctx"].

Definition at_run_hunk : Patch :=
  set_conditions [check]
    (set_added (Some []) (set_deleted (Some []) (next_line (Patch_init [run_hunk])).2)).

(** The invariant of a loop that has [n] turns left. *)
Definition within (n : nat) (self : Patch) : Prop :=
  wf self ∧ (weight self < n)%nat.


(** A patch of two files whose second hunk header cannot be parsed. *)
Definition bad_header_patch : list string :=
  ["diff --git a/x.cpp b/x.cpp";
   "--- a/x.cpp";
   "+++ b/x.cpp";
   "@@ -1,1 +1,2 @@";
   " a";
   "+b";
   "diff --git a/y.cpp b/y.cpp";
   "--- a/y.cpp";
   "+++ b/y.cpp";
   "@@ -1,3 +one,4 @@";
   " a";
   "+c"].

(** The section of a new file. *)
Definition new_section : list string :=
  ["diff --git a/n.cpp b/n.cpp";
   "new file mode 100644";
   "--- /dev/null";
   "+++ b/n.cpp";
   "@@ -0,0 +1,2 @@";
   "+a";
   "+b"].

(** A patch in two fragments whose last line, an added line, has no line
    feed after it. *)
Definition unterminated_fragments : list string :=
  ["diff --git a/x.cpp b/x.cpp" +:+ nl +:+ "--- a/x.cpp" +:+ nl +:+ "+++ b/x.c";
   "pp" +:+ nl +:+ "@@ -1,1 +1,2 @@" +:+ nl +:+ " a" +:+ nl +:+ "+b"].

(** [c in s] *)
Fixpoint has_char (c : ascii) (s : string) : bool :=
  match s with
  | EmptyString => false
  | String d s' => Ascii.eqb c d || has_char c s'
  end.

(** Every character of [s] is in the class [p]. *)
Fixpoint all_chars (p : ascii → bool) (s : string) : bool :=
  match s with
  | EmptyString => true
  | String c s' => p c && all_chars p s'
  end.

(** [s] begins with a character of the class [p]. *)
Definition starts_in (p : ascii → bool) (s : string) : bool :=
  match s with
  | String c _ => p c
  | EmptyString => false
  end.

(** The text of an optional count in a hunk header, and its value. *)
Definition count_text (n : option string) : string :=
  match n with
  | Some ds => "," +:+ ds
  | None => ""
  end.

Definition count_value (n : option string) : Z :=
  match n with
  | Some ds => Py.int ds
  | None => 1
  end.

(** The pieces of [EMPTY_PAT] after the marker and the blanks. *)
Definition line_comment : Re.re :=
  Re.seq [Re.Lit "/"; Re.Lit "/"; Re.Star dot].
Definition block_comment : Re.re :=
  Re.seq [Re.Lit "/"; Re.Lit "*"; Re.Star not_star; Re.Plus is_star; Re.Lit "/"].
Definition blank_end : Re.re := Re.seq [Re.Star blank; Re.Eol].

(** The continuation that ends a match. *)
Definition accept : Re.cont := λ _ _ c, Some c.

(** The match of what comes after the marker and the leading blanks. *)
Definition after_blanks : Re.cont := λ pos s c,
  Re.run (Re.Opt line_comment) pos s c
    (λ pos s c, Re.run (Re.Opt block_comment) pos s c
                  (λ pos s c, Re.run blank_end pos s c accept)).

(** A string of one or more ASCII digits. *)
Definition number (ds : string) : bool :=
  starts_in digit ds && all_chars digit ds.

Definition optional_number (n : option string) : bool :=
  match n with
  | Some ds => number ds
  | None => true
  end.

(** A hunk header with the given start lines and optional counts. *)
Definition hunk_header (a : string) (b : option string) (c : string)
    (d : option string) (rest : string) : string :=
  "@@ -" +:+ a +:+ count_text b +:+ " +" +:+ c +:+ count_text d +:+ " @@" +:+ rest.

(** The condition that [next_diff] pushes, and its negation. *)
Definition is_diff_header (x : string) : bool := Py.startswith x "diff --git a/".
Definition not_diff_header (x : string) : bool := negb (is_diff_header x).

(** The method keeps [filename] and changes the result map at that key at
    most. *)
Definition only_filename (self self' : Patch) : Prop :=
  filename self' = filename self
  ∧ ∀ k, k ≠ filename self → results self' !! k = results self !! k.

(** Any way of ending. *)
Definition any_end (k : kind) : Prop := True.

(** An interest predicate that takes one path only. *)
Definition only_x_cpp (path : string) : bool := String.eqb path "x.cpp".

(** A patch of three files; the second is a new file. *)
Definition three_files_patch : list string :=
  ["diff --git a/x.cpp b/x.cpp"; "--- a/x.cpp"; "+++ b/x.cpp";
   "@@ -1,1 +1,2 @@"; " a"; "+b";
   "diff --git a/n.py b/n.py"; "new file mode 100644"; "--- /dev/null";
   "+++ b/n.py"; "@@ -0,0 +1,1 @@"; "+pass";
   "diff --git a/y.h b/y.h"; "--- a/y.h"; "+++ b/y.h";
   "@@ -3,1 +3,1 @@"; "-old"; "+new"].

(** Every key of the result map is a path that the predicate takes. *)
Definition keys_interesting (interesting : string → bool) (self : Patch) : Prop :=
  ∀ k, is_Some (results self !! k) → interesting k = true.

(** The conditions that [skip_useless] and [skip_binary] push. *)
Definition useless (x : string) : bool :=
  Py.startswith x "---" || Py.startswith x "+++" || Py.startswith x "index "
  || Py.startswith x "old mode" || Py.startswith x "new mode".
Definition nonempty (x : string) : bool := negb (String.eqb x "").

(** Objects whose cursor is on the first line of a file section, and on the
    first line of a binary patch with and without the empty line that
    closes it. *)
Definition at_section_header : Patch :=
  (next_line (Patch_init [["diff --git a/x b/x"; "index 1..2"];
                          ["--- a/x"; "+++ b/x"; "@@ -1 +1 @@"; "+y"]])).2.
Definition at_binary_patch : Patch :=
  (next_line (Patch_init [["GIT binary patch"; "literal 5"; "zcmZ"; "";
                           "diff --git a/y b/y"]])).2.
Definition at_open_binary_patch : Patch :=
  (next_line (Patch_init [["GIT binary patch"; "literal 5"]; ["zcmZ"]])).2.

(** What may follow a token of a line: nothing, or a space. *)
Definition ends_token (tail : string) : bool :=
  match tail with
  | EmptyString => true
  | String c _ => Ascii.eqb c " "
  end.

(** The header of the section of the file [old], renamed or not to [new]. *)
Definition diff_header (old new tail : string) : string :=
  "diff --git " +:+ old +:+ " " +:+ new +:+ tail.

(** A section whose header gives a path with a space in it. *)
Definition at_spaced_header : Patch :=
  (next_line (Patch_init [["diff --git a/my file.c b/my file.c"; "index 1..2"]])).2.

(** The object when [skip_new_file] is called in the section of a new file
    of two lines: the file has been taken and the line [new file mode] has
    been yielded. *)
Definition at_new_file : Patch :=
  (next_line (move 1 (get_files every_file
                        (next_diff (Patch_init [new_section])).2).2).2).2.

(** ** A hunk as one pass

    The anchors that the loops of [parse_hunk] and [count_minus] append for
    the lines [body] of a hunk, the added ones and the deleted ones: [count]
    is the number of the next line of the new file, and [run], inside a run
    of deleted lines, is the number that the next line of the run gets. *)
Fixpoint hunk_anchors (count : Z) (run : option Z) (body : list string)
    : list Z * list Z :=
  match body with
  | [] => ([], [])
  | ln :: body' =>
      match ln with
      | EmptyString => hunk_anchors count None body'
      | String first _ =>
          if Ascii.eqb first " " then hunk_anchors (count + 1) None body'
          else if Ascii.eqb first "+" then
            let r := hunk_anchors (count + 1) None body' in
            (get_signed_count ln count :: r.1, r.2)
          else if Ascii.eqb first "-" then
            let n := default count run in
            let r := hunk_anchors count (Some (n + 1)) body' in
            (r.1, get_signed_count ln n :: r.2)
          else hunk_anchors count None body'
      end
  end.

(** The line that ends a loop, if there is one, fails the condition [c]. *)
Definition refused (c : string → bool) (tail : list string) : Prop :=
  match tail with
  | [] => True
  | p :: _ => c p = false
  end.

(** The object when the loop of [parse_hunks] has yielded the header of a
    hunk that the end of the input closes. *)
Definition last_hunk : list string :=
  ["@@ -3,4 +3,4 @@ f"; " a"; "-b"; "-"; "+c"; "+// d"; " e"].
Definition at_last_hunk : Patch :=
  set_added (Some []) (set_deleted (Some []) (next_line (Patch_init [last_hunk])).2).

(** How a loop leaves the object when the lines [tail] are left: at the end
    of the input the generator is exhausted; otherwise it is suspended at
    its [yield None] on the first line of [tail], and the condition of the
    loop has been dropped, which leaves the conditions [cs]. *)
Definition stopped (tail : list string) (cs : list (string → bool))
    (self : Patch) : Prop :=
  wf self ∧ next_from self = tail
  ∧ match tail with
    | [] => get_lines self = Finished
    | _ :: _ => get_lines self = AtNone ∧ conditions self = cs
    end.

(** ** The numbers of the lines of a hunk

    A line of context and an added line are lines of the new file; the
    [i]-th line of a hunk that starts at line [start] of the new file comes
    after the lines of the new file among the [i] lines before it. *)
Definition is_plus (x : string) : bool := Py.startswith x "+".
Definition new_side (x : string) : bool :=
  Py.startswith x " " || Py.startswith x "+".
Definition new_number (start : Z) (body : list string) (i : nat) : Z :=
  start + Z.of_nat (List.length (List.filter new_side (take i body))).

(** The length of the run of deleted lines that ends with the last line of
    [l], after a run of [r] deleted lines before [l]. *)
Fixpoint run_after (r : nat) (l : list string) : nat :=
  match l with
  | [] => r
  | x :: l' => run_after (if is_minus x then S r else 0%nat) l'
  end.

(** The anchor of the [i]-th line of the hunk when it is an added line: its
    number in the new file; and when it is a deleted line: the number of
    the line of the new file that comes after the deleted lines, plus the
    place of the line in its run of deleted lines. *)
Definition added_at (start : Z) (body : list string) (i : nat) (x : string)
    : option Z :=
  if is_plus x then Some (get_signed_count x (new_number start body i)) else None.
Definition deleted_at (start : Z) (r : nat) (body : list string) (i : nat)
    (x : string) : option Z :=
  if is_minus x
  then Some (get_signed_count x
               (new_number start body i + Z.of_nat (run_after r (take i body))))
  else None.

Definition added_numbers (start : Z) (body : list string) : list Z :=
  omap id (imap (added_at start body) body).
Definition deleted_numbers (start : Z) (body : list string) : list Z :=
  omap id (imap (deleted_at start 0 body) body).

(** ** The section of a modified file

    A hunk as it stands in a patch: the numbers of its header, the text
    after the header's second [@@], and its lines. *)
Record hunk : Type := mkHunk {
  h_old : string;
  h_old_count : option string;
  h_new : string;
  h_new_count : option string;
  h_text : string;
  h_body : list string
}.

Definition hunk_lines (h : hunk) : list string :=
  hunk_header (h_old h) (h_old_count h) (h_new h) (h_new_count h) (h_text h)
  :: h_body h.

(** The header has its numbers, and every line begins with a space, a plus
    or a minus. *)
Definition hunk_ok (h : hunk) : bool :=
  number (h_old h) && optional_number (h_old_count h)
  && number (h_new h) && optional_number (h_new_count h)
  && forallb check (h_body h).

(** The anchors of the added and of the deleted lines of the hunks. *)
Definition section_added (hs : list hunk) : list Z :=
  List.concat ((λ h, added_numbers (Py.int (h_new h)) (h_body h)) <$> hs).
Definition section_deleted (hs : list hunk) : list Z :=
  List.concat ((λ h, deleted_numbers (Py.int (h_new h)) (h_body h)) <$> hs).

(** The condition that [parse_hunks] pushes. *)
Definition is_at (x : string) : bool := Py.startswith x "@".

(** What [get_changes] records for the anchors [a] and [d]. *)
Definition recorded (a d : list Z) (path : string)
    (results : gmap string FileChange) : gmap string FileChange :=
  match a, d with
  | [], [] => results
  | _, _ =>
      let '(a', d', t) := get_touched a d in
      <[path := Modified a' d' t]> results
  end.

(** A patch of a modified file with two hunks and of a second file, and the
    object when [get_changes] is called in the first section. *)
Definition two_hunks_patch : list string :=
  ["diff --git a/x.c b/x.c"; "index 1..2 100644"; "--- a/x.c"; "+++ b/x.c";
   "@@ -1,3 +1,3 @@"; " a"; "-b"; "+c"; " d";
   "@@ -10 +10,2 @@ g"; " e"; "+// f";
   "diff --git a/y.c b/y.c"; "index 3..4 100644"].
Definition at_two_hunks : Patch :=
  (move 1 (get_files every_file (next_diff (Patch_init [two_hunks_patch])).2).2).2.

(** The object when [parse_hunks] is called on two hunks that the header of
    another section follows: the cursor is on the line before the first
    hunk. *)
Definition hunks_lines : list string :=
  ["+++ b/x"; "@@ -1 +5 @@"; "+a"; "@@ -7,2 +8,0 @@ g"; "-b"; "-c";
   "diff --git a/y b/y"].
Definition at_hunks : Patch :=
  set_added (Some []) (set_deleted (Some []) (next_line (Patch_init [hunks_lines])).2).

(** ** A patch of modified files

    The section of a modified file as it stands in a patch: the header with
    the path, the line after it (the [index] line as a rule), the lines that
    [skip_useless] passes over, and one or more hunks. *)
Record file_section : Type := mkSection {
  s_path : string;
  s_line : string;
  s_pre : list string;
  s_first : hunk;
  s_hunks : list hunk
}.




(** What the section adds to the result map, and the map of a patch. *)
Definition section_entry (m : gmap string FileChange) (s : file_section)
    : gmap string FileChange :=
  recorded (section_added (s_first s :: s_hunks s))
    (section_deleted (s_first s :: s_hunks s)) (s_path s) m.
Definition patch_results (secs : list file_section) : gmap string FileChange :=
  foldl section_entry ∅ secs.

(** The two sections of [truncated_patch]: the header of the second hunk
    announces four lines of the new file, and the input ends after two. *)
Definition truncated_sections : list file_section :=
  [mkSection "x.cpp" "--- a/x.cpp" ["+++ b/x.cpp"]
     (mkHunk "1" (Some "1") "1" (Some "2") "" [" a"; "+b"]) [];
   mkSection "y.cpp" "--- a/y.cpp" ["+++ b/y.cpp"]
     (mkHunk "1" (Some "3") "1" (Some "4") "" [" a"; "+c"]) []].
(** * Properties *)

(** ** The reconciler *)

Section Reconciler.

Implicit Types (added deleted : list Z) (x : Z).

Lemma StronglySorted_le_lt (l : list Z) :
  NoDup l → StronglySorted Z.le l → StronglySorted Z.lt l.
Proof.
  induction l as [|x l IH]; intros Hnd Hs; [constructor|].
  apply NoDup_cons in Hnd as [Hx Hnd].
  apply StronglySorted_inv in Hs as [Hs Hall].
  constructor; [by apply IH|].
  rewrite Forall_forall in Hall |- *.
  intros y Hy. specialize (Hall y Hy).
  assert (x ≠ y) by (intros ->; done). lia.
Qed.

Lemma sorted_increasing (l : list Z) :
  NoDup l → StronglySorted Z.lt (merge_sort Z.le l).
Proof.
  intros Hnd. apply StronglySorted_le_lt.
  - by rewrite merge_sort_Permutation.
  - apply (StronglySorted_merge_sort Z.le); apply _.
Qed.

Lemma elem_of_sorted (l : list Z) x : x ∈ merge_sort Z.le l ↔ x ∈ l.
Proof. by rewrite merge_sort_Permutation. Qed.


(** C2: on the worked example of the comment in [get_touched], the
    reconciler returns exactly the three lists that the comment gives. *)
Theorem get_touched_worked_example :
  get_touched [1; 2; 3; 4; -5; -6; -7; 8; 10] [4; 5; 6; -7; 9; -10]
  = ([1; 2; 3; 8], [9], [4; 5; 6; 10]).
Proof. vm_compute. reflexivity. Qed.

(** C3: whatever the two anchor lists are, the three lists returned are
    pairwise disjoint as sets and each of them is strictly increasing. *)
Theorem get_touched_disjoint_increasing added deleted :
  let '(a, d, t) := get_touched added deleted in
  (list_to_set a : gset Z) ## list_to_set d
  ∧ (list_to_set a : gset Z) ## list_to_set t
  ∧ (list_to_set d : gset Z) ## list_to_set t
  ∧ StronglySorted Z.lt a ∧ StronglySorted Z.lt d ∧ StronglySorted Z.lt t.
Proof.
  unfold get_touched.
  set (A := list_to_set added : gset Z).
  set (D := list_to_set deleted : gset Z).
  set (T := (_ ∪ _ : gset Z)).
  assert (HT : ∀ x, 0 < x → x ∈ A → x ∈ D → x ∈ T).
  { intros x Hx HA HD. subst T. apply elem_of_union_l, elem_of_map.
    exists x. split; [lia|]. apply elem_of_filter. set_solver. }
  repeat split.
  - intros x. rewrite !elem_of_list_to_set, !elem_of_sorted, !list_elem_of_filter, !elem_of_elements.
    intros [[? Hn] ?] [_ ?]. by apply Hn, HT.
  - intros x. rewrite !elem_of_list_to_set, !elem_of_sorted, !list_elem_of_filter, !elem_of_elements.
    by intros [[_ Hn] _] ?.
  - intros x. rewrite !elem_of_list_to_set, !elem_of_sorted, !list_elem_of_filter, !elem_of_elements.
    by intros [[_ Hn] _] ?.
  - apply sorted_increasing, NoDup_filter, NoDup_elements.
  - apply sorted_increasing, NoDup_filter, NoDup_elements.
  - apply sorted_increasing, NoDup_elements.
Qed.

(** C10: the reconciler depends on its arguments only through their sets
    of elements. *)
Theorem get_touched_set_extensional added deleted added' deleted' :
  (∀ x, x ∈ added ↔ x ∈ added') →
  (∀ x, x ∈ deleted ↔ x ∈ deleted') →
  get_touched added deleted = get_touched added' deleted'.
Proof.
  intros Ha Hd. unfold get_touched.
  assert (list_to_set added = (list_to_set added' : gset Z)) as ->.
  { apply set_eq. intros x. by rewrite !elem_of_list_to_set. }
  assert (list_to_set deleted = (list_to_set deleted' : gset Z)) as ->.
  { apply set_eq. intros x. by rewrite !elem_of_list_to_set. }
  reflexivity.
Qed.

(** Anchors that are all negative reconcile to nothing. *)
Lemma get_touched_negative added deleted :
  Forall (λ x, x < 0) added → Forall (λ x, x < 0) deleted →
  get_touched added deleted = ([], [], []).
Proof.
  rewrite !Forall_forall. intros Ha Hd. unfold get_touched.
  set (A := list_to_set added : gset Z).
  set (D := list_to_set deleted : gset Z).
  assert (HA : ∀ x, x ∈ A → x < 0).
  { intros x Hx. apply Ha. by apply elem_of_list_to_set in Hx. }
  assert (HD : ∀ x, x ∈ D → x < 0).
  { intros x Hx. apply Hd. by apply elem_of_list_to_set in Hx. }
  assert (filter (λ x, 0 < x ∧ ({[x; - x]} : gset Z) ∩ D ≠ ∅) A = ∅) as ->.
  { apply set_eq. intros x. rewrite elem_of_filter, elem_of_empty.
    split; [|done]. intros [[? _] Hx]. specialize (HA x Hx). lia. }
  assert (filter (λ x, 0 < x ∧ ({[x; - x]} : gset Z) ∩ A ≠ ∅) D = ∅) as ->.
  { apply set_eq. intros x. rewrite elem_of_filter, elem_of_empty.
    split; [|done]. intros [[? _] Hx]. specialize (HD x Hx). lia. }
  rewrite set_map_empty, (left_id_L ∅ (∪)), elements_empty.
  repeat (match goal with |- (_, _) = (_, _) => f_equal end); try done;
    apply elem_of_nil_inv; intros x;
    rewrite elem_of_sorted, list_elem_of_filter, elem_of_elements;
    intros [[? _] Hx]; first [specialize (HA x Hx) | specialize (HD x Hx)]; lia.
Qed.

Lemma get_touched_set_extensional_witness :
  get_touched [3; -4; 3; 7] [4; 7; 7] = get_touched [7; -4; 3] [7; 4; 4; 7].
Proof.
  apply (get_touched_set_extensional [3; -4; 3; 7] [4; 7; 7] [7; -4; 3] [7; 4; 4; 7]).
  - intros x. rewrite !elem_of_cons, !elem_of_nil. tauto.
  - intros x. rewrite !elem_of_cons, !elem_of_nil. tauto.
Defined.

End Reconciler.

(** ** Line reassembly *)

Section ChunkSource.

Lemma split_nonempty sep s : Py.split sep s ≠ [].
Proof. destruct s as [|c s]; simpl; [done|]. destruct (Ascii.eqb c sep); [done|]. by destruct (Py.split sep s). Qed.

Lemma pop_snoc {A} (l : list A) x : Py.pop (l ++ [x]) = Some (l, x).
Proof.
  induction l as [|y l IH]; [done|]. simpl. rewrite IH.
  by destruct l.
Qed.

Lemma pop_Some {A} (l : list A) : l ≠ [] → ∃ r x, l = r ++ [x] ∧ Py.pop l = Some (r, x).
Proof.
  intros Hl. destruct (decide (l = [])) as [|_]; [done|].
  induction l as [|y l IH] using rev_ind; [done|].
  exists l, y. split; [done|]. apply pop_snoc.
Qed.

Lemma append_cons c (s t : string) : String c s +:+ t = String c (s +:+ t).
Proof. reflexivity. Qed.

Lemma append_empty_r (s : string) : s +:+ "" = s.
Proof. induction s as [|c s IH]; [done|]. by rewrite append_cons, IH. Qed.

Lemma append_assoc (s t u : string) : (s +:+ t) +:+ u = s +:+ t +:+ u.
Proof. induction s as [|c s IH]; [done|]. by rewrite !append_cons, IH. Qed.

Lemma split_app sep s1 s2 r x :
  Py.split sep s1 = r ++ [x] →
  Py.split sep (s1 +:+ s2) = r ++ prepend x (Py.split sep s2).
Proof.
  revert r x. induction s1 as [|c s1 IH]; intros r x Hs;
    [change ("" +:+ s2) with s2 | rewrite append_cons]; simpl in *.
  - destruct r as [|? [|? ?]]; simplify_eq/=.
    pose proof (split_nonempty sep s2). by destruct (Py.split sep s2).
  - destruct (pop_Some (Py.split sep s1) (split_nonempty sep s1)) as (r' & x' & Hr & _).
    specialize (IH r' x' Hr). rewrite IH, Hr in *.
    destruct (Ascii.eqb c sep).
    + destruct r as [|? r]; simplify_eq/=.
      { by destruct r'. }
      apply app_inj_tail in H0 as [-> ->]. done.
    + destruct r' as [|h r']; simpl in *.
      * destruct r as [|? [|? ?]]; simplify_eq/=.
        pose proof (split_nonempty sep s2). by destruct (Py.split sep s2).
      * destruct r as [|? r]; simplify_eq/=.
        { by destruct r'. }
        apply app_inj_tail in H0 as [-> ->]. done.
Qed.

Lemma lines_chunk_from_Some it last :
  ∃ final, prepend last (Py.split Re.linefeed (joined it))
           = List.concat (lines_chunk_from (Some last) it) ++ [final].
Proof.
  revert last. induction it as [|chunk it IH]; intros last.
  - exists last. cbn -[String.append]. by rewrite append_empty_r.
  - cbn [joined foldr lines_chunk_from]. fold (joined it).
    destruct (pop_Some _ (split_nonempty Re.linefeed chunk)) as (r & x & Hr & _).
    rewrite (split_app _ _ _ _ _ Hr), Hr.
    destruct (IH x) as [final Hfinal].
    destruct r as [|h r]; cbn [app prepend].
    + destruct (IH (last +:+ x)) as [final' Hfinal']. exists final'.
      cbn [Py.pop List.concat app]. rewrite <- Hfinal'.
      pose proof (split_nonempty Re.linefeed (joined it)).
      destruct (Py.split Re.linefeed (joined it)); [done|]. cbn [prepend].
      by rewrite append_assoc.
    + exists final. 
      change ((last +:+ h) :: r ++ [x]) with (((last +:+ h) :: r) ++ [x]).
      rewrite pop_snoc. cbn [List.concat]. rewrite Hfinal.
      by rewrite <- !app_assoc.
Qed.

Lemma lines_chunk_split it :
  ∃ final, Py.split Re.linefeed (joined it)
           = List.concat (lines_chunk it) ++ [final].
Proof.
  destruct it as [|chunk it]; [by exists ""|].
  unfold lines_chunk. cbn [joined foldr lines_chunk_from]. fold (joined it).
  destruct (pop_Some _ (split_nonempty Re.linefeed chunk)) as (r & x & Hr & Hpop).
  destruct (lines_chunk_from_Some it x) as [final Hfinal].
  exists final. rewrite (split_app _ _ _ _ _ Hr), Hpop, Hfinal.
  cbn [List.concat]. by rewrite app_assoc.
Qed.

(** C9: the chunks that [lines_chunk] yields hold the lines of the text
    that the fragments make up, in order and unsplit, except the last one:
    the piece carried over after the last fragment is never yielded.  On
    the one fragment "a", line feed, "b" the line "b" is lost. *)
Theorem lines_chunk_drops_last_line :
  (∀ it, ∃ final, Py.split Re.linefeed (joined it)
                  = List.concat (lines_chunk it) ++ [final])
  ∧ Py.split Re.linefeed (joined ["a" +:+ nl +:+ "b"]) = ["a"; "b"]
  ∧ List.concat (lines_chunk ["a" +:+ nl +:+ "b"]) = ["a"].
Proof. split; [apply lines_chunk_split | by vm_compute]. Qed.

(** The streaming entry point loses the change of an unterminated last
    line; the lines of the same text, whole, give it. *)
Example unterminated_last_line_lost :
  List.concat (lines_chunk unterminated_fragments)
  = ["diff --git a/x.cpp b/x.cpp"; "--- a/x.cpp"; "+++ b/x.cpp";
     "@@ -1,1 +1,2 @@"; " a"]
  ∧ parse_changeset every_file "rev" unterminated_fragments = (Returns ∅, [])
  ∧ parse every_file
      (Patch_init [Py.split Re.linefeed (joined unterminated_fragments)])
    = (Returns {["x.cpp" := Modified [2] [] []]}, []).
Proof. by vm_compute. Qed.

End ChunkSource.

(** ** The generators *)

Ltac record_solve :=
  repeat match goal with
         | H : same_record _ _ |- _ => destruct H as (?&?&?&?&?)
         end;
  simpl in *; unfold same_record; simpl; repeat split; try congruence; try done.

Section Generators.

Implicit Types (self : Patch) (src : list (list string)).

Lemma same_record_refl self : same_record self self.
Proof. by repeat split. Qed.

Lemma same_record_trans self1 self2 self3 :
  same_record self1 self2 → same_record self2 self3 → same_record self1 self3.
Proof. unfold same_record. intros (?&?&?&?&?) (?&?&?&?&?). repeat split; congruence. Qed.

(** The loop of [_get_lines] finds the chunk that holds position [index]
    of what is left, if there is one. *)
Lemma _get_lines_for_true src self :
  (index self < List.length (List.concat src))%nat →
  ∃ self', _get_lines_for src self = (true, self')
    ∧ (index self' < N self')%nat ∧ N self' = List.length (lines self')
    ∧ drop (index self') (lines self') ++ List.concat (source self')
      = drop (index self) (List.concat src)
    ∧ get_lines self' = get_lines self ∧ conditions self' = conditions self
    ∧ same_record self self'.
Proof.
  revert self. induction src as [|ls src IH]; intros self Hi; simpl in *; [lia|].
  destruct (index self <? List.length ls)%nat eqn:Hlt.
  - apply Nat.ltb_lt in Hlt. eexists. split; [done|]. simpl.
    repeat split; [done|]. by rewrite drop_app_le by lia.
  - apply Nat.ltb_ge in Hlt. rewrite length_app in Hi.
    destruct (IH (set_index (index self - List.length ls) (set_N (List.length ls) self)))
      as (self' & -> & ? & ? & Hd & ? & ? & ?); [simpl; lia|].
    exists self'. split; [done|]. split; [done|]. split; [done|].
    split; [|record_solve].
    rewrite Hd. simpl. by rewrite drop_app_ge by lia.
Qed.

Lemma _get_lines_for_false src self :
  (List.length (List.concat src) ≤ index self)%nat →
  ∃ self', _get_lines_for src self = (false, self')
    ∧ get_lines self' = get_lines self ∧ conditions self' = conditions self
    ∧ same_record self self'.
Proof.
  revert self. induction src as [|ls src IH]; intros self Hi; simpl in *.
  - eexists. by repeat split.
  - rewrite length_app in Hi.
    destruct (index self <? List.length ls)%nat eqn:Hlt.
    { apply Nat.ltb_lt in Hlt. lia. }
    destruct (IH (set_index (index self - List.length ls) (set_N (List.length ls) self)))
      as (self' & -> & ? & ? & ?); [simpl; lia|].
    exists self'. record_solve.
Qed.


Lemma drop_nil_length {A} (k : nat) (l : list A) :
  drop k l = [] ↔ (List.length l ≤ k)%nat.
Proof.
  split; intros H.
  - apply (f_equal List.length) in H. rewrite length_drop in H. simpl in H. lia.
  - by apply drop_ge.
Qed.

Lemma lookup_drop_head {A} (i : nat) (l r : list A) x rest :
  (i < List.length l)%nat → drop i l ++ r = x :: rest → l !! i = Some x.
Proof.
  intros Hi Hd. destruct (drop i l) as [|y t] eqn:E.
  - apply drop_nil_length in E. lia.
  - simplify_eq/=. rewrite <- (Nat.add_0_r i), <- lookup_drop, E. done.
Qed.

Lemma _lines_while_spec self x rest :
  (index self < N self)%nat → N self = List.length (lines self) →
  drop (index self) (lines self) ++ List.concat (source self) = x :: rest →
  delivers self x rest (_lines_while self).
Proof.
  intros Hi HN Hd. unfold _lines_while, _lines_body, delivers.
  apply Nat.ltb_lt in Hi as Hi'. rewrite Hi'.
  assert (index self < List.length (lines self))%nat as Hlen by lia.
  rewrite (lookup_drop_head _ _ _ _ _ Hlen Hd).
  unfold _check. destruct (conditions self) as [|c cs] eqn:Hc.
  - eexists. split; [done|]. unfold upcoming, wf. simpl. rewrite Hc. record_solve.
  - destruct (c x).
    + eexists. split; [done|]. unfold upcoming, wf. simpl. rewrite Hc. record_solve.
    + eexists. split; [done|]. unfold upcoming, wf. simpl. record_solve.
Qed.

Lemma delivers_proper self0 self x rest r :
  conditions self0 = conditions self → same_record self self0 →
  delivers self0 x rest r → delivers self x rest r.
Proof.
  unfold delivers, _check. intros -> Hrec.
  destruct (match conditions self with [] => true | c :: _ => c x end);
    intros (self' & ? & ? & ? & ? & ? & ?); exists self';
    (repeat (split; [done|])); by eapply same_record_trans.
Qed.

(** The generator, seen from outside: it moves on [shift] lines in
    [upcoming], stops when nothing is left there, and otherwise yields the
    line it finds, or [None] with the top condition dropped when the line
    fails that condition. *)
Lemma send_spec v self :
  wf self → (get_lines self = Created → v = None) →
  match drop (shift v self) (upcoming self) with
  | [] => ∃ self', send v self = (Stop, self') ∧ get_lines self' = Finished
            ∧ conditions self' = conditions self ∧ same_record self self'
  | x :: rest => delivers self x rest (send v self)
  end.
Proof.
  unfold wf, shift, upcoming, send. intros Hwf Hv.
  destruct (get_lines self) eqn:Hg.
  - (* Created *)
    rewrite Hv by done. simpl. unfold _get_lines.
    destruct (List.concat (source self)) as [|x rest] eqn:Hsrc.
    + destruct (_get_lines_for_false (source self) self) as (self' & -> & ? & ? & ?).
      { rewrite Hsrc. simpl. lia. }
      eexists. split; [done|]. record_solve.
    + destruct (_get_lines_for_true (source self) self) as (self' & -> & ? & ? & Hd & ? & ? & ?).
      { rewrite Hsrc, Hwf. simpl. lia. }
      rewrite Hsrc, Hwf in Hd. simpl in Hd.
      eapply delivers_proper; [| |by apply _lines_while_spec]; done.
  - (* AtLine *)
    destruct Hwf as [Hi HN]. set (n := default 1%nat v).
    destruct (N self <=? index self + n)%nat eqn:Hle.
    + apply Nat.leb_le in Hle.
      assert (drop n (drop (index self) (lines self) ++ List.concat (source self))
              = drop (index self + n - N self) (List.concat (source self))) as ->.
      { rewrite drop_app_ge by (rewrite length_drop; lia).
        rewrite length_drop. f_equal. lia. }
      unfold _get_lines.
      change (source (set_index (index self + n - N self) self)) with (source self).
      destruct (drop _ (List.concat (source self))) as [|x rest] eqn:Hsrc.
      * apply drop_nil_length in Hsrc.
        destruct (_get_lines_for_false (source self)
                    (set_index (index self + n - N self) self)) as (self' & -> & ? & ? & ?);
          [done|].
        eexists. split; [done|]. record_solve.
      * destruct (_get_lines_for_true (source self)
                    (set_index (index self + n - N self) self))
          as (self' & -> & ? & ? & Hd & ? & ? & ?).
        { simpl. destruct (decide (index self + n - N self
                                   < List.length (List.concat (source self)))%nat); [done|].
          rewrite drop_ge in Hsrc by lia. done. }
        simpl in Hd. rewrite Hsrc in Hd.
        eapply delivers_proper; [| |by apply _lines_while_spec]; [done|record_solve].
    + apply Nat.leb_gt in Hle.
      assert (drop n (drop (index self) (lines self) ++ List.concat (source self))
              = drop (index self + n) (lines self) ++ List.concat (source self)) as ->.
      { rewrite drop_app_le by (rewrite length_drop; lia). by rewrite drop_drop. }
      destruct (drop (index self + n) (lines self) ++ List.concat (source self))
        as [|x rest] eqn:Hsrc.
      { apply app_eq_nil in Hsrc as [Hsrc _]. apply drop_nil_length in Hsrc. lia. }
      eapply (delivers_proper (set_index (index self + n) self));
        [| |by apply _lines_while_spec]; [done|record_solve].
  - (* AtNone *)
    destruct Hwf as [Hi HN]. simpl.
    destruct (drop (index self) (lines self) ++ List.concat (source self))
      as [|x rest] eqn:Hsrc.
    { apply app_eq_nil in Hsrc as [Hsrc _]. apply drop_nil_length in Hsrc. lia. }
    by apply _lines_while_spec.
  - (* Finished *)
    simpl. eexists. split; [done|]. record_solve.
Qed.


Lemma check_false_conditions self x :
  _check self x = false → conditions self ≠ [].
Proof. unfold _check. by destruct (conditions self). Qed.

(** No resumption adds to [weight]; one that yields takes from it, unless
    it was asked to stay on the line it had yielded. *)
Lemma send_weight v self :
  wf self → (get_lines self = Created → v = None) →
  ∃ y self', send v self = (y, self') ∧ wf self' ∧ same_record self self'
    ∧ (weight self' ≤ weight self)%nat
    ∧ match y with
      | Yield _ => v ≠ Some 0%nat → (weight self' < weight self)%nat
      | Stop => get_lines self' = Finished
      | Throw _ => False
      end.
Proof.
  intros Hwf Hv. pose proof (send_spec v self Hwf Hv) as Hs.
  destruct (drop (shift v self) (upcoming self)) as [|x rest] eqn:Hd.
  - destruct Hs as (self' & -> & Hf & ? & ?). exists Stop, self'.
    unfold wf, weight. rewrite Hf. split_and!; try done. lia.
  - assert (List.length (upcoming self)
            = shift v self + S (List.length rest))%nat as Hlen.
    { apply (f_equal List.length) in Hd. rewrite length_drop in Hd. simpl in Hd. lia. }
    assert (get_lines self ≠ Finished) as Hnf.
    { intros Hfin. unfold upcoming in Hlen. rewrite Hfin in Hlen. simpl in Hlen. lia. }
    unfold delivers in Hs. destruct (_check self x) eqn:Hc.
    + destruct Hs as (self' & -> & Hg & Hu & Hcs & ? & ?).
      exists (Yield (Some x)), self'.
      unfold weight, shift in *. rewrite Hg, Hu, Hcs. simpl.
      destruct (get_lines self), v as [[|n]|]; simpl in *; split_and!; try done; lia.
    + destruct Hs as (self' & -> & Hg & Hu & Hcs & ? & ?).
      apply check_false_conditions in Hc.
      exists (Yield None), self'.
      unfold weight, shift in *. rewrite Hg, Hu, Hcs. simpl.
      destruct (conditions self) as [|c cs]; [done|]. simpl.
      destruct (get_lines self), v as [[|n]|]; simpl in *; split_and!; try done; lia.
Qed.

End Generators.

(** ** Laws of methods *)

Section Laws.

Context {I : Patch → Prop} {R : Patch → Patch → Prop} {E : kind → Prop}.
Context `{!Reflexive R} `{!Transitive R}.

Lemma law_ret {A} (a : A) : E KOk → law I R E (ret a).
Proof. intros HE self HI. by repeat split. Qed.

Lemma law_raise {A} e : E (KRaise e) → law I R E (raise (A:=A) e).
Proof. intros HE self HI. by repeat split. Qed.

Lemma law_bind {A B} (m : M A) (k : A → M B) :
  law I R E m → (∀ a, law I R E (k a)) → law I R E (bind m k).
Proof.
  intros Hm Hk self HI. unfold bind.
  destruct (Hm self HI) as (He & Hr & Hi).
  destruct (m self) as [[a|e|] self1]; simpl in *.
  - destruct (Hk a self1 Hi) as (? & ? & ?). repeat split; try done.
    by etrans.
  - done.
  - done.
Qed.

Lemma law_weaken {A} (R' : Patch → Patch → Prop) (E' : kind → Prop) (m : M A) :
  law I R' E' m → (∀ s s', R' s s' → R s s') → (∀ x, E' x → E x) → law I R E m.
Proof. intros Hm HR HE self HI. destruct (Hm self HI) as (? & ? & ?). auto. Qed.

Lemma law_if {A} (b : bool) (m1 m2 : M A) :
  law I R E m1 → law I R E m2 → law I R E (if b then m1 else m2).
Proof. by destruct b. Qed.

End Laws.

Global Instance lighter_refl : Reflexive lighter.
Proof. intros self. unfold lighter. lia. Qed.
Global Instance lighter_trans : Transitive lighter.
Proof. intros s1 s2 s3. unfold lighter. lia. Qed.
Global Instance lighter_same_refl : Reflexive lighter_same.
Proof. intros self. split; [lia | apply same_record_refl]. Qed.
Global Instance lighter_same_trans : Transitive lighter_same.
Proof.
  intros s1 s2 s3 [? ?] [? ?]. split; [lia | by eapply same_record_trans].
Qed.

Lemma lighter_same_lighter s s' : lighter_same s s' → lighter s s'.
Proof. by intros [? _]. Qed.

(** ** The scanner: every method ends, in a state that is well formed *)

Section Termination.

Implicit Types (self : Patch) (n : nat).

Lemma length_upcoming_pending self :
  wf self → (List.length (upcoming self) <= pending self)%nat.
Proof.
  unfold wf, upcoming, pending. intros Hwf.
  assert (List.length (List.concat (source self))
          = sum_list (List.length <$> source self)) as Hsum.
  { induction (source self) as [|l ls IH]; csimpl; [done|].
    rewrite length_app. lia. }
  destruct (get_lines self); simpl;
    rewrite ?length_app, ?length_drop; lia.
Qed.

Lemma weight_fuel self : wf self → (weight self < fuel self)%nat.
Proof.
  intros Hwf. pose proof (length_upcoming_pending self Hwf).
  unfold weight, fuel. destruct (get_lines self); lia.
Qed.

(** A turn of a [for] loop over the generator. *)
Lemma next_line_law self :
  wf self →
  ∃ x self', next_line self = (Ok x, self') ∧ wf self' ∧ same_record self self'
    ∧ (weight self' <= pred (weight self))%nat
    ∧ (is_Some x → weight self' < weight self)%nat.
Proof.
  intros Hwf. unfold next_line.
  destruct (send_weight None self Hwf (λ _, eq_refl))
    as (y & self' & -> & Hwf' & Hrec & Hle & Hy).
  destruct y as [x| |e]; [| |done].
  - exists (Some x), self'. specialize (Hy ltac:(done)).
    split_and!; try done; lia.
  - exists None, self'. split_and!; try done.
    unfold weight. rewrite Hy. lia.
Qed.

Lemma push_wf c self : wf self → wf (set_conditions (c :: conditions self) self).
Proof. done. Qed.

Lemma push_weight c self :
  (weight (set_conditions (c :: conditions self) self) <= S (weight self))%nat.
Proof. unfold weight, upcoming. simpl. destruct (get_lines self); lia. Qed.

Lemma skip_lines_law n self :
  wf self → (weight self < n)%nat →
  ∃ self', skip_lines n self = (Ok (), self') ∧ wf self' ∧ same_record self self'
    ∧ (weight self' <= pred (weight self))%nat.
Proof.
  revert self. induction n as [|n IH]; intros self Hwf Hn; [lia|].
  simpl. unfold bind.
  destruct (next_line_law self Hwf) as (x & s1 & -> & Hwf1 & Hrec1 & Hle1 & Hlt1).
  destruct x as [[ln|]|]; [|by exists s1..].
  specialize (Hlt1 ltac:(done)).
  destruct (IH s1 Hwf1 ltac:(lia)) as (s2 & -> & ? & ? & ?).
  exists s2. split_and!; try done; [by eapply same_record_trans | lia].
Qed.

Lemma next_diff_for_law n self :
  wf self → (weight self < n)%nat →
  ∃ b self', next_diff_for n self = (Ok b, self') ∧ wf self'
    ∧ same_record self self' ∧ (weight self' <= pred (weight self))%nat.
Proof.
  revert self. induction n as [|n IH]; intros self Hwf Hn; [lia|].
  simpl. unfold bind.
  destruct (next_line_law self Hwf) as (x & s1 & -> & Hwf1 & Hrec1 & Hle1 & Hlt1).
  destruct x as [[ln|]|]; [|by eexists _, s1..].
  specialize (Hlt1 ltac:(done)).
  destruct (IH s1 Hwf1 ltac:(lia)) as (b & s2 & -> & ? & ? & ?).
  exists b, s2. split_and!; try done; [by eapply same_record_trans | lia].
Qed.

(** A method that pushes a condition and then loops. *)
Lemma law_condition_loop {A} (c : string → bool) (loop : nat → M A) :
  (∀ n self, wf self → (weight self < n)%nat →
     kind_of (loop n self).1 ≠ KOut ∧ wf (loop n self).2
     ∧ (weight (loop n self).2 <= pred (weight self))%nat) →
  law wf lighter ends (_condition c;; λ self, loop (fuel self) self).
Proof.
  intros Hloop self Hwf. unfold bind, _condition.
  set (s1 := set_conditions (c :: conditions self) self).
  pose proof (push_wf c self Hwf) as Hwf1.
  pose proof (push_weight c self) as Hw1.
  destruct (Hloop (fuel s1) s1 Hwf1 (weight_fuel s1 Hwf1)) as (? & ? & ?).
  split_and!; try done. unfold lighter, s1 in *; lia.
Qed.

Lemma law_condition_loop_same {A} (c : string → bool) (loop : nat → M A) :
  (∀ n self, wf self → (weight self < n)%nat →
     kind_of (loop n self).1 ≠ KOut ∧ wf (loop n self).2
     ∧ (weight (loop n self).2 <= pred (weight self))%nat
     ∧ same_record self (loop n self).2) →
  law wf lighter_same ends (_condition c;; λ self, loop (fuel self) self).
Proof.
  intros Hloop self Hwf. unfold bind, _condition.
  set (s1 := set_conditions (c :: conditions self) self).
  pose proof (push_wf c self Hwf) as Hwf1.
  pose proof (push_weight c self) as Hw1.
  destruct (Hloop (fuel s1) s1 Hwf1 (weight_fuel s1 Hwf1)) as (? & ? & ? & ?).
  split_and!; try done. split; [unfold s1 in *; lia|].
  eapply same_record_trans; [|done]. record_solve.
Qed.

Lemma skip_loop_law c :
  law wf lighter_same ends (_condition c;; λ self, skip_lines (fuel self) self).
Proof.
  apply law_condition_loop_same. intros n self Hwf Hn.
  by destruct (skip_lines_law n self Hwf Hn) as (s' & -> & ? & ? & ?).
Qed.

Lemma skip_binary_law : law wf lighter_same ends skip_binary.
Proof. apply skip_loop_law. Qed.

Lemma skip_useless_law : law wf lighter_same ends skip_useless.
Proof. apply skip_loop_law. Qed.

Lemma next_diff_law : law wf lighter_same ends next_diff.
Proof.
  apply law_condition_loop_same. intros n self Hwf Hn.
  by destruct (next_diff_for_law n self Hwf Hn) as (b & s' & -> & ? & ? & ?).
Qed.

Lemma line_law : law wf lighter_same ends line.
Proof.
  intros self Hwf. unfold line.
  destruct (lines self !! index self); by split_and!.
Qed.

Lemma is_binary_law : law wf lighter_same ends is_binary.
Proof.
  apply law_bind; [apply line_law|]. intros x. by apply law_ret.
Qed.

Lemma parse_numbers_law ln : law wf lighter_same ends (parse_numbers ln).
Proof.
  apply law_bind.
  - destruct ln as [[|c s]|]; try apply line_law. by apply law_ret.
  - intros x. destruct (Re.search NUMS_PAT x); [by apply law_ret | by apply law_raise].
Qed.

Lemma move_law k : law wf lighter_same ends (move k).
Proof.
  intros self Hwf. unfold move.
  destruct (get_lines self) eqn:Hg.
  1: { unfold send. rewrite Hg. by split_and!. }
  all: destruct (send_weight (Some k) self Hwf) as (y & s' & -> & ? & ? & ? & Hy);
    [by rewrite Hg|]; by destruct y.
Qed.

Lemma skip_deleted_file_law : law wf lighter_same ends skip_deleted_file.
Proof.
  apply law_bind; [apply skip_useless_law|]. intros _.
  apply law_bind; [apply is_binary_law|]. intros b.
  apply law_if; [apply skip_binary_law|].
  apply law_bind; [apply line_law|]. intros x.
  apply law_if; [|by apply law_ret].
  apply law_bind; [apply parse_numbers_law|]. intros [minus ?].
  apply move_law.
Qed.

(** [get_files] empties the anchor lists, sets [filename], and leaves the
    generator and the results alone. *)
Lemma get_files_spec (interesting : string → bool) self b self' :
  get_files interesting self = (Ok b, self') →
  added self' = Some [] ∧ deleted self' = Some [] ∧ results self' = results self
  ∧ (b = true → interesting (filename self') = true)
  ∧ (wf self → wf self') ∧ weight self' = weight self.
Proof.
  unfold get_files, bind, line.
  destruct (lines self !! index self) as [ln|]; [|done].
  destruct (Py.split " " ln !! 2%nat) as [old_p|]; [|done].
  destruct (Py.split " " ln !! 3%nat) as [new_p|]; [|done].
  destruct (interesting _) eqn:Hint; intros [= <- <-]; by split_and!.
Qed.

(** The part of [skip_new_file] that comes before it records the file. *)
Lemma skip_new_file_law : law wf lighter ends skip_new_file.
Proof.
  unfold skip_new_file.
  apply law_bind;
    [apply (law_weaken lighter_same ends);
       [apply skip_useless_law|apply lighter_same_lighter|done]|].
  intros _. apply law_bind.
  - apply (law_weaken lighter_same ends); [|apply lighter_same_lighter|done].
    apply law_bind; [apply is_binary_law|]. intros b.
    apply law_if; [apply skip_binary_law|].
    apply law_bind; [apply line_law|]. intros x.
    apply law_if; [|by apply law_ret].
    apply law_bind; [apply parse_numbers_law|]. intros [? plus].
    apply move_law.
  - intros _ self Hwf.
    destruct (String.eqb (filename self) ""); simpl; split_and!; try done;
      unfold lighter, weight, upcoming; simpl; lia.
Qed.

Lemma skip_new_file_records self self' :
  wf self → skip_new_file self = (Ok (), self') →
  added self' = added self ∧ deleted self' = deleted self
  ∧ filename self' = filename self
  ∧ results self' = if String.eqb (filename self) "" then results self
                    else <[filename self := New]> (results self).
Proof.
  intros Hwf. unfold skip_new_file.
  set (inner := (let* b := is_binary in _)).
  assert (law wf lighter_same ends (skip_useless;; inner)) as Hlaw.
  { apply law_bind; [apply skip_useless_law|]. intros _. subst inner.
    apply law_bind; [apply is_binary_law|]. intros b.
    apply law_if; [apply skip_binary_law|].
    apply law_bind; [apply line_law|]. intros x.
    apply law_if; [|by apply law_ret].
    apply law_bind; [apply parse_numbers_law|]. intros [? plus].
    apply move_law. }
  destruct (Hlaw self Hwf) as (_ & [_ Hrec] & _). revert Hrec.
  unfold bind. destruct (skip_useless self) as [[[]|e|] s1]; [|done..].
  destruct (inner s1) as [[[]|e|] s2]; [|done..]. simpl.
  intros (Ha & Hd & Hr & Hf & _). rewrite <- Hf.
  destruct (String.eqb (filename s2) ""); intros [= <-]; simpl; by rewrite ?Ha, ?Hd, ?Hr.
Qed.

Lemma startswith_deleted_not_new ln :
  Py.startswith ln "deleted file" = true → Py.startswith ln "new file" = false.
Proof.
  destruct ln as [|c ln]; [done|]. cbn [Py.startswith].
  destruct (Ascii.eqb_spec "d" c) as [<-|]; [|done]. intros _. reflexivity.
Qed.

End Termination.

(** ** Deleted files and new files *)

Section FileSections.

Variable interesting : string → bool.

(** C7: in the section of a deleted file whose path is interesting
    ([get_files] returned [True], the line after the header begins with
    "deleted file"), [get_changes] leaves the result map as it was,
    whatever the section holds and however the call ends; in the section
    of a new file, a call that returns has recorded the path as new. *)
Theorem deleted_file_records_nothing self s1 s2 ln s3 :
  wf self →
  get_files interesting self = (Ok true, s1) →
  move 1 s1 = (Ok (), s2) →
  next_line s2 = (Ok (Some (Some ln)), s3) →
  (Py.startswith ln "deleted file" = true →
     results (get_changes s2).2 = results self)
  ∧ (Py.startswith ln "new file" = true →
     ∀ s4, get_changes s2 = (Ok (), s4) →
           interesting (filename s1) = true
           ∧ results s4 = if String.eqb (filename s1) "" then results self
                          else <[filename s1 := New]> (results self)).
Proof.
  intros Hwf Hfiles Hmove Hnext.
  destruct (get_files_spec _ _ _ _ Hfiles) as (Ha1 & Hd1 & Hr1 & Hint & Hwf1 & _).
  destruct (move_law 1 s1 (Hwf1 Hwf)) as (_ & [_ Hrec2] & Hwf2).
  rewrite Hmove in Hrec2, Hwf2. simpl in *.
  destruct Hrec2 as (Ha2 & Hd2 & Hr2 & Hf2 & _).
  destruct (next_line_law s2 Hwf2) as (x & s3' & Hn & Hwf3 & Hrec3 & _).
  rewrite Hnext in Hn. injection Hn as <- <-.
  destruct Hrec3 as (Ha3 & Hd3 & Hr3 & Hf3 & _).
  unfold get_changes, get_changes_for, bind. rewrite Hnext. split.
  - intros Hdel. rewrite (startswith_deleted_not_new _ Hdel), Hdel.
    destruct (skip_deleted_file_law s3 Hwf3) as (_ & [_ Hrec4] & _).
    destruct (skip_deleted_file s3) as [r s4]. simpl in Hrec4.
    destruct Hrec4 as (Ha4 & Hd4 & Hr4 & _).
    assert (results s4 = results self) as Hres by congruence.
    destruct r as [[]|e|]; simpl; try done.
    unfold record_changes. rewrite Ha4, Ha3, Ha2, Ha1, Hd4, Hd3, Hd2, Hd1. done.
  - intros Hnew. rewrite Hnew. intros s4.
    destruct (skip_new_file s3) as [[[]|e|] s4'] eqn:Hskip; [|done..].
    destruct (skip_new_file_records _ _ Hwf3 Hskip) as (Ha4 & Hd4 & Hf4 & Hr4).
    unfold record_changes. rewrite Ha4, Ha3, Ha2, Ha1, Hd4, Hd3, Hd2, Hd1. simpl.
    intros [= <-]. split; [by apply Hint|].
    rewrite Hr4, Hf3, Hf2, Hr3, Hr2, Hr1. done.
Qed.

End FileSections.

Lemma deleted_file_records_nothing_witness :
  let s1 := (get_files every_file at_deleted_header).2 in
  let s2 := (move 1 s1).2 in
  results (get_changes s2).2 = results at_deleted_header.
Proof.
  intros s1 s2.
  refine (proj1 (deleted_file_records_nothing every_file at_deleted_header s1 s2
                   "deleted file mode 100644" (next_line s2).2 _ _ _ _) _).
  - vm_compute. split; [lia | reflexivity].
  - vm_compute. reflexivity.
  - vm_compute. reflexivity.
  - vm_compute. reflexivity.
  - vm_compute. reflexivity.
Defined.



(** The two kinds of section, parsed: nothing for the deleted file, an entry
    for the new one. *)
Example deleted_and_new_sections :
  parse every_file (Patch_init [deleted_section]) = (Returns ∅, [])
  ∧ parse every_file (Patch_init [new_section]) = (Returns {["n.cpp" := New]}, []).
Proof. by vm_compute. Qed.

(** ** What [get_changes] records *)

Section Changes.

(** C6, as the code has it: when the loop of [get_changes] has returned
    with anchors that are all negative, and there is at least one, the
    call records the file all the same, with three empty lists. *)
Theorem negative_anchors_recorded_empty self s1 a d :
  get_changes_for self = (Ok (), s1) →
  added s1 = Some a → deleted s1 = Some d →
  a ≠ [] ∨ d ≠ [] →
  Forall (λ x, x < 0) a → Forall (λ x, x < 0) d →
  get_changes self
  = (Ok (), set_results (<[filename s1 := Modified [] [] []]> (results s1)) s1).
Proof.
  intros Hfor Ha Hd Hne Hna Hnd.
  unfold get_changes, bind. rewrite Hfor.
  unfold record_changes. rewrite Ha, Hd, (get_touched_negative a d Hna Hnd).
  destruct Hne; [destruct a | destruct d]; try done.
  simpl. by rewrite orb_true_r.
Qed.

(** The state in which [get_changes] is called on [comment_only_section]. *)
Lemma negative_anchors_recorded_empty_witness :
  let self := (move 1 (get_files every_file
                 (next_diff (Patch_init [comment_only_section])).2).2).2 in
  let s1 := (get_changes_for self).2 in
  get_changes self
  = (Ok (), set_results (<[filename s1 := Modified [] [] []]> (results s1)) s1).
Proof.
  intros self s1.
  apply (negative_anchors_recorded_empty self s1 [-2] []).
  - vm_compute. reflexivity.
  - vm_compute. reflexivity.
  - vm_compute. reflexivity.
  - left. discriminate.
  - repeat constructor.
  - constructor.
Defined.

(** C6 fails as stated: the one change of [comment_only_section] is a
    comment line, its only anchor is negative, and the file is in the
    result map. *)
Lemma comment_only_file_is_recorded :
  let p := Patch_init [comment_only_section] in
  added (parse_while every_file (fuel p) p).2 = Some [-2]
  ∧ deleted (parse_while every_file (fuel p) p).2 = Some []
  ∧ ∃ m, parse every_file p = (Returns m, [])
         ∧ m !! "e.cpp" = Some (Modified [] [] []).
Proof.
  split; [by vm_compute|]. split; [by vm_compute|].
  eexists. split; [by vm_compute|]. by vm_compute.
Qed.

End Changes.

(** ** The entry point [parse_patch] *)

(** C8: [parse_patch] never reaches the parser.  Whatever [six.strings]
    evaluates to, the type test has the patch in the place of the class, and
    the call raises for a patch that is a string (and for a list of lines as
    well). *)
Theorem parse_patch_raises (interesting : string → bool)
    (six_strings : exn + pyval) (patch : string + list string) :
  ∃ e, parse_patch interesting six_strings patch = (Raises e, []).
Proof.
  unfold parse_patch. destruct six_strings as [e|strings]; [by exists e|].
  exists TypeError. by destruct patch.
Qed.

(** ** The emptiness rule *)

(** C5: a block comment that holds a star is opened and closed on its line,
    and yet [EMPTY_PAT] does not match it: the anchor stays positive.  A
    block comment without an inner star gives a negative anchor. *)
Theorem block_comment_with_star_is_positive :
  get_signed_count "+/* a * b */" 5 = 5
  ∧ get_signed_count "-  /** doc */" 5 = 5
  ∧ get_signed_count "+/* a b */" 5 = -5.
Proof. by vm_compute. Qed.

(** ** Runs of deleted lines *)

Section Runs.

Implicit Types (self : Patch) (ms rest : list string) (c : Z).

Lemma next_line_spec self x rest :
  wf self → next_from self = x :: rest →
  if _check self x
  then ∃ self', next_line self = (Ok (Some (Some x)), self')
         ∧ get_lines self' = AtLine ∧ upcoming self' = x :: rest
         ∧ conditions self' = conditions self ∧ wf self' ∧ same_record self self'
  else ∃ self', next_line self = (Ok (Some None), self')
         ∧ get_lines self' = AtNone ∧ upcoming self' = x :: rest
         ∧ conditions self' = tail (conditions self) ∧ wf self'
         ∧ same_record self self'.
Proof.
  intros Hwf Hnext. pose proof (send_spec None self Hwf (λ _, eq_refl)) as Hs.
  unfold next_from in Hnext. rewrite Hnext in Hs. unfold delivers, next_line in *.
  destruct (_check self x).
  - destruct Hs as (s' & -> & ?). by exists s'.
  - destruct Hs as (s' & -> & ?). by exists s'.
Qed.

Lemma next_from_AtLine self x rest :
  get_lines self = AtLine → upcoming self = x :: rest → next_from self = rest.
Proof. unfold next_from, shift. by intros -> ->. Qed.

Lemma next_from_AtNone self :
  get_lines self = AtNone → next_from self = upcoming self.
Proof. unfold next_from, shift. by intros ->. Qed.

(** The loop of [count_minus] on a run [ms] that the line [p] ends. *)
Lemma count_minus_for_run ms : ∀ n c self p rest cs d,
  wf self → next_from self = ms ++ p :: rest →
  conditions self = is_minus :: cs →
  Forall (λ x, is_minus x = true) ms → is_minus p = false →
  deleted self = Some d → (List.length ms < n)%nat →
  ∃ self', count_minus_for n c self = (Ok (), self')
    ∧ get_lines self' = AtNone ∧ upcoming self' = p :: rest
    ∧ conditions self' = cs ∧ wf self'
    ∧ deleted self' = Some (d ++ run_anchors c ms)
    ∧ added self' = added self.
Proof.
  induction ms as [|m ms IH]; intros n c self p rest cs d Hwf Hnext Hcs Hms Hp Hd Hn;
    (destruct n as [|n]; [simpl in Hn; lia|]); simpl in *; unfold bind.
  - pose proof (next_line_spec self p rest Hwf Hnext) as Hs.
    unfold _check in Hs. rewrite Hcs, Hp in Hs.
    destruct Hs as (s' & -> & ? & ? & Hcs' & ? & (? & ? & _)).
    exists s'. unfold run_anchors. simpl.
    rewrite app_nil_r. split_and!; try done; congruence.
  - apply Forall_cons in Hms as [Hm Hms].
    pose proof (next_line_spec self m _ Hwf Hnext) as Hs.
    unfold _check in Hs. rewrite Hcs, Hm in Hs.
    destruct Hs as (s1 & -> & Hg1 & Hu1 & Hcs1 & Hwf1 & (Ha1 & Hd1 & _)).
    unfold deleted_append. rewrite Hd1, Hd.
    set (s2 := set_deleted _ s1).
    destruct (IH n (c + 1) s2 p rest cs (d ++ [get_signed_count m c]))
      as (s' & -> & ? & ? & ? & ? & Hd' & Ha'); try done.
    { by apply (next_from_AtLine s2 m). }
    { lia. }
    exists s'. split_and!; try done; [|by rewrite Ha'].
    rewrite Hd', <- app_assoc. unfold run_anchors. simpl.
    rewrite Z.add_0_r. do 3 f_equal. apply imap_ext. intros i x _. simpl.
    f_equal. lia.
Qed.

Lemma startswith_char (x : string) (ch : ascii) :
  Py.startswith x (String ch "") = true → ∃ t, x = String ch t.
Proof.
  destruct x as [|d t]; [done|]. cbn [Py.startswith].
  destruct (Ascii.eqb_spec ch d) as [<-|]; [by exists t | done].
Qed.

Lemma count_minus_run c self m ms p rest cs d :
  wf self → get_lines self = AtLine → upcoming self = m :: ms ++ p :: rest →
  Forall (λ x, is_minus x = true) ms → is_minus p = false →
  conditions self = cs → deleted self = Some d →
  ∃ self', count_minus c self = (Ok (), self')
    ∧ get_lines self' = AtNone ∧ upcoming self' = p :: rest
    ∧ conditions self' = cs ∧ wf self'
    ∧ deleted self' = Some (d ++ run_anchors c ms)
    ∧ added self' = added self.
Proof.
  intros Hwf Hg Hu Hms Hp Hcs Hd. unfold count_minus, bind, _condition.
  set (s1 := set_conditions _ self).
  assert (wf s1) as Hwf1 by done.
  apply (count_minus_for_run ms (fuel s1) c s1 p rest cs d); try done.
  - by apply (next_from_AtLine s1 m).
  - unfold s1. simpl. by rewrite Hcs.
  - pose proof (length_upcoming_pending s1 Hwf1) as Hlen.
    assert (upcoming s1 = m :: ms ++ p :: rest) as Hu1 by done.
    rewrite Hu1 in Hlen. simpl in Hlen. rewrite length_app in Hlen.
    unfold fuel. lia.
Qed.

Example run_hunk_anchors :
  run_anchors 10 ["-old1"; "-"; "-old3"] = [10; -11; 12]
  ∧ deleted (parse_hunk_for 7 10 at_run_hunk).2 = Some [10; -11; 12]
  ∧ added (parse_hunk_for 7 10 at_run_hunk).2 = Some [10].
Proof. by vm_compute. Qed.

End Runs.

(** ** Every loop of the scanner ends *)

Ltac lighter_solve :=
  simpl; split_and!; try done; try (unfold lighter, weight, upcoming; simpl; lia).

Section Loops.

Implicit Types (self : Patch) (n : nat).

Lemma law_within {A} n E (m : M A) :
  law wf lighter E m → law (within n) lighter E m.
Proof.
  intros Hm self [Hwf Hn]. destruct (Hm self Hwf) as (? & Hr & ?).
  split_and!; try done. split; [done|]. unfold lighter in Hr. lia.
Qed.

(** A loop that is known to end within [n] turns, as a law. *)
Lemma law_loop {A} n (m : M A) :
  (∀ self, within n self →
     kind_of (m self).1 ≠ KOut ∧ wf (m self).2
     ∧ (weight (m self).2 <= pred (weight self))%nat) →
  law (within n) lighter ends m.
Proof.
  intros Hm self [Hwf Hn]. destruct (Hm self (conj Hwf Hn)) as (? & ? & ?).
  split_and!; try done; [unfold lighter; lia|]. split; [done|lia].
Qed.

(** One turn of a [for] loop over the generator, when its body keeps within
    the turns that are left. *)
Lemma for_turn {A} (body : string → M A) (dflt : A) n self :
  within (S n) self →
  (∀ ln, law (within n) lighter ends (body ln)) →
  let m := (let* x := next_line in
            match x with
            | Some (Some ln) => body ln
            | Some None => ret dflt
            | None => ret dflt
            end) in
  kind_of (m self).1 ≠ KOut ∧ wf (m self).2
  ∧ (weight (m self).2 <= pred (weight self))%nat.
Proof.
  intros [Hwf Hn] Hbody m. unfold m, bind.
  destruct (next_line_law self Hwf) as (x & s1 & -> & Hwf1 & _ & Hle1 & Hlt1).
  destruct x as [[ln|]|]; [|done..].
  specialize (Hlt1 ltac:(done)).
  destruct (Hbody ln s1) as (? & Hl & [? ?]); [split; [done|lia]|].
  split_and!; try done. unfold lighter in Hl. lia.
Qed.

Lemma added_append_law x : law wf lighter ends (added_append x).
Proof.
  intros self Hwf. unfold added_append.
  destruct (added self); lighter_solve.
Qed.

Lemma deleted_append_law x : law wf lighter ends (deleted_append x).
Proof.
  intros self Hwf. unfold deleted_append.
  destruct (deleted self); lighter_solve.
Qed.

Lemma count_minus_for_ends n : ∀ c self,
  within n self →
  kind_of (count_minus_for n c self).1 ≠ KOut ∧ wf (count_minus_for n c self).2
  ∧ (weight (count_minus_for n c self).2 <= pred (weight self))%nat.
Proof.
  induction n as [|n IH]; intros c self Hin; [destruct Hin; lia|].
  refine (for_turn (λ ln, deleted_append (get_signed_count ln c);;
                          count_minus_for n (c + 1)) () n self Hin _).
  intros ln. apply law_bind.
  - apply law_within, deleted_append_law.
  - intros _. apply law_loop, IH.
Qed.

Lemma count_minus_law c : law wf lighter ends (count_minus c).
Proof.
  apply (law_condition_loop _ (λ n, count_minus_for n c)).
  intros n self Hwf Hn. by apply count_minus_for_ends.
Qed.

Lemma parse_hunk_for_ends n : ∀ c self,
  within n self →
  kind_of (parse_hunk_for n c self).1 ≠ KOut ∧ wf (parse_hunk_for n c self).2
  ∧ (weight (parse_hunk_for n c self).2 <= pred (weight self))%nat.
Proof.
  induction n as [|n IH]; intros c self Hin; [destruct Hin; lia|].
  refine (for_turn (λ ln,
           match ln with
           | EmptyString => raise IndexError
           | String first _ =>
               if Ascii.eqb first " " then parse_hunk_for n (c + 1)
               else if Ascii.eqb first "+" then
                 added_append (get_signed_count ln c);;
                 parse_hunk_for n (c + 1)
               else if Ascii.eqb first "-" then
                 deleted_append (get_signed_count ln c);;
                 count_minus (c + 1);;
                 parse_hunk_for n c
               else parse_hunk_for n c
           end) () n self Hin _).
  intros [|first t]; [by apply law_raise|].
  repeat apply law_if; try (apply law_loop, IH).
  - apply law_bind; [|intros _; apply law_loop, IH].
    apply law_within, added_append_law.
  - apply law_bind; [apply law_within, deleted_append_law|].
    intros _. apply law_bind; [|intros _; apply law_loop, IH].
    apply law_within, count_minus_law.
Qed.

Lemma parse_hunk_law ln : law wf lighter ends (parse_hunk ln).
Proof.
  apply law_bind.
  - apply (law_weaken lighter_same ends);
      [apply parse_numbers_law | apply lighter_same_lighter | done].
  - intros [? plus].
    apply (law_condition_loop _ (λ n, parse_hunk_for n (fst plus))).
    intros n self Hwf Hn. by apply parse_hunk_for_ends.
Qed.

Lemma parse_hunks_for_ends n : ∀ self,
  within n self →
  kind_of (parse_hunks_for n self).1 ≠ KOut ∧ wf (parse_hunks_for n self).2
  ∧ (weight (parse_hunks_for n self).2 <= pred (weight self))%nat.
Proof.
  induction n as [|n IH]; intros self Hin; [destruct Hin; lia|].
  refine (for_turn (λ ln, parse_hunk ln;; parse_hunks_for n) () n self Hin _).
  intros ln. apply law_bind; [|intros _; apply law_loop, IH].
  apply law_within, parse_hunk_law.
Qed.

Lemma parse_hunks_law ln : law wf lighter ends (parse_hunks ln).
Proof.
  apply (law_condition_loop _ (λ n, parse_hunks_for n)).
  intros n self Hwf Hn. by apply parse_hunks_for_ends.
Qed.

Lemma record_changes_law : law wf lighter ends record_changes.
Proof.
  intros self Hwf. unfold record_changes.
  destruct (truthy (added self) || truthy (deleted self)); [|by split_and!].
  destruct (added self) as [a|], (deleted self) as [d|]; try by split_and!.
  destruct (get_touched a d) as [[a' d'] t]. lighter_solve.
Qed.

Lemma get_changes_law : law wf lighter ends get_changes.
Proof.
  apply law_bind; [|intros _; apply record_changes_law].
  apply law_bind.
  { intros self Hwf.
    destruct (next_line_law self Hwf) as (x & s1 & -> & ? & ? & ? & ?).
    split_and!; try done. unfold lighter. simpl. lia. }
  intros [[ln|]|]; [|by apply law_raise|by apply law_ret].
  apply law_if; [apply skip_new_file_law|].
  apply law_if.
  { apply (law_weaken lighter_same ends);
      [apply skip_deleted_file_law | apply lighter_same_lighter | done]. }
  apply law_bind.
  { apply (law_weaken lighter_same ends);
      [apply skip_useless_law | apply lighter_same_lighter | done]. }
  intros _. apply law_bind.
  { apply (law_weaken lighter_same ends);
      [apply line_law | apply lighter_same_lighter | done]. }
  intros x. apply law_if; [apply parse_hunks_law | by apply law_ret].
Qed.

(** A [move] that returns has taken from [weight]. *)
Lemma move_1_lighter self self' :
  wf self → move 1 self = (Ok (), self') →
  wf self' ∧ (weight self' < weight self)%nat.
Proof.
  intros Hwf. unfold move. destruct (get_lines self) eqn:Hg.
  1: { unfold send. by rewrite Hg. }
  all: destruct (send_weight (Some 1%nat) self Hwf) as (y & s' & -> & ? & ? & ? & Hy);
    [by rewrite Hg|]; destruct y; try done; intros [= <-]; split; [done|];
    by apply Hy.
Qed.

Lemma get_files_law (interesting : string → bool) :
  law wf lighter ends (get_files interesting).
Proof.
  intros self Hwf. unfold get_files, bind, line.
  destruct (lines self !! index self) as [ln|]; [|lighter_solve].
  destruct (Py.split " " ln !! 2%nat) as [old_p|]; [|lighter_solve].
  destruct (Py.split " " ln !! 3%nat) as [new_p|]; [|lighter_solve].
  destruct (interesting _); lighter_solve.
Qed.

Lemma parse_while_ends (interesting : string → bool) n : ∀ self,
  within n self →
  kind_of (parse_while interesting n self).1 ≠ KOut.
Proof.
  induction n as [|n IH]; intros self [Hwf Hn]; [lia|].
  simpl. unfold bind at 1.
  destruct (next_diff_law self Hwf) as (He1 & [Hw1 _] & Hwf1).
  destruct (next_diff self) as [[more|e|] s1]; simpl in *; [|done..].
  destruct more; [|done]. unfold bind at 1.
  destruct (get_files_law interesting s1 Hwf1) as (He2 & _ & _).
  destruct (get_files interesting s1) as [[b|e|] s2] eqn:Hfiles; [|done..].
  destruct (get_files_spec _ _ _ _ Hfiles) as (_ & _ & _ & _ & Hwf2 & Hw2).
  specialize (Hwf2 Hwf1). unfold bind at 1.
  destruct (move_law 1 s2 Hwf2) as (He3 & _ & _).
  destruct b.
  - unfold bind at 1.
    destruct (move 1 s2) as [[[]|e|] s3] eqn:Hm1; simpl in *; [|done..].
    destruct (move_1_lighter _ _ Hwf2 Hm1) as [Hwf3 Hw3].
    destruct (law_within n ends get_changes get_changes_law s3)
      as (He4 & _ & Hin4); [split; [done|lia]|].
    destruct (get_changes s3) as [[[]|e|] s4]; simpl in *; [|done..].
    by apply IH.
  - destruct (move 1 s2) as [[[]|e|] s3] eqn:Hm1; simpl in *; [|done..].
    destruct (move_1_lighter _ _ Hwf2 Hm1) as [Hwf3 Hw3].
    apply IH. split; [done|lia].
Qed.

End Loops.

(** ** The fault policy of [parse] *)

Section Faults.

Variable interesting : string → bool.

Lemma wf_init lines_gen changeset :
  wf (set_changeset changeset (Patch_init lines_gen)).
Proof. done. Qed.


(** On a hunk header that cannot be parsed the handler of [parse] fails on
    [self.chgset]: the call raises and no message reaches the logger. *)
Example bad_header_patch_raises :
  parse every_file (Patch_init [bad_header_patch]) = (Raises AttributeError, []).
Proof. by vm_compute. Qed.

(** What a turn of a loop finds, and what it does to the conditions. *)
Lemma next_line_cases self :
  wf self →
  ∃ x self', next_line self = (Ok x, self') ∧ wf self' ∧ same_record self self'
    ∧ (is_Some x → weight self' < weight self)%nat
    ∧ match x with
      | Some (Some ln) => _check self ln = true ∧ conditions self' = conditions self
      | Some None => conditions self' = tail (conditions self)
      | None => get_lines self' = Finished
      end.
Proof.
  intros Hwf.
  destruct (next_line_law self Hwf) as (x & s' & Hn & Hwf' & Hrec & _ & Hlt).
  exists x, s'. split_and!; try done.
  pose proof (send_spec None self Hwf (λ _, eq_refl)) as Hs.
  unfold next_line in Hn.
  destruct (drop (shift None self) (upcoming self)) as [|ln rest].
  - destruct Hs as (s1 & Hs & Hf & _). rewrite Hs in Hn. by simplify_eq.
  - unfold delivers in Hs. destruct (_check self ln) eqn:Hc.
    + destruct Hs as (s1 & Hs & _ & _ & Hcs & _). rewrite Hs in Hn. by simplify_eq.
    + destruct Hs as (s1 & Hs & _ & _ & Hcs & _). rewrite Hs in Hn. by simplify_eq.
Qed.

Lemma finished_next_line self :
  get_lines self = Finished → next_line self = (Ok None, self).
Proof. intros Hf. unfold next_line, send. by rewrite Hf. Qed.

(** The loop of [count_minus] does not raise, and leaves the conditions as
    they were before [count_minus] unless the input is exhausted. *)
Lemma count_minus_for_no_fault n : ∀ c self cs,
  within n self → is_Some (deleted self) → is_Some (added self) →
  get_lines self = Finished ∨ conditions self = is_minus :: cs →
  ∃ self', count_minus_for n c self = (Ok (), self') ∧ wf self'
    ∧ (weight self' <= pred (weight self))%nat
    ∧ is_Some (deleted self') ∧ is_Some (added self')
    ∧ (get_lines self' = Finished ∨ conditions self' = cs).
Proof.
  induction n as [|n IH]; intros c self cs [Hwf Hn] Hd Ha Hcs; [lia|].
  simpl. unfold bind at 1.
  destruct Hcs as [Hf|Hcs].
  { rewrite (finished_next_line self Hf). exists self.
    split_and!; try done; [unfold weight; rewrite Hf; lia | by left]. }
  destruct (next_line_cases self Hwf) as (x & s1 & -> & Hwf1 & Hrec & Hlt & Hx).
  destruct Hrec as (Ha1 & Hd1 & _).
  destruct x as [[ln|]|].
  - specialize (Hlt ltac:(done)). destruct Hx as [_ Hcs1].
    unfold bind at 1. unfold deleted_append at 1. rewrite Hd1.
    destruct Hd as [d Hd]. rewrite Hd.
    destruct (IH (c + 1) (set_deleted (Some (d ++ [get_signed_count ln c])) s1) cs)
      as (s' & -> & ? & Hw & ? & ? & ?); try done.
    { split; [done|]. change (weight s1 < n)%nat. lia. }
    { simpl. by rewrite Ha1. }
    { simpl. right. by rewrite Hcs1. }
    exists s'. split_and!; try done.
    change (weight s' <= pred (weight s1))%nat in Hw. lia.
  - exists s1. specialize (Hlt ltac:(done)). split_and!; try done; try lia.
    + by rewrite Hd1.
    + by rewrite Ha1.
    + right. by rewrite Hx, Hcs.
  - exists s1. split_and!; try done; try (by left).
    + unfold weight. rewrite Hx. lia.
    + by rewrite Hd1.
    + by rewrite Ha1.
Qed.

Lemma count_minus_no_fault c self :
  wf self → is_Some (deleted self) → is_Some (added self) →
  ∃ self', count_minus c self = (Ok (), self') ∧ wf self'
    ∧ (weight self' <= weight self)%nat
    ∧ is_Some (deleted self') ∧ is_Some (added self')
    ∧ (get_lines self' = Finished ∨ conditions self' = conditions self).
Proof.
  intros Hwf Hd Ha. unfold count_minus, bind, _condition.
  set (s1 := set_conditions _ self).
  assert (wf s1) as Hwf1 by done.
  destruct (count_minus_for_no_fault (fuel s1) c s1 (conditions self))
    as (s' & -> & ? & Hw & ? & ? & ?); try done.
  { split; [done|]. by apply weight_fuel. }
  { by right. }
  exists s'. split_and!; try done.
  pose proof (push_weight is_minus self) as Hpush.
  change (weight s1 <= S (weight self))%nat in Hpush. lia.
Qed.

(** The loop of [parse_hunk] does not raise, wherever the input ends. *)
Lemma parse_hunk_for_no_fault n : ∀ c self cs,
  within n self → is_Some (deleted self) → is_Some (added self) →
  get_lines self = Finished ∨ conditions self = check :: cs →
  ∃ self', parse_hunk_for n c self = (Ok (), self').
Proof.
  induction n as [|n IH]; intros c self cs [Hwf Hn] Hd Ha Hcs; [lia|].
  simpl. unfold bind at 1.
  destruct Hcs as [Hf|Hcs].
  { rewrite (finished_next_line self Hf). by exists self. }
  destruct (next_line_cases self Hwf) as (x & s1 & -> & Hwf1 & Hrec & Hlt & Hx).
  destruct Hrec as (Ha1 & Hd1 & _).
  destruct x as [[ln|]|]; [|by exists s1..].
  specialize (Hlt ltac:(done)). destruct Hx as [Hck Hcs1].
  unfold _check in Hck. rewrite Hcs in Hck.
  destruct ln as [|first t]; [done|].
  assert (within n s1) as Hin1 by (split; [done|lia]).
  assert (get_lines s1 = Finished ∨ conditions s1 = check :: cs) as Hcs1'
    by (right; congruence).
  destruct (Ascii.eqb first " ").
  { apply (IH _ s1 cs); try done; congruence. }
  destruct (Ascii.eqb first "+").
  { unfold bind at 1. unfold added_append at 1. rewrite Ha1.
    destruct Ha as [a Ha]. rewrite Ha.
    apply (IH _ _ cs); try done. simpl. by rewrite Hd1. }
  destruct (Ascii.eqb first "-").
  { unfold bind at 1. unfold deleted_append at 1. rewrite Hd1.
    destruct Hd as [d Hd]. rewrite Hd. unfold bind at 1.
    set (s2 := set_deleted _ s1).
    destruct (count_minus_no_fault (c + 1) s2) as (s3 & -> & ? & Hw3 & ? & ? & Hcs3);
      try done.
    { unfold s2. simpl. by rewrite Ha1. }
    apply (IH _ s3 cs); try done.
    - split; [done|]. change (weight s3 <= weight s1)%nat in Hw3. lia.
    - destruct Hcs3 as [?|Hcs3]; [by left|right]. rewrite Hcs3. unfold s2. simpl.
      congruence. }
  apply (IH _ s1 cs); try done; congruence.
Qed.

(** A hunk whose header parses never raises: when the input stops before
    the lines that the header announces, [parse_hunk] returns all the same. *)
Lemma parse_hunk_no_fault ln m self :
  wf self → is_Some (deleted self) → is_Some (added self) →
  Re.search NUMS_PAT ln = Some m →
  ∃ self', parse_hunk ln self = (Ok (), self').
Proof.
  intros Hwf Hd Ha Hm. unfold parse_hunk, parse_numbers.
  destruct ln as [|ch t]; [by vm_compute in Hm|].
  unfold bind at 1. unfold bind at 1. unfold ret at 1. rewrite Hm.
  unfold ret at 1. cbv iota beta. unfold bind, _condition.
  set (s1 := set_conditions _ self).
  assert (wf s1) as Hwf1 by done.
  apply (parse_hunk_for_no_fault _ _ s1 (conditions self)); try done.
  - split; [done|]. by apply weight_fuel.
  - by right.
Qed.

Example truncated_hunk_returns :
  ∃ self', parse_hunk "@@ -1,3 +1,4 @@" at_run_hunk = (Ok (), self').
Proof.
  eapply parse_hunk_no_fault.
  - vm_compute. split; [lia | reflexivity].
  - by eexists.
  - by eexists.
  - by vm_compute.
Qed.

End Faults.

(** * Further properties *)

(** ** The reconciler, list by list *)

Section ReconcilerLists.

Implicit Types (a d : list Z) (x : Z).

(** The elements of the three lists, in terms of the raw anchors. *)
Lemma get_touched_elem_of a d x :
  (x ∈ (get_touched a d).1.1 ↔ 0 < x ∧ x ∈ a ∧ (x ∉ d) ∧ (Z.opp x ∉ d))
  ∧ (x ∈ (get_touched a d).1.2 ↔ 0 < x ∧ x ∈ d ∧ (x ∉ a) ∧ (Z.opp x ∉ a))
  ∧ (x ∈ (get_touched a d).2
     ↔ 0 < x ∧ (x ∈ a ∧ (x ∈ d ∨ - x ∈ d) ∨ x ∈ d ∧ (x ∈ a ∨ - x ∈ a))).
Proof.
  unfold get_touched. cbn [fst snd].
  set (A := list_to_set a : gset Z).
  set (D := list_to_set d : gset Z).
  set (T := (_ ∪ _ : gset Z)).
  assert (HA : ∀ y, y ∈ A ↔ y ∈ a) by (intros y; apply elem_of_list_to_set).
  assert (HD : ∀ y, y ∈ D ↔ y ∈ d) by (intros y; apply elem_of_list_to_set).
  assert (Hpair : ∀ (y : Z) (X : gset Z),
            ({[y; - y]} : gset Z) ∩ X ≠ ∅ ↔ y ∈ X ∨ - y ∈ X).
  { intros y X. split.
    - intros Hne. apply set_choose_L in Hne as [z Hz].
      apply elem_of_intersection in Hz as [Hz ?].
      apply elem_of_union in Hz as [Hz|Hz]; apply elem_of_singleton in Hz;
        subst; auto.
    - intros [Hy|Hy] Hempty.
      + assert (y ∈ ({[y; - y]} : gset Z) ∩ X) as Hin.
        { apply elem_of_intersection. split; [|done].
          apply elem_of_union_l. by apply elem_of_singleton. }
        rewrite Hempty in Hin. by apply not_elem_of_empty in Hin.
      + assert (- y ∈ ({[y; - y]} : gset Z) ∩ X) as Hin.
        { apply elem_of_intersection. split; [|done].
          apply elem_of_union_r. by apply elem_of_singleton. }
        rewrite Hempty in Hin. by apply not_elem_of_empty in Hin. }
  assert (HT : ∀ y, y ∈ T
            ↔ 0 < y ∧ (y ∈ a ∧ (y ∈ d ∨ - y ∈ d) ∨ y ∈ d ∧ (y ∈ a ∨ - y ∈ a))).
  { intros y. unfold T. rewrite elem_of_union, !elem_of_map.
    setoid_rewrite elem_of_filter. setoid_rewrite Hpair.
    setoid_rewrite HA. setoid_rewrite HD. split.
    - intros [(z & -> & (Hz & Hzd) & Hza)|(z & -> & (Hz & Hza) & Hzd)];
        rewrite Z.abs_eq by lia; (split; [lia|]); [left|right]; done.
    - intros [Hy [[Hya Hyd]|[Hyd Hya]]]; [left|right];
        exists y; rewrite Z.abs_eq by lia; done. }
  rewrite !elem_of_sorted, !list_elem_of_filter, !elem_of_elements, HT, HA, HD.
  split_and!; [| |done].
  - split.
    + intros [[Hx Hnt] Hxa]. split_and!; try done; intros ?; apply Hnt; tauto.
    + intros (Hx & Hxa & Hxd & Hnxd). split_and!; try done.
      intros [_ [[_ [?|?]]|[? _]]]; done.
  - split.
    + intros [[Hx Hnt] Hxd]. split_and!; try done; intros ?; apply Hnt; tauto.
    + intros (Hx & Hxd & Hxa & Hnxa). split_and!; try done.
      intros [_ [[? _]|[_ [?|?]]]]; done.
Qed.

Lemma get_touched_increasing a d :
  StronglySorted Z.lt (get_touched a d).1.1
  ∧ StronglySorted Z.lt (get_touched a d).1.2
  ∧ StronglySorted Z.lt (get_touched a d).2.
Proof.
  unfold get_touched. cbn [fst snd]. split_and!.
  - apply sorted_increasing, NoDup_filter, NoDup_elements.
  - apply sorted_increasing, NoDup_filter, NoDup_elements.
  - apply sorted_increasing, NoDup_elements.
Qed.

Lemma increasing_NoDup (l : list Z) : StronglySorted Z.lt l → NoDup l.
Proof.
  induction 1 as [|y l Hs IH Hall]; constructor; [|done].
  intros Hy. rewrite Forall_forall in Hall. specialize (Hall y Hy). lia.
Qed.

Lemma increasing_le (l : list Z) : StronglySorted Z.lt l → StronglySorted Z.le l.
Proof.
  induction 1 as [|y l Hs IH Hall]; constructor; [done|].
  eapply Forall_impl; [done|]. intros z ?. simpl in *. lia.
Qed.

(** Two increasing lists with the same elements are the same list. *)
Lemma increasing_ext (l1 l2 : list Z) :
  StronglySorted Z.lt l1 → StronglySorted Z.lt l2 →
  (∀ x, x ∈ l1 ↔ x ∈ l2) → l1 = l2.
Proof.
  intros H1 H2 Hel. apply (StronglySorted_unique Z.le).
  - by apply increasing_le.
  - by apply increasing_le.
  - apply NoDup_Permutation; [by apply increasing_NoDup..|done].
Qed.

(** X1: what each list holds.  A positive anchor is touched when the other
    raw list has it with either sign; an added (deleted) line is a positive
    added (deleted) anchor that the other raw list has with neither sign. *)
Theorem get_touched_spec a d :
  let '(a', d', t) := get_touched a d in
  ∀ x,
    (x ∈ a' ↔ 0 < x ∧ x ∈ a ∧ (x ∉ d) ∧ (Z.opp x ∉ d))
    ∧ (x ∈ d' ↔ 0 < x ∧ x ∈ d ∧ (x ∉ a) ∧ (Z.opp x ∉ a))
    ∧ (x ∈ t ↔ 0 < x ∧ (x ∈ a ∧ (x ∈ d ∨ - x ∈ d) ∨ x ∈ d ∧ (x ∈ a ∨ - x ∈ a))).
Proof.
  pose proof (get_touched_elem_of a d) as H.
  destruct (get_touched a d) as [[a' d'] t]. exact H.
Qed.

(** X2: exchanging the two raw lists exchanges the added and the deleted
    lines and keeps the touched ones. *)
Theorem get_touched_swap a d :
  get_touched d a
  = ((get_touched a d).1.2, (get_touched a d).1.1, (get_touched a d).2).
Proof.
  destruct (get_touched_increasing a d) as (Sa & Sd & St).
  destruct (get_touched_increasing d a) as (Sa' & Sd' & St').
  destruct (get_touched d a) as [[a1 d1] t1] eqn:E1.
  cbn [fst snd] in *.
  assert (∀ x, (x ∈ a1 ↔ x ∈ (get_touched a d).1.2)
             ∧ (x ∈ d1 ↔ x ∈ (get_touched a d).1.1)
             ∧ (x ∈ t1 ↔ x ∈ (get_touched a d).2)) as Hel.
  { intros x. destruct (get_touched_elem_of a d x) as (Ha & Hd & Ht).
    destruct (get_touched_elem_of d a x) as (Ha1 & Hd1 & Ht1).
    rewrite E1 in Ha1, Hd1, Ht1. cbn [fst snd] in *.
    rewrite Ha, Hd, Ht, Ha1, Hd1, Ht1.
    split_and!; [reflexivity | reflexivity |].
    split; intros [? [[? ?]|[? ?]]]; (split; [done|]);
      first [by left | by right]. }
  f_equal; [f_equal|]; apply increasing_ext; try done; intros x; apply Hel.
Qed.

(** X3: the reconciled lists are a fixed point: reconciling the added and
    the deleted lines again returns them as they are, with nothing touched. *)
Theorem get_touched_idempotent a d :
  let '(a', d', _) := get_touched a d in
  get_touched a' d' = (a', d', []).
Proof.
  destruct (get_touched_increasing a d) as (Sa & Sd & _).
  pose proof (get_touched_elem_of a d) as Hel.
  destruct (get_touched a d) as [[a' d'] t]. cbn [fst snd] in *.
  destruct (get_touched_increasing a' d') as (Sa2 & Sd2 & St2).
  pose proof (get_touched_elem_of a' d') as Hel2.
  destruct (get_touched a' d') as [[a2 d2] t2]. cbn [fst snd] in *.
  assert (∀ x, x ∈ a' → (x ∉ d') ∧ (Z.opp x ∉ d')) as Had.
  { intros x Hx. destruct (Hel x) as (Ha & _ & _).
    apply Ha in Hx as (? & ? & ? & ?). split; intros Hd.
    - destruct (Hel x) as (_ & Hd' & _). apply Hd' in Hd. tauto.
    - destruct (Hel (- x)) as (_ & Hd' & _). apply Hd' in Hd. lia. }
  assert (∀ x, x ∈ d' → (x ∉ a') ∧ (Z.opp x ∉ a')) as Hda.
  { intros x Hx. destruct (Hel x) as (_ & Hd & _).
    apply Hd in Hx as (? & ? & ? & ?). split; intros Ha.
    - destruct (Hel x) as (Ha' & _ & _). apply Ha' in Ha. tauto.
    - destruct (Hel (- x)) as (Ha' & _ & _). apply Ha' in Ha. lia. }
  f_equal; [f_equal|].
  - apply increasing_ext; try done. intros x.
    destruct (Hel2 x) as (-> & _ & _). destruct (Hel x) as (Ha & _ & _).
    split; [tauto|]. intros Hx. destruct (Had x Hx).
    apply Ha in Hx as Hx'. tauto.
  - apply increasing_ext; try done. intros x.
    destruct (Hel2 x) as (_ & -> & _). destruct (Hel x) as (_ & Hd & _).
    split; [tauto|]. intros Hx. destruct (Hda x Hx).
    apply Hd in Hx as Hx'. tauto.
  - apply elem_of_nil_inv. intros x Hx.
    destruct (Hel2 x) as (_ & _ & Ht). apply Ht in Hx as [_ [[Hx1 Hx2]|[Hx1 Hx2]]].
    + destruct (Had x Hx1). tauto.
    + destruct (Hda x Hx1). tauto.
Qed.

(** X4: no positive anchor is lost and none is made up: the lines of the
    three lists together are the positive raw anchors, and only those. *)
Theorem get_touched_conserves a d :
  let '(a', d', t) := get_touched a d in
  ∀ x, x ∈ a' ∨ x ∈ d' ∨ x ∈ t ↔ 0 < x ∧ (x ∈ a ∨ x ∈ d).
Proof.
  pose proof (get_touched_elem_of a d) as Hel.
  destruct (get_touched a d) as [[a' d'] t]. cbn [fst snd] in *.
  intros x. destruct (Hel x) as (-> & -> & ->).
  destruct (decide (x ∈ a)), (decide (x ∈ d)),
    (decide (- x ∈ a)), (decide (- x ∈ d)); tauto.
Qed.

End ReconcilerLists.

(** ** Line reassembly, whatever the fragments *)

Section ChunkSourceMore.

Lemma split_no_sep sep s :
  Forall (λ x, has_char sep x = false) (Py.split sep s).
Proof.
  induction s as [|c s IH]; cbn [Py.split]; [by repeat constructor|].
  destruct (Ascii.eqb_spec c sep) as [->|Hne].
  - by constructor.
  - pose proof (split_nonempty sep s) as Hs.
    destruct (Py.split sep s) as [|h t]; [done|].
    apply Forall_cons in IH as [Hh Ht]. constructor; [|done].
    cbn [has_char]. rewrite Hh.
    destruct (Ascii.eqb_spec sep c) as [->|]; done.
Qed.

Lemma split_terminated sep s :
  Py.split sep (s +:+ String sep "") = Py.split sep s ++ [""].
Proof.
  destruct (pop_Some _ (split_nonempty sep s)) as (r & x & Hr & _).
  rewrite (split_app _ _ _ _ _ Hr), Hr. cbn [Py.split]. rewrite Ascii.eqb_refl.
  cbn [prepend]. rewrite append_empty_r. by rewrite <- app_assoc.
Qed.

(** X5: where the transport cuts the text does not matter: two sequences of
    fragments that make up the same text give the same lines. *)
Theorem lines_chunk_cut_anywhere it it' :
  joined it = joined it' →
  List.concat (lines_chunk it) = List.concat (lines_chunk it').
Proof.
  intros Hj.
  destruct (lines_chunk_split it) as [f Hf].
  destruct (lines_chunk_split it') as [f' Hf'].
  rewrite Hj, Hf' in Hf. by apply app_inj_tail in Hf as [-> _].
Qed.

Lemma lines_chunk_cut_anywhere_witness :
  List.concat (lines_chunk ["a" +:+ nl +:+ "b"; "c" +:+ nl +:+ "d"])
  = List.concat (lines_chunk ["a"; nl +:+ "bc"; nl; "d"]).
Proof.
  apply (lines_chunk_cut_anywhere ["a" +:+ nl +:+ "b"; "c" +:+ nl +:+ "d"]
           ["a"; nl +:+ "bc"; nl; "d"]).
  vm_compute. reflexivity.
Defined.

(** X6: a text that ends with a line feed gets all its lines through: the
    chunks hold exactly the lines of the text before that last line feed. *)
Theorem lines_chunk_terminated it s :
  joined it = s +:+ nl →
  List.concat (lines_chunk it) = Py.split Re.linefeed s.
Proof.
  intros Hj. destruct (lines_chunk_split it) as [f Hf].
  rewrite Hj in Hf. unfold nl in Hf. rewrite split_terminated in Hf.
  by apply app_inj_tail in Hf as [-> _].
Qed.

Lemma lines_chunk_terminated_witness :
  List.concat (lines_chunk ["a" +:+ nl +:+ "b"; "c" +:+ nl])
  = Py.split Re.linefeed ("a" +:+ nl +:+ "bc").
Proof.
  apply (lines_chunk_terminated ["a" +:+ nl +:+ "b"; "c" +:+ nl]).
  vm_compute. reflexivity.
Defined.

(** X7: every line that a chunk holds is a whole line: none has a line feed
    in it. *)
Theorem lines_chunk_whole_lines it :
  Forall (Forall (λ x, has_char Re.linefeed x = false)) (lines_chunk it).
Proof.
  destruct (lines_chunk_split it) as [f Hf].
  pose proof (split_no_sep Re.linefeed (joined it)) as Hall.
  rewrite Hf in Hall. apply Forall_app in Hall as [Hall _].
  clear Hf. revert Hall.
  induction (lines_chunk it) as [|chunk chunks IH]; intros Hall; [constructor|].
  cbn [List.concat] in Hall. apply Forall_app in Hall as [? ?].
  constructor; [done | by apply IH].
Qed.

End ChunkSourceMore.

(** ** The two patterns *)

Section Patterns.

Implicit Types (p : ascii → bool) (s ds : string) (k : Re.cont).

(** A greedy repetition that can take all of [ds] and no more hands over
    what follows [ds], when the rest of the pattern matches from there. *)
Lemma star_all p ds s pos c k r :
  all_chars p ds = true → starts_in p s = false →
  k (pos + String.length ds)%nat s c = Some r →
  Re.star p pos (ds +:+ s) c k = Some r.
Proof.
  revert pos. induction ds as [|a ds IH]; intros pos Hds Hs Hk.
  - change ("" +:+ s) with s. simpl in Hk. rewrite Nat.add_0_r in Hk.
    destruct s as [|b s]; simpl in *; [done|]. by rewrite Hs.
  - rewrite append_cons. cbn [all_chars] in Hds.
    apply andb_true_iff in Hds as [Ha Hds]. cbn [Re.star]. rewrite Ha.
    rewrite (IH (S pos)); try done.
    cbn [String.length] in Hk. by rewrite <- Nat.add_succ_comm in Hk.
Qed.

(** It fails when the rest of the pattern fails wherever it stops. *)
Lemma star_none p ds s pos c k :
  all_chars p ds = true → starts_in p s = false →
  (∀ i, (i <= String.length ds)%nat →
        k (pos + i)%nat (Py.drop i ds +:+ s) c = None) →
  Re.star p pos (ds +:+ s) c k = None.
Proof.
  revert pos. induction ds as [|a ds IH]; intros pos Hds Hs Hk.
  - change ("" +:+ s) with s. specialize (Hk 0%nat (Nat.le_refl _)).
    rewrite Nat.add_0_r in Hk. cbn [Py.drop] in Hk. change ("" +:+ s) with s in Hk.
    destruct s as [|b s]; simpl in *; [done|]. by rewrite Hs.
  - rewrite append_cons. cbn [all_chars] in Hds.
    apply andb_true_iff in Hds as [Ha Hds]. cbn [Re.star]. rewrite Ha.
    rewrite (IH (S pos)); try done.
    + specialize (Hk 0%nat ltac:(lia)). rewrite Nat.add_0_r in Hk.
      cbn [Py.drop] in Hk. by rewrite append_cons in Hk.
    + intros i Hi. specialize (Hk (S i) ltac:(simpl; lia)).
      cbn [Py.drop] in Hk. by rewrite <- Nat.add_succ_comm in Hk.
Qed.

Lemma take_app_length ds s : Re.take (String.length ds) (ds +:+ s) = ds.
Proof.
  induction ds as [|a ds IH]; [by destruct s|].
  rewrite append_cons. cbn [String.length Re.take]. by rewrite IH.
Qed.

End Patterns.

Section EmptyPat.

Implicit Types (m ch : ascii) (ws s body : string) (count : Z) (c : Re.caps).

Lemma match_EMPTY_PAT m s :
  Re.match_ EMPTY_PAT (String m s)
  = if plus_or_minus m then Re.star blank 1 s [] after_blanks else None.
Proof. reflexivity. Qed.

Lemma blank_end_blank ws pos c :
  all_chars blank ws = true → Re.run blank_end pos ws c accept = Some c.
Proof.
  intros Hws. unfold blank_end. cbn [Re.seq Re.run].
  rewrite <- (append_empty_r ws). by apply star_all.
Qed.

Lemma after_blanks_end pos c : after_blanks pos "" c = Some c.
Proof. reflexivity. Qed.

Lemma after_blanks_line_comment body pos c :
  all_chars dot body = true →
  after_blanks pos ("//" +:+ body) c = Some c.
Proof.
  intros Hb. unfold after_blanks, line_comment.
  change ("//" +:+ body) with (String "/" (String "/" body)).
  cbn [Re.seq Re.run]. change (Ascii.eqb "/" "/") with true. cbv iota.
  rewrite <- (append_empty_r body).
  rewrite (star_all dot body "" _ c _ c); done.
Qed.

Lemma after_blanks_block_comment body st ws pos c :
  all_chars not_star body = true → all_chars is_star st = true →
  all_chars blank ws = true →
  after_blanks pos ("/*" +:+ body +:+ String "*" st +:+ "/" +:+ ws) c = Some c.
Proof.
  intros Hb Hst Hws. unfold after_blanks, line_comment, block_comment.
  rewrite (append_cons "*" st).
  change ("/*" +:+ ?t) with (String "/" (String "*" t)).
  cbn [Re.seq Re.run].
  change (Ascii.eqb "/" "/") with true. change (Ascii.eqb "/" "*") with false.
  change (Ascii.eqb "*" "*") with true. cbv iota.
  rewrite (star_all not_star body _ _ c _ c); try done.
  cbv beta iota. change (is_star "*") with true. cbv iota.
  rewrite (star_all is_star st _ _ c _ c); try done.
  change ("/" +:+ ws) with (String "/" ws). cbv beta iota.
  change (Ascii.eqb "/" "/") with true. cbv iota.
  by apply blank_end_blank.
Qed.

Lemma all_chars_drop p i s : all_chars p s = true → all_chars p (Py.drop i s) = true.
Proof.
  revert s. induction i as [|i IH]; intros s Hs; [done|].
  destruct s as [|a s]; [done|]. cbn [all_chars Py.drop] in *.
  apply andb_true_iff in Hs as [_ Hs]. by apply IH.
Qed.

(** Nothing matches when the first character after the blanks is neither a
    slash nor a line feed. *)
Lemma after_blanks_substantive ws ch s pos c :
  all_chars blank ws = true → blank ch = false →
  ch ≠ "/"%char → ch ≠ Re.linefeed →
  after_blanks pos (ws +:+ String ch s) c = None.
Proof.
  intros Hws Hch Hslash Hlf. unfold after_blanks.
  assert (∀ r k pos c, Re.run (Re.Opt (Re.Cat (Re.Lit "/") r)) pos
                         (ws +:+ String ch s) c k
                       = k pos (ws +:+ String ch s) c) as Hopt.
  { intros r k pos' c'. cbn [Re.run].
    destruct ws as [|b ws'].
    - change ("" +:+ String ch s) with (String ch s). cbv iota.
      destruct (Ascii.eqb_spec "/" ch) as [Heq|]; [by destruct Hslash | done].
    - rewrite append_cons. cbv iota. cbn [all_chars] in Hws.
      apply andb_true_iff in Hws as [Hb _].
      destruct (Ascii.eqb_spec "/" b) as [Heq|]; [by subst b | done]. }
  unfold line_comment, block_comment. cbn [Re.seq]. rewrite !Hopt.
  unfold blank_end. cbn [Re.seq Re.run].
  apply star_none; [done|done|]. intros i Hi.
  pose proof (all_chars_drop blank i ws Hws) as Hd.
  destruct (Py.drop i ws) as [|b [|b' t]].
  - change ("" +:+ String ch s) with (String ch s).
    destruct s; [|done].
    cbn [Re.run]. by destruct (Ascii.eqb_spec ch Re.linefeed).
  - done.
  - done.
Qed.

(** X8: a changed line that holds nothing but blanks after its marker gets
    a negative anchor. *)
Theorem get_signed_count_blank m ws count :
  plus_or_minus m = true → all_chars blank ws = true →
  get_signed_count (String m ws) count = - count.
Proof.
  intros Hm Hws. unfold get_signed_count.
  rewrite match_EMPTY_PAT, Hm, <- (append_empty_r ws).
  by rewrite (star_all blank ws "" _ [] _ []).
Qed.

Lemma get_signed_count_blank_witness :
  get_signed_count (String "+" "  ") 7 = - 7.
Proof. apply (get_signed_count_blank "+" "  " 7); reflexivity. Defined.

(** X9: a changed line that holds only a line comment after its marker and
    blanks gets a negative anchor. *)
Theorem get_signed_count_line_comment m ws body count :
  plus_or_minus m = true → all_chars blank ws = true →
  all_chars dot body = true →
  get_signed_count (String m (ws +:+ "//" +:+ body)) count = - count.
Proof.
  intros Hm Hws Hb. unfold get_signed_count.
  rewrite match_EMPTY_PAT, Hm.
  rewrite (star_all blank ws _ _ [] _ []); try done.
  by apply after_blanks_line_comment.
Qed.

Lemma get_signed_count_line_comment_witness :
  get_signed_count (String "-" (" " +:+ "//" +:+ " x /* y")) 7 = - 7.
Proof.
  apply (get_signed_count_line_comment "-" " " " x /* y" 7); reflexivity.
Defined.

(** X10: a changed line that holds only a block comment without a star
    inside, closed by one or more stars and a slash, with blanks around it,
    gets a negative anchor. *)
Theorem get_signed_count_block_comment m ws body st ws' count :
  plus_or_minus m = true → all_chars blank ws = true →
  all_chars not_star body = true → all_chars is_star st = true →
  all_chars blank ws' = true →
  get_signed_count
    (String m (ws +:+ "/*" +:+ body +:+ String "*" st +:+ "/" +:+ ws')) count
  = - count.
Proof.
  intros Hm Hws Hb Hst Hws'. unfold get_signed_count.
  rewrite match_EMPTY_PAT, Hm.
  rewrite (star_all blank ws _ _ [] _ []); try done.
  by apply after_blanks_block_comment.
Qed.

Lemma get_signed_count_block_comment_witness :
  get_signed_count
    (String "+" (" " +:+ "/*" +:+ " a / b " +:+ String "*" "*" +:+ "/" +:+ " ")) 7
  = - 7.
Proof.
  apply (get_signed_count_block_comment "+" " " " a / b " "*" " " 7); reflexivity.
Defined.

(** X11: a line whose first character after the marker and the blanks is no
    blank, no slash and no line feed keeps a positive anchor: the count
    itself. *)
Theorem get_signed_count_substantive m ws ch s count :
  all_chars blank ws = true → blank ch = false →
  ch ≠ "/"%char → ch ≠ Re.linefeed →
  get_signed_count (String m (ws +:+ String ch s)) count = count.
Proof.
  intros Hws Hch Hslash Hlf. unfold get_signed_count.
  rewrite match_EMPTY_PAT. destruct (plus_or_minus m); [|done].
  rewrite star_none; try done.
  intros i Hi. apply after_blanks_substantive; try done.
  by apply all_chars_drop.
Qed.

Lemma get_signed_count_substantive_witness :
  get_signed_count (String "+" ("  " +:+ String "x" " = 1; // c")) 7 = 7.
Proof.
  apply (get_signed_count_substantive "+" "  " "x" " = 1; // c" 7);
    [reflexivity | reflexivity | discriminate | discriminate].
Defined.

End EmptyPat.

Section NumsPat.

Implicit Types (a t s : string) (b : option string) (c : Re.caps) (k : Re.cont).

Lemma number_inv a :
  number a = true → ∃ (a0 : ascii) (a' : string), a = String a0 a' ∧ digit a0 = true
                            ∧ all_chars digit a' = true.
Proof.
  unfold number. destruct a as [|a0 a']; [done|]. cbn [starts_in all_chars].
  intros H. apply andb_true_iff in H as [H0 H]. apply andb_true_iff in H as [_ H].
  by exists a0, a'.
Qed.

(** A group of digits takes the whole number in front of it. *)
Lemma run_group_digits i a t pos c k r :
  number a = true → starts_in digit t = false →
  k (pos + String.length a)%nat t ((i, a) :: c) = Some r →
  Re.run (Re.Group i (Re.Plus digit)) pos (a +:+ t) c k = Some r.
Proof.
  intros Ha Ht Hk. destruct (number_inv a Ha) as (a0 & a' & -> & H0 & Ha').
  rewrite append_cons. cbn [Re.run]. rewrite H0.
  apply star_all; [done|done|].
  replace (S pos + String.length a' - pos)%nat with (S (String.length a')) by lia.
  cbn [Re.take]. rewrite take_app_length.
  cbn [String.length] in Hk. by rewrite <- Nat.add_succ_comm in Hk.
Qed.

(** An optional count: a comma and a number, or nothing at all. *)
Lemma run_count j b s pos c k r :
  optional_number b = true → starts_in digit s = false →
  starts_in (Ascii.eqb ",") s = false →
  k (pos + String.length (count_text b))%nat s
    (match b with Some ds => (j, ds) :: c | None => c end) = Some r →
  Re.run (Re.Opt (Re.Lit ",")) pos (count_text b +:+ s) c
    (λ pos s c, Re.run (Re.Opt (Re.Group j (Re.Plus digit))) pos s c k) = Some r.
Proof.
  intros Hb Hs Hcomma Hk. destruct b as [ds|]; cbn [count_text optional_number] in *.
  - change ("," +:+ ds) with (String "," ds) in *. rewrite append_cons.
    cbn [Re.run]. change (Ascii.eqb "," ",") with true. cbv iota.
    cbn [String.length] in Hk.
    assert (Re.run (Re.Group j (Re.Plus digit)) (S pos) (ds +:+ s) c k = Some r)
      as Hrun.
    { apply run_group_digits; try done.
      by replace (S pos + String.length ds)%nat
        with (pos + S (String.length ds))%nat by lia. }
    cbn [Re.run] in Hrun. by rewrite Hrun.
  - change ("" +:+ s) with s. simpl in Hk. rewrite Nat.add_0_r in Hk.
    cbn [Re.run]. destruct s as [|x s]; [done|]. cbn [starts_in] in *.
    rewrite Hcomma, Hs. done.
Qed.

Lemma starts_count_text b s :
  starts_in digit s = false →
  starts_in digit (count_text b +:+ s) = false.
Proof. by destruct b. Qed.

(** The captures of a well-formed header. *)
Lemma search_hunk_header a b (c0 : string) d rest :
  number a = true → optional_number b = true →
  number c0 = true → optional_number d = true →
  Re.search NUMS_PAT (hunk_header a b c0 d rest)
  = Some (match d with Some ds => [(4%nat, ds)] | None => [] end
          ++ (3%nat, c0)
             :: match b with Some ds => [(2%nat, ds)] | None => [] end
          ++ [(1%nat, a)]).
Proof.
  intros Ha Hb Hc Hd. unfold Re.search, hunk_header.
  set (t2 := count_text d +:+ " @@" +:+ rest).
  set (t1 := count_text b +:+ " +" +:+ c0 +:+ t2).
  change ("@@ -" +:+ a +:+ t1)
    with (String "@" (String "@" (String " " (String "-" (a +:+ t1))))).
  cbn [Re.search_from].
  set (fin := (λ (_ : nat) (_ : string) (c : Re.caps), Some c) : Re.cont).
  set (k4 := (λ pos s c, Re.run (Re.seq (Re.lits " @@")) pos s c fin) : Re.cont).
  set (k3 := (λ pos s c,
               Re.run (Re.Opt (Re.Lit ",")) pos s c
                 (λ pos s c, Re.run (Re.Opt (Re.Group 4 (Re.Plus digit))) pos s c k4))
             : Re.cont).
  set (k2 := (λ pos s c,
               Re.run (Re.seq (Re.lits " +")) pos s c
                 (λ pos s c, Re.run (Re.Group 3 (Re.Plus digit)) pos s c k3))
             : Re.cont).
  set (k1 := (λ pos s c,
               Re.run (Re.Opt (Re.Lit ",")) pos s c
                 (λ pos s c, Re.run (Re.Opt (Re.Group 2 (Re.Plus digit))) pos s c k2))
             : Re.cont).
  change (Re.run NUMS_PAT 0
            (String "@" (String "@" (String " " (String "-" (a +:+ t1)))))
            [] fin)
    with (Re.run (Re.Group 1 (Re.Plus digit)) 4 (a +:+ t1) [] k1).
  erewrite run_group_digits; [done|done|by apply starts_count_text|].
  unfold k1, t1. apply run_count; [done|done|done|].
  unfold k2. change (" +" +:+ c0 +:+ t2) with (String " " (String "+" (c0 +:+ t2))).
  cbn [Re.seq Re.lits Re.run]. change (Ascii.eqb " " " ") with true.
  change (Ascii.eqb "+" "+") with true. cbv iota.
  apply run_group_digits; [done|by apply starts_count_text|].
  unfold k3, t2. apply run_count; [done|done|done|].
  unfold k4. change (" @@" +:+ rest) with (String " " (String "@" (String "@" rest))).
  cbn [Re.seq Re.lits Re.run]. change (Ascii.eqb " " " ") with true.
  change (Ascii.eqb "@" "@") with true. cbv iota. unfold fin.
  by destruct b, d.
Qed.

(** X12: [parse_numbers] reads a well-formed hunk header: the two start
    lines, and each count, which is 1 when the header leaves it out. *)
Theorem parse_numbers_header a b (c0 : string) d rest self :
  number a = true → optional_number b = true →
  number c0 = true → optional_number d = true →
  parse_numbers (Some (hunk_header a b c0 d rest)) self
  = (Ok ((Py.int a, count_value b), (Py.int c0, count_value d)), self).
Proof.
  intros Ha Hb Hc Hd. unfold parse_numbers.
  pose proof (search_hunk_header a b c0 d rest Ha Hb Hc Hd) as Hs.
  assert (∃ x t, hunk_header a b c0 d rest = String x t) as (x & t & Hh).
  { by eexists _, _. }
  rewrite Hh in *. unfold bind, ret. rewrite Hs.
  destruct (number_inv a Ha) as (a0 & a' & -> & _ & _).
  destruct (number_inv c0 Hc) as (c1 & c' & -> & _ & _).
  destruct b as [ds|], d as [ds'|]; cbn [optional_number] in *;
    try (destruct (number_inv ds Hb) as (? & ? & -> & _ & _));
    try (destruct (number_inv ds' Hd) as (? & ? & -> & _ & _)); reflexivity.
Qed.

Lemma parse_numbers_header_witness :
  parse_numbers (Some (hunk_header "12" (Some "3") "40" None " int f()"))
    (Patch_init [])
  = (Ok ((Py.int "12", count_value (Some "3")), (Py.int "40", count_value None)),
     Patch_init []).
Proof.
  apply (parse_numbers_header "12" (Some "3") "40" None " int f()" (Patch_init []));
    reflexivity.
Defined.

(** The pattern is tied to the start of the line. *)
Lemma run_NUMS_PAT_later s pos c k :
  pos ≠ 0%nat → Re.run NUMS_PAT pos s c k = None.
Proof. intros Hpos. destruct pos; [done | reflexivity]. Qed.

Lemma search_from_NUMS_PAT_later s : ∀ pos,
  pos ≠ 0%nat → Re.search_from NUMS_PAT pos s = None.
Proof.
  induction s as [|x s IH]; intros pos Hpos; cbn [Re.search_from];
    rewrite run_NUMS_PAT_later by done; [done|]. by apply IH.
Qed.

Lemma run_NUMS_PAT_start s c k :
  Py.startswith s "@@ -" = false → Re.run NUMS_PAT 0 s c k = None.
Proof.
  intros Hs. unfold NUMS_PAT. cbn [Re.seq Re.lits app].
  destruct s as [|x1 s]; [done|]. cbn [Py.startswith Re.run Nat.eqb] in *.
  destruct (Ascii.eqb "@" x1); [|done].
  destruct s as [|x2 s]; [done|]. cbn [Py.startswith Re.run Nat.eqb andb] in *.
  destruct (Ascii.eqb "@" x2); [|done].
  destruct s as [|x3 s]; [done|]. cbn [Py.startswith Re.run Nat.eqb andb] in *.
  destruct (Ascii.eqb " " x3); [|done].
  destruct s as [|x4 s]; [done|]. cbn [Py.startswith Re.run Nat.eqb andb] in *.
  destruct (Ascii.eqb "-" x4); [|done]. by destruct s.
Qed.

(** X13: a line that does not begin with the four characters of a hunk
    header start makes [parse_numbers] raise, wherever else in the line a
    header may stand; the object is left as it was. *)
Theorem parse_numbers_not_header x t self :
  Py.startswith (String x t) "@@ -" = false →
  parse_numbers (Some (String x t)) self = (Raise AttributeError, self).
Proof.
  intros Hs. unfold parse_numbers, bind, ret, Re.search.
  cbn [Re.search_from]. rewrite (run_NUMS_PAT_start _ _ _ Hs).
  by rewrite search_from_NUMS_PAT_later.
Qed.

Lemma parse_numbers_not_header_witness :
  parse_numbers (Some (String "x" " @@ -1,2 +3,4 @@")) (Patch_init [])
  = (Raise AttributeError, Patch_init []).
Proof.
  apply (parse_numbers_not_header "x" " @@ -1,2 +3,4 @@" (Patch_init [])).
  reflexivity.
Defined.

End NumsPat.

(** ** The cursor *)

Section Cursor.

Implicit Types (self : Patch) (pre post rest : list string) (x hdr : string).

(** The line at the cursor of a suspended generator. *)
Lemma line_upcoming self x rest :
  wf self → get_lines self = AtLine ∨ get_lines self = AtNone →
  upcoming self = x :: rest → line self = (Ok x, self).
Proof.
  unfold wf, upcoming, line. intros Hwf Hg Hu.
  assert ((index self < List.length (lines self))%nat
          ∧ drop (index self) (lines self) ++ List.concat (source self) = x :: rest)
    as [Hi Hd].
  { destruct Hg as [Hg|Hg]; rewrite Hg in *; split; (lia || done). }
  by rewrite (lookup_drop_head _ _ _ _ _ Hi Hd).
Qed.

(** A turn of a loop when nothing is left. *)
Lemma next_line_end self :
  wf self → next_from self = [] →
  ∃ self', next_line self = (Ok None, self') ∧ get_lines self' = Finished
    ∧ conditions self' = conditions self ∧ same_record self self'.
Proof.
  intros Hwf Hn. pose proof (send_spec None self Hwf (λ _, eq_refl)) as Hs.
  unfold next_from in Hn. rewrite Hn in Hs.
  destruct Hs as (s' & Hs & ? & ? & ?). exists s'. unfold next_line.
  by rewrite Hs.
Qed.

(** The loop of [next_diff] over lines that are no headers, up to a header. *)
Lemma next_diff_for_header pre : ∀ n self hdr post cs,
  wf self → next_from self = pre ++ hdr :: post →
  conditions self = not_diff_header :: cs →
  Forall (λ x, is_diff_header x = false) pre → is_diff_header hdr = true →
  (List.length pre < n)%nat →
  ∃ self', next_diff_for n self = (Ok true, self')
    ∧ get_lines self' = AtNone ∧ upcoming self' = hdr :: post
    ∧ conditions self' = cs ∧ wf self' ∧ same_record self self'.
Proof.
  induction pre as [|x pre IH]; intros n self hdr post cs Hwf Hnext Hcs Hpre Hhdr Hn;
    (destruct n as [|n]; [simpl in Hn; lia|]); simpl in *; unfold bind.
  - pose proof (next_line_spec self hdr post Hwf Hnext) as Hs.
    unfold _check in Hs. rewrite Hcs in Hs. unfold not_diff_header in Hs at 1.
    rewrite Hhdr in Hs. cbn [negb] in Hs.
    destruct Hs as (s' & -> & ? & ? & Hcs' & ? & ?).
    exists s'. split_and!; try done.
  - apply Forall_cons in Hpre as [Hx Hpre].
    pose proof (next_line_spec self x _ Hwf Hnext) as Hs.
    unfold _check in Hs. rewrite Hcs in Hs. unfold not_diff_header in Hs at 1.
    rewrite Hx in Hs. cbn [negb] in Hs.
    destruct Hs as (s1 & -> & Hg1 & Hu1 & Hcs1 & Hwf1 & Hrec1).
    destruct (IH n s1 hdr post cs) as (s' & -> & ? & ? & ? & ? & ?); try done.
    { by apply (next_from_AtLine s1 x). }
    { lia. }
    exists s'. split_and!; try done. by eapply same_record_trans.
Qed.

(** The same loop when no header is left. *)
Lemma next_diff_for_none pre : ∀ n self cs,
  wf self → next_from self = pre →
  conditions self = not_diff_header :: cs →
  Forall (λ x, is_diff_header x = false) pre →
  (List.length pre < n)%nat →
  ∃ self', next_diff_for n self = (Ok false, self')
    ∧ get_lines self' = Finished ∧ same_record self self'.
Proof.
  induction pre as [|x pre IH]; intros n self cs Hwf Hnext Hcs Hpre Hn;
    (destruct n as [|n]; [simpl in Hn; lia|]); simpl in *; unfold bind.
  - destruct (next_line_end self Hwf Hnext) as (s' & -> & ? & ? & ?).
    by exists s'.
  - apply Forall_cons in Hpre as [Hx Hpre].
    pose proof (next_line_spec self x _ Hwf Hnext) as Hs.
    unfold _check in Hs. rewrite Hcs in Hs. unfold not_diff_header in Hs at 1.
    rewrite Hx in Hs. cbn [negb] in Hs.
    destruct Hs as (s1 & -> & Hg1 & Hu1 & Hcs1 & Hwf1 & Hrec1).
    destruct (IH n s1 cs) as (s' & -> & ? & ?); try done.
    { by apply (next_from_AtLine s1 x). }
    { lia. }
    exists s'. split_and!; try done. by eapply same_record_trans.
Qed.

Lemma length_next_from_fuel self :
  wf self → (List.length (next_from self) < fuel self)%nat.
Proof.
  intros Hwf. pose proof (length_upcoming_pending self Hwf).
  unfold next_from. rewrite length_drop. unfold fuel. lia.
Qed.

(** X14: [next_diff] stops on the first file header that is still to come,
    however the lines are spread over the chunks: it returns [True], the
    cursor is on the header ([line] gives it), the lines from the header on
    are all still to come, and the conditions are as before the call. *)
Theorem next_diff_finds_header self pre hdr post :
  wf self → next_from self = pre ++ hdr :: post →
  Forall (λ x, is_diff_header x = false) pre → is_diff_header hdr = true →
  ∃ self', next_diff self = (Ok true, self')
    ∧ line self' = (Ok hdr, self') ∧ upcoming self' = hdr :: post
    ∧ conditions self' = conditions self ∧ same_record self self'.
Proof.
  intros Hwf Hnext Hpre Hhdr. unfold next_diff, bind, _condition.
  set (s1 := set_conditions _ self).
  assert (wf s1) as Hwf1 by done.
  destruct (next_diff_for_header pre (fuel s1) s1 hdr post (conditions self))
    as (s' & -> & Hg & Hu & Hcs & Hwf' & Hrec); try done.
  { pose proof (length_next_from_fuel s1 Hwf1) as Hlen.
    change (next_from s1) with (next_from self) in Hlen.
    rewrite Hnext, length_app in Hlen. lia. }
  exists s'. split_and!; try done.
  apply (line_upcoming s' hdr post); auto.
Qed.

Lemma next_diff_finds_header_witness :
  ∃ self', next_diff (Patch_init [["# note"]; []; ["diff --git a/x b/x"; "@@"]])
           = (Ok true, self')
    ∧ line self' = (Ok "diff --git a/x b/x", self')
    ∧ upcoming self' = "diff --git a/x b/x" :: ["@@"]
    ∧ conditions self' = conditions (Patch_init [["# note"]; []; ["diff --git a/x b/x"; "@@"]])
    ∧ same_record (Patch_init [["# note"]; []; ["diff --git a/x b/x"; "@@"]]) self'.
Proof.
  apply (next_diff_finds_header
           (Patch_init [["# note"]; []; ["diff --git a/x b/x"; "@@"]])
           ["# note"] "diff --git a/x b/x" ["@@"]).
  - reflexivity.
  - reflexivity.
  - by repeat constructor.
  - reflexivity.
Defined.

(** X15: when no file header is left, [next_diff] reads the input to its
    end and returns [False]; the anchors and the results are untouched. *)
Theorem next_diff_no_header self :
  wf self →
  Forall (λ x, is_diff_header x = false) (next_from self) →
  ∃ self', next_diff self = (Ok false, self')
    ∧ get_lines self' = Finished ∧ same_record self self'.
Proof.
  intros Hwf Hpre. unfold next_diff, bind, _condition.
  set (s1 := set_conditions _ self).
  assert (wf s1) as Hwf1 by done.
  destruct (next_diff_for_none (next_from self) (fuel s1) s1 (conditions self))
    as (s' & -> & Hg & Hrec); try done.
  { apply (length_next_from_fuel s1 Hwf1). }
  by exists s'.
Qed.

Lemma next_diff_no_header_witness :
  ∃ self', next_diff (Patch_init [["a"; "b"]; ["c"]]) = (Ok false, self')
    ∧ get_lines self' = Finished
    ∧ same_record (Patch_init [["a"; "b"]; ["c"]]) self'.
Proof.
  apply (next_diff_no_header (Patch_init [["a"; "b"]; ["c"]])).
  - reflexivity.
  - by repeat constructor.
Defined.

(** X16: a [move] that follows a loop ended on a refused line does not move:
    the generator is suspended at [yield None], the number sent is dropped,
    and the lines still to come are the same, whatever the number. *)
Theorem move_after_none_stays self n :
  wf self → get_lines self = AtNone →
  upcoming (move n self).2 = upcoming self.
Proof.
  intros Hwf Hg. pose proof (send_spec (Some n) self Hwf) as Hs.
  rewrite Hg in Hs. specialize (Hs ltac:(done)).
  unfold shift in Hs. rewrite Hg in Hs. cbn [drop] in Hs.
  unfold move.
  destruct (upcoming self) as [|x rest] eqn:Hu.
  - unfold wf, upcoming in *. rewrite Hg in *.
    apply app_eq_nil in Hu as [Hu _]. apply drop_nil_length in Hu. lia.
  - simpl in Hs. unfold delivers in Hs. destruct (_check self x).
    + destruct Hs as (s' & -> & _ & Hu' & _). done.
    + destruct Hs as (s' & -> & _ & Hu' & _). done.
Qed.

Lemma move_after_none_stays_witness :
  let self := (next_diff (Patch_init [["diff --git a/x b/x"; "p"; "q"; "r"]])).2 in
  upcoming (move 3 self).2 = upcoming self.
Proof.
  intros self. apply (move_after_none_stays self 3).
  - vm_compute. split; [lia | reflexivity].
  - reflexivity.
Defined.

Lemma _get_lines_for_empty src : ∀ self,
  List.concat src = [] →
  index self = 0%nat →
  ∃ self', _get_lines_for src self = (false, self')
    ∧ index self' = 0%nat ∧ lines self' = lines self.
Proof.
  induction src as [|ls src IH]; intros self Hsrc Hi; cbn [_get_lines_for].
  - by eexists.
  - cbn [List.concat] in Hsrc. apply app_eq_nil in Hsrc as [-> Hsrc].
    cbn [List.length]. simpl. rewrite Hi. cbn [Nat.ltb Nat.leb].
    destruct (IH (set_index (0 - 0) (set_N 0 self)) Hsrc) as (s' & -> & ? & ?);
      [done|]. by exists s'.
Qed.

(** X17: when the loop has taken the last line of the input, [line] does
    not fail: the object still holds its last chunk, with the index back at
    0, and [line] gives the first line of that chunk again. *)
Theorem line_after_last_line self x :
  wf self → get_lines self = AtLine → upcoming self = [x] →
  ∃ self' first,
    next_line self = (Ok None, self')
    ∧ lines self !! 0%nat = Some first
    ∧ line self' = (Ok first, self').
Proof.
  unfold wf, upcoming. intros Hwf Hg Hu. rewrite Hg in *.
  destruct Hwf as [Hi HN].
  assert (List.length (drop (index self) (lines self)) = 1%nat
          ∧ List.concat (source self) = []) as [Hlen Hsrc].
  { destruct (drop (index self) (lines self)) as [|y t] eqn:Hd.
    - apply drop_nil_length in Hd. lia.
    - simplify_eq/=. by destruct t. }
  rewrite length_drop in Hlen.
  destruct (lines self) as [|first ls] eqn:Hlines; [simpl in *; lia|].
  unfold next_line, send. rewrite Hg. cbn [default].
  assert ((N self <=? index self + 1)%nat = true) as ->
    by (apply Nat.leb_le; simpl in *; lia).
  unfold _get_lines.
  replace (index self + 1 - N self)%nat with 0%nat by (simpl in *; lia).
  destruct (_get_lines_for_empty (source self) (set_index 0 self) Hsrc)
    as (s' & Hfor & Hi' & Hl'); [done|].
  change (source (set_index 0 self)) with (source self). rewrite Hfor.
  eexists _, first. split_and!; try done.
  unfold line. simpl. rewrite Hi', Hl'. simpl. by rewrite Hlines.
Qed.

Lemma line_after_last_line_witness :
  let self := (next_line (next_line (Patch_init [["a"; "b"]])).2).2 in
  ∃ self' first,
    next_line self = (Ok None, self')
    ∧ lines self !! 0%nat = Some first
    ∧ line self' = (Ok first, self').
Proof.
  intros self. apply (line_after_last_line self "b").
  - vm_compute. split; [lia | reflexivity].
  - reflexivity.
  - reflexivity.
Defined.

End Cursor.

(** ** The keys of the result map *)

Global Instance only_filename_refl : Reflexive only_filename.
Proof. by intros self. Qed.
Global Instance only_filename_trans : Transitive only_filename.
Proof.
  intros s1 s2 s3 [Hf1 Hr1] [Hf2 Hr2]. split; [congruence|].
  intros k Hk. rewrite Hr2 by congruence. by apply Hr1.
Qed.

Section Keys.

Implicit Types (self : Patch) (n : nat).

Lemma same_record_only_filename s s' : same_record s s' → only_filename s s'.
Proof. intros (_ & _ & Hr & Hf & _). split; [done|]. intros k _. by rewrite Hr. Qed.

Lemma lighter_same_only_filename s s' : lighter_same s s' → only_filename s s'.
Proof. intros [_ ?]. by apply same_record_only_filename. Qed.

(** The methods that leave the record alone, under [only_filename]. *)
Lemma law_only_filename {A} (m : M A) :
  law wf lighter_same ends m → law wf only_filename any_end m.
Proof.
  intros Hm. by apply (law_weaken lighter_same ends);
    [|apply lighter_same_only_filename|].
Qed.

Lemma next_line_only : law wf only_filename any_end next_line.
Proof.
  intros self Hwf.
  destruct (next_line_law self Hwf) as (x & s' & -> & ? & ? & _).
  split_and!; try done. by apply same_record_only_filename.
Qed.

Lemma condition_only c : law wf only_filename any_end (_condition c).
Proof. intros self Hwf. by split_and!. Qed.

Lemma added_append_only x : law wf only_filename any_end (added_append x).
Proof.
  intros self Hwf. unfold added_append. destruct (added self); by split_and!.
Qed.

Lemma deleted_append_only x : law wf only_filename any_end (deleted_append x).
Proof.
  intros self Hwf. unfold deleted_append. destruct (deleted self); by split_and!.
Qed.

Lemma out_of_fuel_only {A} : law wf only_filename any_end (λ self, (@OutOfFuel A, self)).
Proof. intros self Hwf. by split_and!. Qed.

Lemma count_minus_for_only n : ∀ c, law wf only_filename any_end (count_minus_for n c).
Proof.
  induction n as [|n IH]; intros c; [apply out_of_fuel_only|].
  cbn [count_minus_for]. apply law_bind; [apply next_line_only|].
  intros [[ln|]|]; try by apply law_ret.
  apply law_bind; [apply deleted_append_only|]. intros _. apply IH.
Qed.

Lemma fuel_loop_only {A} (loop : nat → M A) :
  (∀ n, law wf only_filename any_end (loop n)) →
  law wf only_filename any_end (λ self, loop (fuel self) self).
Proof. intros Hloop self Hwf. by apply Hloop. Qed.

Lemma count_minus_only c : law wf only_filename any_end (count_minus c).
Proof.
  apply law_bind; [apply condition_only|]. intros _.
  apply (fuel_loop_only (λ n, count_minus_for n c)). intros n. apply count_minus_for_only.
Qed.

Lemma parse_hunk_for_only n : ∀ c, law wf only_filename any_end (parse_hunk_for n c).
Proof.
  induction n as [|n IH]; intros c; [apply out_of_fuel_only|].
  cbn [parse_hunk_for]. apply law_bind; [apply next_line_only|].
  intros [[[|first t]|]|]; try by apply law_ret.
  { by apply law_raise. }
  repeat apply law_if; try apply IH.
  - apply law_bind; [apply added_append_only|]. intros _. apply IH.
  - apply law_bind; [apply deleted_append_only|]. intros _.
    apply law_bind; [apply count_minus_only|]. intros _. apply IH.
Qed.

Lemma parse_hunk_only ln : law wf only_filename any_end (parse_hunk ln).
Proof.
  apply law_bind; [apply law_only_filename, parse_numbers_law|].
  intros [? plus]. apply law_bind; [apply condition_only|]. intros _.
  apply (fuel_loop_only (λ n, parse_hunk_for n (fst plus))).
  intros n. apply parse_hunk_for_only.
Qed.

Lemma parse_hunks_for_only n : law wf only_filename any_end (parse_hunks_for n).
Proof.
  induction n as [|n IH]; [apply out_of_fuel_only|].
  cbn [parse_hunks_for]. apply law_bind; [apply next_line_only|].
  intros [[ln|]|]; try by apply law_ret.
  apply law_bind; [apply parse_hunk_only|]. intros _. apply IH.
Qed.

Lemma parse_hunks_only ln : law wf only_filename any_end (parse_hunks ln).
Proof.
  apply law_bind; [apply condition_only|]. intros _.
  apply (fuel_loop_only parse_hunks_for). apply parse_hunks_for_only.
Qed.

Lemma insert_only self v :
  only_filename self (set_results (<[filename self := v]> (results self)) self).
Proof. split; [done|]. intros k Hk. simpl. by rewrite lookup_insert_ne. Qed.

Lemma skip_new_file_only : law wf only_filename any_end skip_new_file.
Proof.
  unfold skip_new_file.
  apply law_bind; [apply law_only_filename, skip_useless_law|]. intros _.
  apply law_bind.
  - apply law_only_filename.
    apply law_bind; [apply is_binary_law|]. intros b.
    apply law_if; [apply skip_binary_law|].
    apply law_bind; [apply line_law|]. intros x.
    apply law_if; [|by apply law_ret].
    apply law_bind; [apply parse_numbers_law|]. intros [? plus].
    apply move_law.
  - intros _ self Hwf. destruct (String.eqb (filename self) ""); simpl;
      split_and!; try done. apply insert_only.
Qed.

Lemma record_changes_only : law wf only_filename any_end record_changes.
Proof.
  intros self Hwf. unfold record_changes.
  destruct (truthy (added self) || truthy (deleted self)); [|by split_and!].
  destruct (added self) as [a|], (deleted self) as [d|]; try by split_and!.
  destruct (get_touched a d) as [[a' d'] t]. simpl. split_and!; try done.
  apply insert_only.
Qed.

(** [get_changes] writes the result map at [filename] at most. *)
Lemma get_changes_only : law wf only_filename any_end get_changes.
Proof.
  apply law_bind; [|intros _; apply record_changes_only].
  apply law_bind; [apply next_line_only|].
  intros [[ln|]|]; [|by apply law_raise|by apply law_ret].
  apply law_if; [apply skip_new_file_only|].
  apply law_if; [apply law_only_filename, skip_deleted_file_law|].
  apply law_bind; [apply law_only_filename, skip_useless_law|]. intros _.
  apply law_bind; [apply law_only_filename, line_law|]. intros x.
  apply law_if; [apply parse_hunks_only | by apply law_ret].
Qed.

Section Interesting.

Variable interesting : string → bool.

Lemma get_files_results self r self' :
  get_files interesting self = (r, self') → results self' = results self.
Proof.
  unfold get_files, bind, line.
  destruct (lines self !! index self) as [ln|]; [|by intros [= _ <-]].
  destruct (Py.split " " ln !! 2%nat); [|by intros [= _ <-]].
  destruct (Py.split " " ln !! 3%nat); [|by intros [= _ <-]].
  destruct (interesting _); by intros [= _ <-].
Qed.

Lemma keys_same self self' :
  results self' = results self → keys_interesting interesting self → keys_interesting interesting self'.
Proof. unfold keys_interesting. by intros ->. Qed.

Lemma keys_only self self' :
  only_filename self self' → interesting (filename self) = true →
  keys_interesting interesting self → keys_interesting interesting self'.
Proof.
  intros [_ Hr] Hint HJ k Hk.
  destruct (decide (k = filename self)) as [->|Hne]; [done|].
  apply HJ. by rewrite <- Hr.
Qed.

Lemma parse_while_keys n : ∀ self,
  wf self → keys_interesting interesting self →
  keys_interesting interesting (parse_while interesting n self).2.
Proof.
  induction n as [|n IH]; intros self Hwf HJ; [done|].
  cbn [parse_while]. unfold bind at 1.
  destruct (next_diff_law self Hwf) as (_ & [_ Hrec1] & Hwf1).
  destruct (next_diff self) as [[more|e|] s1]; simpl in Hrec1, Hwf1;
    destruct Hrec1 as (_ & _ & Hr1 & _);
    [|by apply (keys_same self)..].
  assert (keys_interesting interesting s1) as HJ1 by (by apply (keys_same self)).
  destruct more; [|done]. unfold bind at 1.
  destruct (get_files interesting s1) as [r2 s2] eqn:Hfiles.
  assert (keys_interesting interesting s2) as HJ2.
  { apply (keys_same s1); [|done]. by apply (get_files_results _ _ _ Hfiles). }
  destruct r2 as [b|e|]; [|done..].
  destruct (get_files_spec _ _ _ _ Hfiles) as (_ & _ & Hr2 & Hint & Hwf2 & _).
  specialize (Hwf2 Hwf1).
  unfold bind at 1.
  destruct (move_law 1 s2 Hwf2) as (_ & [_ Hrec3] & Hwf3).
  destruct b.
  - unfold bind at 1.
    destruct (move 1 s2) as [[[]|e|] s3]; simpl in Hrec3, Hwf3;
      destruct Hrec3 as (_ & _ & Hr3 & Hf3 & _);
      [|by apply (keys_same s2)..].
    destruct (get_changes_only s3 Hwf3) as (_ & Honly & Hwf4).
    assert (keys_interesting interesting (get_changes s3).2) as HJ4.
    { apply (keys_only s3); [done| |by apply (keys_same s2)].
      rewrite Hf3. by apply Hint. }
    destruct (get_changes s3) as [[[]|e|] s4]; simpl in *; [|done..].
    by apply IH.
  - destruct (move 1 s2) as [[[]|e|] s3]; simpl in Hrec3, Hwf3;
      destruct Hrec3 as (_ & _ & Hr3 & _);
      [|by apply (keys_same s2)..].
    apply IH; [done|]. by apply (keys_same s2).
Qed.

(** X18: a path that the interest predicate refuses is never a key of the
    map that [parse] returns. *)
Theorem parse_keys_interesting lines_gen changeset m log :
  parse interesting (set_changeset changeset (Patch_init lines_gen)) = (Returns m, log) →
  ∀ k, is_Some (m !! k) → interesting k = true.
Proof.
  set (p := set_changeset changeset (Patch_init lines_gen)).
  pose proof (parse_while_keys (fuel p) p (wf_init lines_gen changeset)) as HJ.
  unfold parse. destruct (parse_while interesting (fuel p) p) as [[[]|e|] s'];
    simpl in HJ.
  - intros [= <- _]. apply HJ. intros k Hk. subst p. cbn in Hk. rewrite lookup_empty in Hk. by destruct Hk.
  - destruct e; try done.
    intros [= <- _]. apply HJ. intros k Hk. subst p. cbn in Hk. rewrite lookup_empty in Hk. by destruct Hk.
  - done.
Qed.

End Interesting.

Lemma parse_keys_interesting_witness :
  parse only_x_cpp (set_changeset "" (Patch_init [three_files_patch]))
  = (Returns {["x.cpp" := Modified [2] [] []]}, [])
  ∧ is_Some (({["x.cpp" := Modified [2] [] []]} : gmap string FileChange) !! "x.cpp")
  ∧ only_x_cpp "x.cpp" = true.
Proof.
  assert (parse only_x_cpp (set_changeset "" (Patch_init [three_files_patch]))
          = (Returns {["x.cpp" := Modified [2] [] []]}, [])) as Hrun
    by (vm_compute; reflexivity).
  assert (is_Some (({["x.cpp" := Modified [2] [] []]} : gmap string FileChange) !! "x.cpp"))
    as Hkey by (eexists; vm_compute; reflexivity).
  split_and!; [exact Hrun | exact Hkey |].
  exact (parse_keys_interesting only_x_cpp [three_files_patch] "" _ [] Hrun "x.cpp" Hkey).
Defined.

End Keys.

(** ** The skipping loops *)

Section Skips.

Implicit Types (self : Patch) (pre post rest : list string) (x p : string).

(** The loop [for line in self.get_lines: if line is None: break] under the
    condition [c], up to the first line that [c] refuses. *)
Lemma skip_lines_stops (c : string → bool) pre : ∀ n self p post cs,
  wf self → next_from self = pre ++ p :: post →
  conditions self = c :: cs →
  Forall (λ x, c x = true) pre → c p = false →
  (List.length pre < n)%nat →
  ∃ self', skip_lines n self = (Ok (), self')
    ∧ get_lines self' = AtNone ∧ upcoming self' = p :: post
    ∧ conditions self' = cs ∧ wf self' ∧ same_record self self'.
Proof.
  induction pre as [|x pre IH]; intros n self p post cs Hwf Hnext Hcs Hpre Hp Hn;
    (destruct n as [|n]; [simpl in Hn; lia|]); simpl in *; unfold bind.
  - pose proof (next_line_spec self p post Hwf Hnext) as Hs.
    unfold _check in Hs. rewrite Hcs, Hp in Hs.
    destruct Hs as (s' & -> & ? & ? & Hcs' & ? & ?).
    exists s'. split_and!; try done.
  - apply Forall_cons in Hpre as [Hx Hpre].
    pose proof (next_line_spec self x _ Hwf Hnext) as Hs.
    unfold _check in Hs. rewrite Hcs, Hx in Hs.
    destruct Hs as (s1 & -> & Hg1 & Hu1 & Hcs1 & Hwf1 & Hrec1).
    destruct (IH n s1 p post cs) as (s' & -> & ? & ? & ? & ? & ?); try done.
    { by apply (next_from_AtLine s1 x). }
    { lia. }
    exists s'. split_and!; try done. by eapply same_record_trans.
Qed.

(** The same loop when [c] takes every line that is left. *)
Lemma skip_lines_end (c : string → bool) pre : ∀ n self cs,
  wf self → next_from self = pre →
  conditions self = c :: cs →
  Forall (λ x, c x = true) pre →
  (List.length pre < n)%nat →
  ∃ self', skip_lines n self = (Ok (), self')
    ∧ get_lines self' = Finished ∧ same_record self self'.
Proof.
  induction pre as [|x pre IH]; intros n self cs Hwf Hnext Hcs Hpre Hn;
    (destruct n as [|n]; [simpl in Hn; lia|]); simpl in *; unfold bind.
  - destruct (next_line_end self Hwf Hnext) as (s' & -> & ? & ? & ?).
    by exists s'.
  - apply Forall_cons in Hpre as [Hx Hpre].
    pose proof (next_line_spec self x _ Hwf Hnext) as Hs.
    unfold _check in Hs. rewrite Hcs, Hx in Hs.
    destruct Hs as (s1 & -> & Hg1 & Hu1 & Hcs1 & Hwf1 & Hrec1).
    destruct (IH n s1 cs) as (s' & -> & ? & ?); try done.
    { by apply (next_from_AtLine s1 x). }
    { lia. }
    exists s'. split_and!; try done. by eapply same_record_trans.
Qed.

Lemma skip_loop_stops (c : string → bool) self pre p post :
  wf self → next_from self = pre ++ p :: post →
  Forall (λ x, c x = true) pre → c p = false →
  ∃ self', (_condition c;; λ self, skip_lines (fuel self) self) self = (Ok (), self')
    ∧ get_lines self' = AtNone ∧ upcoming self' = p :: post
    ∧ conditions self' = conditions self ∧ wf self' ∧ same_record self self'.
Proof.
  intros Hwf Hnext Hpre Hp. unfold bind, _condition.
  set (s1 := set_conditions _ self).
  assert (wf s1) as Hwf1 by done.
  destruct (skip_lines_stops c pre (fuel s1) s1 p post (conditions self))
    as (s' & -> & Hg & Hu & Hcs & Hwf' & Hrec); try done.
  { pose proof (length_next_from_fuel s1 Hwf1) as Hlen.
    change (next_from s1) with (next_from self) in Hlen.
    rewrite Hnext, length_app in Hlen. lia. }
  by exists s'.
Qed.

Lemma skip_loop_end (c : string → bool) self :
  wf self → Forall (λ x, c x = true) (next_from self) →
  ∃ self', (_condition c;; λ self, skip_lines (fuel self) self) self = (Ok (), self')
    ∧ get_lines self' = Finished ∧ same_record self self'.
Proof.
  intros Hwf Hpre. unfold bind, _condition.
  set (s1 := set_conditions _ self).
  assert (wf s1) as Hwf1 by done.
  destruct (skip_lines_end c (next_from self) (fuel s1) s1 (conditions self))
    as (s' & -> & Hg & Hrec); try done.
  { apply (length_next_from_fuel s1 Hwf1). }
  by exists s'.
Qed.

(** X19: [skip_useless] stops on the first line to come that is none of
    the five kinds it skips: [line] gives that line, it is still to come
    for the next loop, and the conditions, the anchors and the results are
    as before the call. *)
Theorem skip_useless_stops self pre p post :
  wf self → next_from self = pre ++ p :: post →
  Forall (λ x, useless x = true) pre → useless p = false →
  ∃ self', skip_useless self = (Ok (), self')
    ∧ line self' = (Ok p, self') ∧ next_from self' = p :: post
    ∧ conditions self' = conditions self ∧ same_record self self'.
Proof.
  intros Hwf Hnext Hpre Hp.
  destruct (skip_loop_stops useless self pre p post)
    as (s' & Hrun & Hg & Hu & Hcs & Hwf' & Hrec); try done.
  exists s'. split_and!; try done.
  - apply (line_upcoming s' p post); auto.
  - by rewrite (next_from_AtNone s' Hg).
Qed.

Lemma skip_useless_stops_witness :
  ∃ self', skip_useless at_section_header
           = (Ok (), self')
    ∧ line self' = (Ok "@@ -1 +1 @@", self')
    ∧ next_from self' = "@@ -1 +1 @@" :: ["+y"]
    ∧ conditions self' = conditions at_section_header
    ∧ same_record at_section_header self'.
Proof.
  apply (skip_useless_stops at_section_header ["index 1..2"; "--- a/x"; "+++ b/x"] "@@ -1 +1 @@" ["+y"]).
  - vm_compute. split; [lia | reflexivity].
  - vm_compute. reflexivity.
  - repeat constructor.
  - reflexivity.
Defined.

(** X20: [skip_binary] stops on the first empty line to come: the lines of
    the binary patch before it are passed over, [line] gives the empty
    line, and the anchors and the results are as before the call. *)
Theorem skip_binary_stops self pre post :
  wf self → next_from self = pre ++ "" :: post →
  Forall (λ x, x ≠ "") pre →
  ∃ self', skip_binary self = (Ok (), self')
    ∧ line self' = (Ok "", self') ∧ next_from self' = "" :: post
    ∧ conditions self' = conditions self ∧ same_record self self'.
Proof.
  intros Hwf Hnext Hpre.
  destruct (skip_loop_stops nonempty self pre "" post)
    as (s' & Hrun & Hg & Hu & Hcs & Hwf' & Hrec); try done.
  { eapply Forall_impl; [exact Hpre|]. intros x Hx. unfold nonempty.
    by destruct (String.eqb_spec x ""). }
  exists s'. split_and!; try done.
  - apply (line_upcoming s' "" post); auto.
  - by rewrite (next_from_AtNone s' Hg).
Qed.

Lemma skip_binary_stops_witness :
  ∃ self', skip_binary at_binary_patch
           = (Ok (), self')
    ∧ line self' = (Ok "", self')
    ∧ next_from self' = "" :: ["diff --git a/y b/y"]
    ∧ conditions self' = conditions at_binary_patch
    ∧ same_record at_binary_patch self'.
Proof.
  apply (skip_binary_stops at_binary_patch ["literal 5"; "zcmZ"] ["diff --git a/y b/y"]).
  - vm_compute. split; [lia | reflexivity].
  - vm_compute. reflexivity.
  - repeat constructor; discriminate.
Defined.

(** X21: a binary patch that no empty line closes takes the rest of the
    input: [skip_binary] reads to the end, and the generator is exhausted. *)
Theorem skip_binary_to_end self :
  wf self → Forall (λ x, x ≠ "") (next_from self) →
  ∃ self', skip_binary self = (Ok (), self')
    ∧ get_lines self' = Finished ∧ next_line self' = (Ok None, self')
    ∧ same_record self self'.
Proof.
  intros Hwf Hpre.
  destruct (skip_loop_end nonempty self) as (s' & Hrun & Hg & Hrec); try done.
  { eapply Forall_impl; [exact Hpre|]. intros x Hx. unfold nonempty.
    by destruct (String.eqb_spec x ""). }
  exists s'. split_and!; try done. by apply finished_next_line.
Qed.

Lemma skip_binary_to_end_witness :
  ∃ self', skip_binary at_open_binary_patch
           = (Ok (), self')
    ∧ get_lines self' = Finished ∧ next_line self' = (Ok None, self')
    ∧ same_record at_open_binary_patch self'.
Proof.
  apply (skip_binary_to_end at_open_binary_patch).
  - vm_compute. split; [lia | reflexivity].
  - vm_compute. repeat constructor; discriminate.
Defined.

End Skips.

(** ** The paths of a section *)

Section Paths.

Implicit Types (self : Patch) (t s old new tail : string).

Lemma split_token sep t s :
  has_char sep t = false →
  Py.split sep (t +:+ String sep s) = t :: Py.split sep s.
Proof.
  induction t as [|c t IH]; intros Ht.
  - change ("" +:+ String sep s) with (String sep s). cbn [Py.split].
    by rewrite Ascii.eqb_refl.
  - rewrite append_cons. cbn [Py.split has_char] in *.
    apply orb_false_iff in Ht as [Hc Ht]. rewrite Ascii.eqb_sym, Hc.
    by rewrite (IH Ht).
Qed.

Lemma split_one sep t : has_char sep t = false → Py.split sep t = [t].
Proof.
  induction t as [|c t IH]; intros Ht; [done|].
  cbn [Py.split has_char] in *.
  apply orb_false_iff in Ht as [Hc Ht]. rewrite Ascii.eqb_sym, Hc.
  by rewrite (IH Ht).
Qed.

Lemma split_diff_header old new tail :
  has_char " " old = false → has_char " " new = false → ends_token tail = true →
  ∃ more, Py.split " " (diff_header old new tail) = "diff" :: "--git" :: old :: new :: more.
Proof.
  intros Hold Hnew Htail. unfold diff_header.
  change ("diff --git " +:+ old +:+ " " +:+ new +:+ tail)
    with ("diff" +:+ String " " ("--git" +:+ String " " (old +:+ String " " (new +:+ tail)))).
  rewrite !split_token by done.
  destruct tail as [|c tail].
  - rewrite append_empty_r, split_one by done. by exists [].
  - cbn [ends_token] in Htail. apply Ascii.eqb_eq in Htail as ->.
    rewrite split_token by done. by eexists.
Qed.

(** X22: on a header line [diff --git old new ...], where [old] and [new]
    hold no space and [new] ends the line or has a space after it,
    [get_files] takes [new], without a leading [b/], for the path: it asks
    the filter about that path, returns its answer, sets [filename] to the
    path, or to the empty string when the filter refuses it, and empties
    the two anchor lists.  The path [old] plays no part, and a path with a
    space in it is cut at the space. *)
Theorem get_files_paths (interesting : string → bool) self old new tail :
  line self = (Ok (diff_header old new tail), self) →
  has_char " " old = false → has_char " " new = false → ends_token tail = true →
  get_files interesting self
  = let path := if Py.startswith new "b/" then Py.drop 2 new else new in
    (Ok (interesting path),
     set_filename (if interesting path then path else "")
       (set_deleted (Some []) (set_added (Some []) self))).
Proof.
  intros Hline Hold Hnew Htail. unfold get_files, bind. rewrite Hline.
  destruct (split_diff_header old new tail Hold Hnew Htail) as [more ->].
  cbn [lookup list_lookup]. by destruct (interesting _).
Qed.

Lemma get_files_paths_witness :
  get_files every_file at_spaced_header
  = let path := if Py.startswith "file.c" "b/" then Py.drop 2 "file.c" else "file.c" in
    (Ok (every_file path),
     set_filename (if every_file path then path else "")
       (set_deleted (Some []) (set_added (Some []) at_spaced_header))).
Proof.
  apply (get_files_paths every_file at_spaced_header "a/my" "file.c" " b/my file.c");
    reflexivity.
Defined.

End Paths.

(** ** The section of a new file *)

Section NewFiles.

Implicit Types (self : Patch) (pre post : list string) (a hrest : string)
  (b d : option string).

Lemma hunk_header_at a b (c0 : string) d hrest :
  ∃ t, hunk_header a b c0 d hrest = String "@" (String "@" t).
Proof. by eexists. Qed.

(** [parse_numbers] without an argument, on a cursor that is on a
    well-formed hunk header. *)
Lemma parse_numbers_line a b (c0 : string) d hrest self :
  number a = true → optional_number b = true →
  number c0 = true → optional_number d = true →
  line self = (Ok (hunk_header a b c0 d hrest), self) →
  parse_numbers None self
  = (Ok ((Py.int a, count_value b), (Py.int c0, count_value d)), self).
Proof.
  intros Ha Hb Hc Hd Hline. unfold parse_numbers, bind. rewrite Hline.
  rewrite (search_hunk_header a b c0 d hrest Ha Hb Hc Hd). unfold ret.
  destruct (number_inv a Ha) as (a0 & a' & -> & _ & _).
  destruct (number_inv c0 Hc) as (c1 & c' & -> & _ & _).
  destruct b as [ds|], d as [ds'|]; cbn [optional_number] in *;
    try (destruct (number_inv ds Hb) as (? & ? & -> & _ & _));
    try (destruct (number_inv ds' Hd) as (? & ? & -> & _ & _)); reflexivity.
Qed.

(** X23: in the section of a new file whose hunk header comes after lines
    that [skip_useless] passes over, [skip_new_file] returns and records
    the path as new, but it does not skip the lines of the hunk: the
    generator is suspended at its [yield None] when [move] is called, the
    count read from the header is dropped, and the header itself is
    yielded again, so that the cursor is still on it. *)
Theorem skip_new_file_keeps_hunk self pre a b (c0 : string) d hrest post :
  wf self → conditions self = [] →
  next_from self = pre ++ hunk_header a b c0 d hrest :: post →
  Forall (λ x, useless x = true) pre →
  number a = true → optional_number b = true →
  number c0 = true → optional_number d = true →
  ∃ self', skip_new_file self = (Ok (), self')
    ∧ get_lines self' = AtLine
    ∧ upcoming self' = hunk_header a b c0 d hrest :: post
    ∧ results self' = (if String.eqb (filename self) "" then results self
                       else <[filename self := New]> (results self))
    ∧ added self' = added self ∧ deleted self' = deleted self.
Proof.
  intros Hwf Hcs Hnext Hpre Ha Hb Hc Hd.
  set (hdr := hunk_header a b c0 d hrest) in *.
  destruct (hunk_header_at a b c0 d hrest) as [t Hat]. fold hdr in Hat.
  destruct (skip_loop_stops useless self pre hdr post)
    as (s1 & Hrun & Hg1 & Hu1 & Hcs1 & Hwf1 & Hrec1); try done.
  assert (skip_useless self = (Ok (), s1)) as Hskip by exact Hrun.
  assert (line s1 = (Ok hdr, s1)) as Hline.
  { apply (line_upcoming s1 hdr post); auto. }
  pose proof (send_spec (Some (Z.to_nat (count_value d))) s1 Hwf1) as Hs.
  rewrite Hg1 in Hs. specialize (Hs ltac:(done)).
  unfold shift in Hs. rewrite Hg1, Hu1 in Hs. simpl in Hs.
  unfold delivers, _check in Hs. rewrite Hcs1, Hcs in Hs.
  destruct Hs as (s2 & Hsend & Hg2 & Hu2 & _ & Hwf2 & Hrec2).
  assert (same_record self s2) as Hrec by (by eapply same_record_trans).
  destruct Hrec as (Ha2 & Hd2 & Hr2 & Hf2 & _).
  assert (String.eqb hdr "GIT binary patch" = false) as Hbin by (by rewrite Hat).
  assert (Py.startswith hdr "@" = true) as Hstart by (by rewrite Hat).
  exists (if String.eqb (filename s2) "" then s2
          else set_results (<[filename s2 := New]> (results s2)) s2).
  split.
  - unfold skip_new_file. unfold bind at 1. rewrite Hskip.
    unfold bind at 1. unfold bind at 1. unfold is_binary, bind at 1.
    rewrite Hline. unfold ret. rewrite Hbin.
    unfold bind at 1. rewrite Hline, Hstart. unfold bind at 1.
    rewrite (parse_numbers_line a b c0 d hrest s1 Ha Hb Hc Hd Hline).
    cbn [snd]. unfold move. rewrite Hsend.
    by destruct (String.eqb (filename s2) "").
  - rewrite Hf2. destruct (String.eqb (filename self) ""); simpl;
      by rewrite ?Hr2.
Qed.

Lemma skip_new_file_keeps_hunk_witness :
  ∃ self', skip_new_file at_new_file = (Ok (), self')
    ∧ get_lines self' = AtLine
    ∧ upcoming self' = hunk_header "0" (Some "0") "1" (Some "2") "" :: ["+a"; "+b"]
    ∧ results self' = (if String.eqb (filename at_new_file) "" then results at_new_file
                       else <[filename at_new_file := New]> (results at_new_file))
    ∧ added self' = added at_new_file ∧ deleted self' = deleted at_new_file.
Proof.
  apply (skip_new_file_keeps_hunk at_new_file ["--- /dev/null"; "+++ b/n.cpp"]
           "0" (Some "0") "1" (Some "2") "" ["+a"; "+b"]).
  - vm_compute. split; [lia | reflexivity].
  - reflexivity.
  - vm_compute. reflexivity.
  - repeat constructor.
  - reflexivity.
  - reflexivity.
  - reflexivity.
  - reflexivity.
Defined.

End NewFiles.

(** ** The lines of a hunk *)

Section Hunks.

Implicit Types (self : Patch) (body ms tail rest : list string) (c k : Z)
  (x p : string).

Lemma is_minus_check x : is_minus x = true → check x = true.
Proof. intros Hx. by destruct (startswith_char _ _ Hx) as [t ->]. Qed.

Lemma not_check_not_minus x : check x = false → is_minus x = false.
Proof.
  intros Hx. destruct (is_minus x) eqn:Hm; [|done].
  by rewrite (is_minus_check x Hm) in Hx.
Qed.

Lemma is_minus_false_first f t : is_minus (String f t) = false → Ascii.eqb f "-" = false.
Proof.
  unfold is_minus. rewrite (Ascii.eqb_sym f). destruct t; cbn [Py.startswith];
    by rewrite andb_true_r.
Qed.

(** A list begins with a longest run of deleted lines. *)
Lemma minus_run_split body :
  ∃ ms rest, body = ms ++ rest ∧ Forall (λ x, is_minus x = true) ms
    ∧ refused is_minus rest.
Proof.
  induction body as [|x body (ms & rest & -> & Hms & Hrest)].
  - by exists [], [].
  - destruct (is_minus x) eqn:Hx.
    + exists (x :: ms), rest. split_and!; [done|by constructor|done].
    + by exists [], (x :: ms ++ rest).
Qed.

Lemma run_anchors_cons k x ms :
  run_anchors k (x :: ms) = get_signed_count x k :: run_anchors (k + 1) ms.
Proof.
  unfold run_anchors. simpl. rewrite Z.add_0_r. f_equal.
  apply imap_ext. intros i y _. simpl. f_equal. lia.
Qed.

(** Outside a run the number kept for the run plays no part. *)
Lemma hunk_anchors_no_run c k body :
  refused is_minus body → hunk_anchors c (Some k) body = hunk_anchors c None body.
Proof.
  destruct body as [|[|f t] body]; [done..|]. cbn [refused hunk_anchors].
  intros Hf%is_minus_false_first. by rewrite Hf.
Qed.

(** The pass over a run of deleted lines. *)
Lemma hunk_anchors_run ms : ∀ c k rest,
  Forall (λ x, is_minus x = true) ms → refused is_minus rest →
  hunk_anchors c (Some k) (ms ++ rest)
  = ((hunk_anchors c None rest).1, run_anchors k ms ++ (hunk_anchors c None rest).2).
Proof.
  induction ms as [|m ms IH]; intros c k rest Hms Hrest.
  - simpl. rewrite (hunk_anchors_no_run c k rest Hrest).
    by destruct (hunk_anchors c None rest).
  - apply Forall_cons in Hms as [Hm Hms].
    destruct (startswith_char _ _ Hm) as [t ->].
    rewrite run_anchors_cons. cbn [app hunk_anchors].
    change (Ascii.eqb "-" " ") with false. change (Ascii.eqb "-" "+") with false.
    change (Ascii.eqb "-" "-") with true. cbv iota. cbn [default].
    unfold id. by rewrite (IH c (k + 1) rest Hms Hrest).
Qed.

Lemma refused_check_minus tail : refused check tail → refused is_minus tail.
Proof. destruct tail; [done|]. apply not_check_not_minus. Qed.

Lemma refused_app (cond : string → bool) body tail :
  refused cond body → (body = [] → refused cond tail) → refused cond (body ++ tail).
Proof. destruct body; simpl; auto. Qed.

(** The loop of [count_minus] on a run of deleted lines, up to the line
    that ends the run or to the end of the input. *)
Lemma count_minus_for_tail ms : ∀ n c self tail cs d,
  wf self → next_from self = ms ++ tail →
  conditions self = is_minus :: cs →
  Forall (λ x, is_minus x = true) ms → refused is_minus tail →
  deleted self = Some d → (List.length ms < n)%nat →
  ∃ self', count_minus_for n c self = (Ok (), self')
    ∧ stopped tail cs self'
    ∧ deleted self' = Some (d ++ run_anchors c ms)
    ∧ added self' = added self ∧ results self' = results self
    ∧ filename self' = filename self.
Proof.
  induction ms as [|m ms IH]; intros n c self tail cs d Hwf Hnext Hcs Hms Htail Hd Hn;
    (destruct n as [|n]; [simpl in Hn; lia|]); simpl in *; unfold bind.
  - unfold run_anchors. simpl. rewrite app_nil_r. destruct tail as [|p rest].
    + destruct (next_line_end self Hwf Hnext) as (s' & -> & Hg & ? & (? & Hd' & ? & ? & _)).
      exists s'. unfold stopped, wf, next_from, shift, upcoming. rewrite Hg.
      split_and!; try done; congruence.
    + pose proof (next_line_spec self p rest Hwf Hnext) as Hs.
      unfold _check in Hs. simpl in Htail. rewrite Hcs, Htail in Hs.
      destruct Hs as (s' & -> & Hg & Hu & Hcs' & ? & (? & ? & ? & ? & _)).
      exists s'. unfold stopped. rewrite (next_from_AtNone s' Hg).
      split_and!; try done; congruence.
  - apply Forall_cons in Hms as [Hm Hms].
    pose proof (next_line_spec self m _ Hwf Hnext) as Hs.
    unfold _check in Hs. rewrite Hcs, Hm in Hs.
    destruct Hs as (s1 & -> & Hg1 & Hu1 & Hcs1 & Hwf1 & (Ha1 & Hd1 & Hr1 & Hf1 & _)).
    unfold deleted_append. rewrite Hd1, Hd.
    set (s2 := set_deleted _ s1).
    destruct (IH n (c + 1) s2 tail cs (d ++ [get_signed_count m c]))
      as (s' & -> & ? & Hd' & Ha' & Hr' & Hf'); try done.
    { by apply (next_from_AtLine s2 m). }
    { lia. }
    exists s'. split_and!; try done;
      [|rewrite ?Ha', ?Hr', ?Hf'; unfold s2; simpl; congruence..].
    by rewrite Hd', <- app_assoc, run_anchors_cons.
Qed.

Lemma count_minus_tail c self ms tail d :
  wf self → next_from self = ms ++ tail →
  Forall (λ x, is_minus x = true) ms → refused is_minus tail →
  deleted self = Some d →
  ∃ self', count_minus c self = (Ok (), self')
    ∧ stopped tail (conditions self) self'
    ∧ deleted self' = Some (d ++ run_anchors c ms)
    ∧ added self' = added self ∧ results self' = results self
    ∧ filename self' = filename self.
Proof.
  intros Hwf Hnext Hms Htail Hd. unfold count_minus, bind, _condition.
  set (s1 := set_conditions _ self).
  assert (wf s1) as Hwf1 by done.
  apply (count_minus_for_tail ms (fuel s1) c s1 tail (conditions self) d); try done.
  pose proof (length_next_from_fuel s1 Hwf1) as Hlen.
  change (next_from s1) with (next_from self) in Hlen.
  rewrite Hnext, length_app in Hlen. lia.
Qed.

(** The loop of [parse_hunk] when no line of the hunk is left. *)
Lemma parse_hunk_for_nil n c self tail cs :
  wf self → next_from self = tail →
  (tail ≠ [] → conditions self = check :: cs) → refused check tail →
  ∃ self', parse_hunk_for (S n) c self = (Ok (), self')
    ∧ stopped tail cs self' ∧ same_record self self'.
Proof.
  intros Hwf Hnext Hcs Htail. cbn [parse_hunk_for]. unfold bind.
  destruct tail as [|p rest].
  - destruct (next_line_end self Hwf Hnext) as (s' & -> & Hg & ? & ?).
    exists s'. unfold stopped, wf, next_from, shift, upcoming. rewrite Hg.
    by split_and!.
  - pose proof (next_line_spec self p rest Hwf Hnext) as Hs.
    unfold _check in Hs. simpl in Htail. rewrite Hcs, Htail in Hs by done.
    destruct Hs as (s' & -> & Hg & Hu & Hcs' & ? & ?).
    exists s'. unfold stopped. rewrite (next_from_AtNone s' Hg).
    by split_and!.
Qed.

(** The loop of [parse_hunk] over the lines [body] of a hunk: it appends
    the anchors of the pass [hunk_anchors] and stops after [body]. *)
Lemma parse_hunk_for_body : ∀ (len : nat) body, (List.length body <= len)%nat →
  ∀ n c self tail cs a d,
  wf self → next_from self = body ++ tail →
  (body ++ tail ≠ [] → conditions self = check :: cs) →
  Forall (λ x, check x = true) body → refused check tail →
  added self = Some a → deleted self = Some d → (List.length body < n)%nat →
  ∃ self', parse_hunk_for n c self = (Ok (), self')
    ∧ stopped tail cs self'
    ∧ added self' = Some (a ++ (hunk_anchors c None body).1)
    ∧ deleted self' = Some (d ++ (hunk_anchors c None body).2)
    ∧ results self' = results self ∧ filename self' = filename self.
Proof.
  induction len as [|len IH]; intros body Hlen n c self tail cs a d
    Hwf Hnext Hcs Hbody Htail Ha Hd Hn;
    (destruct n as [|n]; [lia|]);
    (destruct body as [|x body];
     [destruct (parse_hunk_for_nil n c self tail cs)
        as (s' & -> & ? & (Ha' & Hd' & ? & ? & _)); try done;
      exists s'; simpl; rewrite !app_nil_r; split_and!; try done; congruence|]).
  { simpl in Hlen. lia. }
  simpl in Hlen, Hn.
  apply Forall_cons in Hbody as [Hx Hbody].
  specialize (Hcs ltac:(done)).
  pose proof (next_line_spec self x _ Hwf Hnext) as Hs.
  unfold _check in Hs. rewrite Hcs, Hx in Hs.
  destruct Hs as (s1 & Hs1 & Hg1 & Hu1 & Hcs1 & Hwf1 & (Ha1 & Hd1 & Hr1 & Hf1 & _)).
  assert (next_from s1 = body ++ tail) as Hn1
    by apply (next_from_AtLine s1 x _ Hg1 Hu1).
  cbn [parse_hunk_for]. unfold bind at 1. rewrite Hs1.
  destruct x as [|f t]; [done|].
  cbn [check FIRST] in Hx. cbn [hunk_anchors].
  destruct (Ascii.eqb_spec f " ") as [->|Hsp].
  - (* a line of context *)
    destruct (IH body ltac:(lia) n (c + 1) s1 tail cs a d)
      as (s' & -> & ? & Ha' & Hd' & Hr' & Hf'); try done; try congruence; [lia|].
    exists s'. split_and!; try done; congruence.
  - destruct (Ascii.eqb_spec f "+") as [->|Hpl].
    + (* an added line *)
      unfold bind at 1. unfold added_append at 1. rewrite Ha1, Ha.
      set (s2 := set_added _ s1).
      destruct (IH body ltac:(lia) n (c + 1) s2 tail cs
                  (a ++ [get_signed_count (String "+" t) c]) d)
        as (s' & -> & ? & Ha' & Hd' & Hr' & Hf'); try done;
        try (unfold s2; simpl; congruence); [lia|].
      exists s'. cbn [fst snd]. split_and!; try done;
        [by rewrite Ha', <- app_assoc
        |rewrite ?Hd', ?Hr', ?Hf'; unfold s2; simpl; congruence..].
    + destruct (Ascii.eqb_spec f "-") as [->|Hmi];
        [|apply Ascii.eqb_neq in Hsp, Hpl, Hmi; unfold FIRST in Hx;
          by rewrite Hsp, Hpl, Hmi in Hx].
      (* a run of deleted lines *)
      unfold bind at 1. unfold deleted_append at 1. rewrite Hd1, Hd.
      set (s2 := set_deleted _ s1).
      destruct (minus_run_split body) as (ms & rest & -> & Hms & Hrest).
      apply Forall_app in Hbody as [_ Hbody].
      rewrite <- app_assoc in Hn1.
      assert (refused is_minus (rest ++ tail)) as Hrt.
      { apply refused_app; [done|]. intros _. by apply refused_check_minus. }
      unfold bind at 1.
      destruct (count_minus_tail (c + 1) s2 ms (rest ++ tail)
                  (d ++ [get_signed_count (String "-" t) c]))
        as (s3 & -> & (Hwf3 & Hn3 & Hend3) & Hd3 & Ha3 & Hr3 & Hf3); try done.
      rewrite length_app in Hlen, Hn.
      destruct (IH rest ltac:(lia) n c s3 tail cs a
                  ((d ++ [get_signed_count (String "-" t) c])
                     ++ run_anchors (c + 1) ms))
        as (s' & -> & ? & Ha' & Hd' & Hr' & Hf'); try done;
        try (rewrite ?Ha3; unfold s2; simpl; congruence).
      { intros Hne. destruct (rest ++ tail); [done|]. destruct Hend3 as [_ ->].
        unfold s2. simpl. congruence. }
      { lia. }
      exists s'. cbn [default fst snd]. unfold id.
      rewrite (hunk_anchors_run ms c (c + 1) rest Hms Hrest).
      cbn [fst snd]. split_and!; try done.
      * by rewrite Hd', <- !app_assoc.
      * rewrite Hr', Hr3. unfold s2. simpl. congruence.
      * rewrite Hf', Hf3. unfold s2. simpl. congruence.
Qed.

(** [parse_numbers] on a well-formed hunk header that is given to it. *)
Lemma parse_numbers_given (a : string) (b : option string) (c0 : string)
    (d : option string) (hrest : string) self :
  number a = true → optional_number b = true →
  number c0 = true → optional_number d = true →
  parse_numbers (Some (hunk_header a b c0 d hrest)) self
  = (Ok ((Py.int a, count_value b), (Py.int c0, count_value d)), self).
Proof.
  intros Ha Hb Hc Hd. unfold parse_numbers.
  pose proof (search_hunk_header a b c0 d hrest Ha Hb Hc Hd) as Hs.
  assert (∃ y t, hunk_header a b c0 d hrest = String y t) as (y & t & Hh).
  { by eexists _, _. }
  rewrite Hh in *. unfold bind, ret. rewrite Hs.
  destruct (number_inv a Ha) as (a0 & a' & -> & _ & _).
  destruct (number_inv c0 Hc) as (c1 & c' & -> & _ & _).
  destruct b as [ds|], d as [ds'|]; cbn [optional_number] in *;
    try (destruct (number_inv ds Hb) as (? & ? & -> & _ & _));
    try (destruct (number_inv ds' Hd) as (? & ? & -> & _ & _)); reflexivity.
Qed.

(** [parse_hunk] on a well-formed header and the lines [body]. *)
Lemma parse_hunk_body self (a : string) (b : option string) (c0 : string)
    (d : option string) (hrest : string) body tail (al dl : list Z) :
  wf self → next_from self = body ++ tail →
  Forall (λ x, check x = true) body → refused check tail →
  number a = true → optional_number b = true →
  number c0 = true → optional_number d = true →
  added self = Some al → deleted self = Some dl →
  ∃ self', parse_hunk (hunk_header a b c0 d hrest) self = (Ok (), self')
    ∧ stopped tail (conditions self) self'
    ∧ added self' = Some (al ++ (hunk_anchors (Py.int c0) None body).1)
    ∧ deleted self' = Some (dl ++ (hunk_anchors (Py.int c0) None body).2)
    ∧ results self' = results self ∧ filename self' = filename self.
Proof.
  intros Hwf Hnext Hbody Htail Ha Hb Hc Hd Hal Hdl.
  unfold parse_hunk. unfold bind at 1.
  rewrite (parse_numbers_given a b c0 d hrest self Ha Hb Hc Hd).
  cbn [fst snd]. unfold bind, _condition.
  set (s1 := set_conditions _ self).
  assert (wf s1) as Hwf1 by done.
  apply (parse_hunk_for_body (List.length body) body (le_n _) (fuel s1)
           (Py.int c0) s1 tail (conditions self) al dl); try done.
  pose proof (length_next_from_fuel s1 Hwf1) as Hlen.
  change (next_from s1) with (next_from self) in Hlen.
  rewrite Hnext, length_app in Hlen. lia.
Qed.

Lemma stopped_next_from tail cs self : stopped tail cs self → next_from self = tail.
Proof. by intros (_ & ? & _). Qed.

Lemma stopped_conditions tail cs self :
  stopped tail cs self → tail ≠ [] → conditions self = cs.
Proof. intros (_ & _ & H) Hne. destruct tail; [done|]. by destruct H. Qed.

(** X24: [parse_hunk], given a well-formed header, reads the lines of the
    hunk (those that begin with a space, a plus or a minus) up to the first
    other line or to the end of the input, and appends to [added] and
    [deleted] the anchors of one pass over these lines, counted from the
    start line of the new file that the header gives; the conditions, the
    results and the file name are as before the call. *)
Theorem parse_hunk_anchors self (a : string) (b : option string) (c0 : string)
    (d : option string) (hrest : string) body tail (al dl : list Z) :
  wf self → next_from self = body ++ tail →
  Forall (λ x, check x = true) body → refused check tail →
  number a = true → optional_number b = true →
  number c0 = true → optional_number d = true →
  added self = Some al → deleted self = Some dl →
  ∃ self', parse_hunk (hunk_header a b c0 d hrest) self = (Ok (), self')
    ∧ added self' = Some (al ++ (hunk_anchors (Py.int c0) None body).1)
    ∧ deleted self' = Some (dl ++ (hunk_anchors (Py.int c0) None body).2)
    ∧ next_from self' = tail
    ∧ (tail ≠ [] → conditions self' = conditions self)
    ∧ results self' = results self ∧ filename self' = filename self.
Proof.
  intros Hwf Hnext Hbody Htail Ha Hb Hc Hd Hal Hdl.
  destruct (parse_hunk_body self a b c0 d hrest body tail al dl)
    as (s' & Hrun & Hstop & ? & ? & ? & ?); try done.
  exists s'. split_and!; try done.
  - by apply (stopped_next_from tail (conditions self)).
  - by apply stopped_conditions.
Qed.

Lemma parse_hunk_anchors_witness :
  ∃ self', parse_hunk (hunk_header "3" (Some "4") "3" (Some "4") " f") at_last_hunk
           = (Ok (), self')
    ∧ added self'
      = Some ([] ++ (hunk_anchors (Py.int "3") None
                       [" a"; "-b"; "-"; "+c"; "+// d"; " e"]).1)
    ∧ deleted self'
      = Some ([] ++ (hunk_anchors (Py.int "3") None
                       [" a"; "-b"; "-"; "+c"; "+// d"; " e"]).2)
    ∧ next_from self' = []
    ∧ ([] ≠ @nil string → conditions self' = conditions at_last_hunk)
    ∧ results self' = results at_last_hunk ∧ filename self' = filename at_last_hunk.
Proof.
  apply (parse_hunk_anchors at_last_hunk "3" (Some "4") "3" (Some "4") " f"
           [" a"; "-b"; "-"; "+c"; "+// d"; " e"] [] [] []).
  - vm_compute. split; [lia | reflexivity].
  - vm_compute. reflexivity.
  - repeat constructor.
  - exact I.
  - reflexivity.
  - reflexivity.
  - reflexivity.
  - reflexivity.
  - reflexivity.
  - reflexivity.
Defined.

Example last_hunk_anchors :
  hunk_anchors 3 None [" a"; "-b"; "-"; "+c"; "+// d"; " e"] = ([4; -5], [4; -5]).
Proof. by vm_compute. Qed.

(** *** The anchors as line numbers *)

Lemma startswith_first f g t : Py.startswith (String f t) (String g "") = Ascii.eqb g f.
Proof. destruct t; cbn [Py.startswith]; by rewrite andb_true_r. Qed.

Lemma hunk_anchors_None c body :
  hunk_anchors c None body = hunk_anchors c (Some c) body.
Proof. by destruct body as [|[|f t] body]. Qed.

Lemma omap_imap_cons {A B} (f : nat → A → option B) (v : A) (l : list A) :
  omap id (imap f (v :: l))
  = match f 0%nat v with Some y => [y] | None => [] end ++ omap id (imap (f ∘ S) l).
Proof. simpl. by destruct (f 0%nat v). Qed.

Lemma added_numbers_pass body : ∀ c run,
  (hunk_anchors c run body).1 = added_numbers c body.
Proof.
  unfold added_numbers.
  induction body as [|x body IH]; intros c run; [done|].
  rewrite omap_imap_cons.
  assert (∀ (k : bool), new_side x = k →
            omap id (imap (added_at c (x :: body) ∘ S) body)
            = omap id (imap (added_at (c + if k then 1 else 0) body) body)) as Hshift.
  { intros k Hk. f_equal. apply imap_ext. intros i y _.
    unfold added_at, new_number, compose. cbn [take List.filter]. rewrite Hk.
    destruct (is_plus y); [|done]. do 2 f_equal. destruct k; simpl; lia. }
  unfold added_at at 1, new_number at 1, is_plus. cbn [take List.filter List.length].
  rewrite Z.add_0_r. cbn [hunk_anchors].
  destruct x as [|f t].
  { rewrite (Hshift false) by done. rewrite Z.add_0_r. cbn [app fst snd]. apply IH. }
  unfold new_side in Hshift. rewrite !startswith_first in *.
  rewrite !(Ascii.eqb_sym f).
  destruct (Ascii.eqb_spec " " f) as [<-|Hsp].
  { rewrite (Hshift true) by done. cbn [app fst snd]. apply IH. }
  destruct (Ascii.eqb_spec "+" f) as [<-|Hpl].
  { rewrite (Hshift true) by done. cbn [fst app]. f_equal. apply IH. }
  rewrite (Hshift false) by done. rewrite Z.add_0_r. cbn [app].
  destruct (Ascii.eqb "-" f); cbn [fst]; apply IH.
Qed.

Lemma deleted_numbers_pass body : ∀ c r,
  (hunk_anchors c (Some (c + Z.of_nat r)) body).2
  = omap id (imap (deleted_at c r body) body).
Proof.
  induction body as [|x body IH]; intros c r; [done|].
  rewrite omap_imap_cons.
  assert (∀ (k m : bool), new_side x = k → is_minus x = m →
            omap id (imap (deleted_at c r (x :: body) ∘ S) body)
            = omap id (imap (deleted_at (c + if k then 1 else 0)
                               (if m then S r else 0%nat) body) body)) as Hshift.
  { intros k m Hk Hm. f_equal. apply imap_ext. intros i y _.
    unfold deleted_at, new_number, compose. cbn [take List.filter run_after].
    rewrite Hk, Hm. destruct (is_minus y); [|done]. do 2 f_equal.
    destruct k; simpl; lia. }
  unfold deleted_at at 1, new_number at 1. cbn [take List.filter List.length run_after].
  rewrite Z.add_0_r. cbn [hunk_anchors].
  destruct x as [|f t].
  { rewrite (Hshift false false) by done. rewrite Z.add_0_r. cbn [app fst snd].
    rewrite hunk_anchors_None. rewrite <- (Z.add_0_r c) at 2. apply (IH c 0%nat). }
  unfold new_side, is_minus in *. rewrite !startswith_first in *.
  rewrite !(Ascii.eqb_sym f).
  destruct (Ascii.eqb_spec " " f) as [<-|Hsp].
  { rewrite (Hshift true false) by done. cbn [app fst snd].
    rewrite hunk_anchors_None. rewrite <- (Z.add_0_r (c + 1)) at 2.
    apply (IH (c + 1) 0%nat). }
  destruct (Ascii.eqb_spec "+" f) as [<-|Hpl].
  { rewrite (Hshift true false) by done. cbn [app fst snd].
    rewrite hunk_anchors_None. rewrite <- (Z.add_0_r (c + 1)) at 2.
    apply (IH (c + 1) 0%nat). }
  destruct (Ascii.eqb_spec "-" f) as [<-|Hmi].
  { rewrite (Hshift false true) by done. rewrite Z.add_0_r. cbn [default snd app].
    unfold id. f_equal.
    replace (c + Z.of_nat r + 1) with (c + Z.of_nat (S r)) by lia.
    apply IH. }
  rewrite (Hshift false false) by done. rewrite Z.add_0_r. cbn [app fst snd].
  rewrite hunk_anchors_None. rewrite <- (Z.add_0_r c) at 2. apply (IH c 0%nat).
Qed.

(** X25: the anchors that [parse_hunk] appends to [added] are, in the order
    of the lines, those of the added lines of the hunk, and the anchor of an
    added line is, up to the sign that [get_signed_count] gives it, the
    number of the line in the new file: the start line of the header plus
    the number of lines of context and added lines before it in the hunk. *)
Theorem parse_hunk_added_numbers self (a : string) (b : option string)
    (c0 : string) (d : option string) (hrest : string) body tail (al dl : list Z) :
  wf self → next_from self = body ++ tail →
  Forall (λ x, check x = true) body → refused check tail →
  number a = true → optional_number b = true →
  number c0 = true → optional_number d = true →
  added self = Some al → deleted self = Some dl →
  added (parse_hunk (hunk_header a b c0 d hrest) self).2
  = Some (al ++ added_numbers (Py.int c0) body).
Proof.
  intros Hwf Hnext Hbody Htail Ha Hb Hc Hd Hal Hdl.
  destruct (parse_hunk_body self a b c0 d hrest body tail al dl)
    as (s' & Hrun & _ & Hadd & _); try done.
  rewrite Hrun. cbn [snd]. by rewrite Hadd, added_numbers_pass.
Qed.

Lemma parse_hunk_added_numbers_witness :
  added (parse_hunk (hunk_header "3" (Some "4") "3" (Some "4") " f") at_last_hunk).2
  = Some ([] ++ added_numbers (Py.int "3") [" a"; "-b"; "-"; "+c"; "+// d"; " e"]).
Proof.
  apply (parse_hunk_added_numbers at_last_hunk "3" (Some "4") "3" (Some "4") " f"
           [" a"; "-b"; "-"; "+c"; "+// d"; " e"] [] [] []).
  - vm_compute. split; [lia | reflexivity].
  - vm_compute. reflexivity.
  - repeat constructor.
  - exact I.
  - reflexivity.
  - reflexivity.
  - reflexivity.
  - reflexivity.
  - reflexivity.
  - reflexivity.
Defined.

(** X26: the anchors that [parse_hunk] appends to [deleted] are, in the
    order of the lines, those of the deleted lines of the hunk, and the
    anchor of a deleted line is, up to its sign, the number in the new file
    of the line that comes after the deleted lines (the start line of the
    header plus the number of lines of context and added lines before it)
    plus the number of deleted lines that come just before it in its run. *)
Theorem parse_hunk_deleted_numbers self (a : string) (b : option string)
    (c0 : string) (d : option string) (hrest : string) body tail (al dl : list Z) :
  wf self → next_from self = body ++ tail →
  Forall (λ x, check x = true) body → refused check tail →
  number a = true → optional_number b = true →
  number c0 = true → optional_number d = true →
  added self = Some al → deleted self = Some dl →
  deleted (parse_hunk (hunk_header a b c0 d hrest) self).2
  = Some (dl ++ deleted_numbers (Py.int c0) body).
Proof.
  intros Hwf Hnext Hbody Htail Ha Hb Hc Hd Hal Hdl.
  destruct (parse_hunk_body self a b c0 d hrest body tail al dl)
    as (s' & Hrun & _ & _ & Hdel & _); try done.
  rewrite Hrun. cbn [snd]. rewrite Hdel.
  pose proof (deleted_numbers_pass body (Py.int c0) 0) as Hpass.
  cbn [Z.of_nat] in Hpass. rewrite Z.add_0_r in Hpass.
  by rewrite hunk_anchors_None, Hpass.
Qed.

Lemma parse_hunk_deleted_numbers_witness :
  deleted (parse_hunk (hunk_header "3" (Some "4") "3" (Some "4") " f") at_last_hunk).2
  = Some ([] ++ deleted_numbers (Py.int "3") [" a"; "-b"; "-"; "+c"; "+// d"; " e"]).
Proof.
  apply (parse_hunk_deleted_numbers at_last_hunk "3" (Some "4") "3" (Some "4") " f"
           [" a"; "-b"; "-"; "+c"; "+// d"; " e"] [] [] []).
  - vm_compute. split; [lia | reflexivity].
  - vm_compute. reflexivity.
  - repeat constructor.
  - exact I.
  - reflexivity.
  - reflexivity.
  - reflexivity.
  - reflexivity.
  - reflexivity.
  - reflexivity.
Defined.

Example last_hunk_numbers :
  added_numbers 3 [" a"; "-b"; "-"; "+c"; "+// d"; " e"] = [4; -5]
  ∧ deleted_numbers 3 [" a"; "-b"; "-"; "+c"; "+// d"; " e"] = [4; -5].
Proof. by vm_compute. Qed.

End Hunks.

(** ** The section of a modified file *)

Section Sections.

Implicit Types (self : Patch) (pre tail rest : list string) (h : hunk)
  (hs : list hunk) (x p ln : string).

Lemma hunk_lines_kind h :
  ∃ t, hunk_lines h = String "@" (String "@" t) :: h_body h.
Proof.
  unfold hunk_lines.
  destruct (hunk_header_at (h_old h) (h_old_count h) (h_new h) (h_new_count h) (h_text h))
    as [t ->]. by exists t.
Qed.

Lemma hunk_ok_inv h :
  hunk_ok h = true →
  number (h_old h) = true ∧ optional_number (h_old_count h) = true
  ∧ number (h_new h) = true ∧ optional_number (h_new_count h) = true
  ∧ Forall (λ x, check x = true) (h_body h).
Proof.
  unfold hunk_ok. rewrite !andb_true_iff, forallb_forall.
  intros [[[[? ?] ?] ?] Hall]. split_and!; try done.
  apply List.Forall_forall. intros x Hx. by apply Hall.
Qed.

(** What follows a hunk, another hunk or the lines after the section, does
    not begin as a line of a hunk does. *)
Lemma refused_check_hunks hs tail :
  refused check tail → refused check (List.concat (hunk_lines <$> hs) ++ tail).
Proof.
  intros Htail. destruct hs as [|h hs]; [done|]. cbn [fmap list_fmap List.concat].
  by destruct (hunk_lines_kind h) as [t ->].
Qed.

Lemma length_hunks hs :
  (List.length hs <= List.length (List.concat (hunk_lines <$> hs)))%nat.
Proof.
  induction hs as [|h hs IH]; [done|]. cbn [fmap list_fmap List.concat].
  rewrite length_app. unfold hunk_lines at 1. simpl. lia.
Qed.

(** The loop of [parse_hunks] over the hunks [hs]. *)
Lemma parse_hunks_for_hunks hs : ∀ n self tail cs (al dl : list Z),
  wf self → next_from self = List.concat (hunk_lines <$> hs) ++ tail →
  (List.concat (hunk_lines <$> hs) ++ tail ≠ [] → conditions self = is_at :: cs) →
  Forall (λ h, hunk_ok h = true) hs →
  refused is_at tail → refused check tail →
  added self = Some al → deleted self = Some dl → (List.length hs < n)%nat →
  ∃ self', parse_hunks_for n self = (Ok (), self')
    ∧ stopped tail cs self'
    ∧ added self' = Some (al ++ section_added hs)
    ∧ deleted self' = Some (dl ++ section_deleted hs)
    ∧ results self' = results self ∧ filename self' = filename self.
Proof.
  induction hs as [|h hs IH]; intros n self tail cs al dl
    Hwf Hnext Hcs Hhs Hat Hck Hal Hdl Hn;
    (destruct n as [|n]; [simpl in Hn; lia|]); cbn [parse_hunks_for]; unfold bind at 1.
  - simpl in Hnext, Hcs. unfold section_added, section_deleted. simpl.
    rewrite !app_nil_r. destruct tail as [|p rest].
    + destruct (next_line_end self Hwf Hnext) as (s' & -> & Hg & ? & (? & ? & ? & ? & _)).
      exists s'. unfold stopped, wf, next_from, shift, upcoming. rewrite Hg.
      split_and!; try done; congruence.
    + pose proof (next_line_spec self p rest Hwf Hnext) as Hs.
      unfold _check in Hs. simpl in Hat. rewrite Hcs, Hat in Hs by done.
      destruct Hs as (s' & -> & Hg & Hu & Hcs' & ? & (? & ? & ? & ? & _)).
      exists s'. unfold stopped. rewrite (next_from_AtNone s' Hg).
      split_and!; try done; congruence.
  - apply Forall_cons in Hhs as [Hh Hhs].
    destruct (hunk_ok_inv h Hh) as (Ha & Hb & Hc & Hd & Hbody).
    cbn [fmap list_fmap List.concat] in Hnext, Hcs.
    set (tail' := List.concat (hunk_lines <$> hs) ++ tail) in *.
    assert (next_from self
            = hunk_header (h_old h) (h_old_count h) (h_new h) (h_new_count h) (h_text h)
              :: h_body h ++ tail') as Hnext'.
    { rewrite Hnext. unfold hunk_lines, tail'. by rewrite <- app_assoc. }
    specialize (Hcs ltac:(by destruct (hunk_lines_kind h) as [t ->])).
    pose proof (next_line_spec self _ _ Hwf Hnext') as Hs.
    unfold _check in Hs. rewrite Hcs in Hs.
    destruct (hunk_header_at (h_old h) (h_old_count h) (h_new h) (h_new_count h) (h_text h))
      as [t Ht].
    assert (is_at (hunk_header (h_old h) (h_old_count h) (h_new h) (h_new_count h)
                     (h_text h)) = true) as Hhat by (by rewrite Ht).
    rewrite Hhat in Hs.
    destruct Hs as (s1 & -> & Hg1 & Hu1 & Hcs1 & Hwf1 & (Ha1 & Hd1 & Hr1 & Hf1 & _)).
    assert (next_from s1 = h_body h ++ tail') as Hn1
      by apply (next_from_AtLine s1 _ _ Hg1 Hu1).
    unfold bind at 1.
    destruct (parse_hunk_body s1 (h_old h) (h_old_count h) (h_new h) (h_new_count h)
                (h_text h) (h_body h) tail' al dl)
      as (s2 & -> & Hstop & Ha2 & Hd2 & Hr2 & Hf2); try done; try congruence.
    { by apply refused_check_hunks. }
    rewrite added_numbers_pass in Ha2.
    pose proof (deleted_numbers_pass (h_body h) (Py.int (h_new h)) 0) as Hpass.
    cbn [Z.of_nat] in Hpass. rewrite Z.add_0_r in Hpass.
    rewrite hunk_anchors_None, Hpass in Hd2.
    destruct (IH n s2 tail cs (al ++ added_numbers (Py.int (h_new h)) (h_body h))
                (dl ++ deleted_numbers (Py.int (h_new h)) (h_body h)))
      as (s' & -> & ? & Ha' & Hd' & Hr' & Hf'); try done.
    { by destruct Hstop. }
    { by apply (stopped_next_from tail' (conditions s1)). }
    { intros Hne. rewrite (stopped_conditions tail' (conditions s1) s2 Hstop Hne).
      congruence. }
    { simpl in Hn. lia. }
    exists s'. unfold section_added, section_deleted.
    cbn [fmap list_fmap List.concat]. rewrite !app_assoc.
    split_and!; try done; congruence.
Qed.

Lemma parse_hunks_hunks ln self hs tail (al dl : list Z) :
  wf self → next_from self = List.concat (hunk_lines <$> hs) ++ tail →
  Forall (λ h, hunk_ok h = true) hs →
  refused is_at tail → refused check tail →
  added self = Some al → deleted self = Some dl →
  ∃ self', parse_hunks ln self = (Ok (), self')
    ∧ stopped tail (conditions self) self'
    ∧ added self' = Some (al ++ section_added hs)
    ∧ deleted self' = Some (dl ++ section_deleted hs)
    ∧ results self' = results self ∧ filename self' = filename self.
Proof.
  intros Hwf Hnext Hhs Hat Hck Hal Hdl. unfold parse_hunks, bind, _condition.
  set (s1 := set_conditions _ self).
  assert (wf s1) as Hwf1 by done.
  apply (parse_hunks_for_hunks hs (fuel s1) s1 tail (conditions self) al dl);
    try done.
  pose proof (length_next_from_fuel s1 Hwf1) as Hlen.
  change (next_from s1) with (next_from self) in Hlen.
  rewrite Hnext, length_app in Hlen. pose proof (length_hunks hs). lia.
Qed.

(** X27: [parse_hunks] reads the hunks that follow one another, each with
    a well-formed header, up to the first line that begins neither as a
    header nor as a line of a hunk, or to the end of the input, whatever
    its argument is; it appends the anchors of the added and of the deleted
    lines of every hunk, in the order of the hunks. *)
Theorem parse_hunks_reads_hunks ln self hs tail (al dl : list Z) :
  wf self → next_from self = List.concat (hunk_lines <$> hs) ++ tail →
  Forall (λ h, hunk_ok h = true) hs →
  refused is_at tail → refused check tail →
  added self = Some al → deleted self = Some dl →
  ∃ self', parse_hunks ln self = (Ok (), self')
    ∧ added self' = Some (al ++ section_added hs)
    ∧ deleted self' = Some (dl ++ section_deleted hs)
    ∧ next_from self' = tail
    ∧ (tail ≠ [] → conditions self' = conditions self)
    ∧ results self' = results self ∧ filename self' = filename self.
Proof.
  intros Hwf Hnext Hhs Hat Hck Hal Hdl.
  destruct (parse_hunks_hunks ln self hs tail al dl)
    as (s' & Hrun & Hstop & ? & ? & ? & ?); try done.
  exists s'. split_and!; try done.
  - by apply (stopped_next_from tail (conditions self)).
  - by apply stopped_conditions.
Qed.

Lemma parse_hunks_reads_hunks_witness :
  ∃ self', parse_hunks "" at_hunks = (Ok (), self')
    ∧ added self'
      = Some ([] ++ section_added
                      [mkHunk "1" None "5" None "" ["+a"];
                       mkHunk "7" (Some "2") "8" (Some "0") " g" ["-b"; "-c"]])
    ∧ deleted self'
      = Some ([] ++ section_deleted
                      [mkHunk "1" None "5" None "" ["+a"];
                       mkHunk "7" (Some "2") "8" (Some "0") " g" ["-b"; "-c"]])
    ∧ next_from self' = ["diff --git a/y b/y"]
    ∧ (["diff --git a/y b/y"] ≠ [] → conditions self' = conditions at_hunks)
    ∧ results self' = results at_hunks ∧ filename self' = filename at_hunks.
Proof.
  apply (parse_hunks_reads_hunks "" at_hunks
           [mkHunk "1" None "5" None "" ["+a"];
            mkHunk "7" (Some "2") "8" (Some "0") " g" ["-b"; "-c"]]
           ["diff --git a/y b/y"] [] []).
  - vm_compute. split; [lia | reflexivity].
  - vm_compute. reflexivity.
  - repeat constructor.
  - reflexivity.
  - reflexivity.
  - reflexivity.
  - reflexivity.
Defined.

Lemma recorded_spec self (al dl : list Z) tail cs :
  added self = Some al → deleted self = Some dl → stopped tail cs self →
  ∃ self', record_changes self = (Ok (), self')
    ∧ results self' = recorded al dl (filename self) (results self)
    ∧ filename self' = filename self ∧ stopped tail cs self'.
Proof.
  intros Hal Hdl Hstop. unfold record_changes, recorded. rewrite Hal, Hdl.
  destruct al as [|x al], dl as [|y dl]; cbn [truthy orb];
    try (by eexists); destruct (get_touched _ _) as [[a' d'] t]; by eexists.
Qed.

(** [get_changes] in the section of a modified file. *)
Lemma get_changes_section self ln pre h hs tail :
  wf self → conditions self = [] →
  next_from self = ln :: pre ++ List.concat (hunk_lines <$> h :: hs) ++ tail →
  Py.startswith ln "new file" = false → Py.startswith ln "deleted file" = false →
  Forall (λ x, useless x = true) pre →
  Forall (λ h, hunk_ok h = true) (h :: hs) →
  refused is_at tail → refused check tail →
  added self = Some [] → deleted self = Some [] →
  ∃ self', get_changes self = (Ok (), self')
    ∧ results self'
      = recorded (section_added (h :: hs)) (section_deleted (h :: hs))
          (filename self) (results self)
    ∧ filename self' = filename self
    ∧ stopped tail [] self'.
Proof.
  intros Hwf Hcs Hnext Hnew Hdel Hpre Hhs Hat Hck Hal Hdl.
  pose proof (next_line_spec self ln _ Hwf Hnext) as Hs.
  unfold _check in Hs. rewrite Hcs in Hs.
  destruct Hs as (s1 & Hs1 & Hg1 & Hu1 & Hcs1 & Hwf1 & (Ha1 & Hd1 & Hr1 & Hf1 & _)).
  assert (next_from s1 = pre ++ List.concat (hunk_lines <$> h :: hs) ++ tail) as Hn1
    by apply (next_from_AtLine s1 _ _ Hg1 Hu1).
  destruct (hunk_lines_kind h) as [t Ht].
  set (hdr := String "@" (String "@" t)) in *.
  set (post := h_body h ++ List.concat (hunk_lines <$> hs) ++ tail).
  assert (List.concat (hunk_lines <$> h :: hs) ++ tail = hdr :: post) as Hsec.
  { cbn [fmap list_fmap List.concat]. rewrite Ht. unfold post.
    by rewrite <- app_assoc. }
  rewrite Hsec in Hn1.
  destruct (skip_loop_stops useless s1 pre hdr post)
    as (s2 & Hrun & Hg2 & Hu2 & Hcs2 & Hwf2 & (Ha2 & Hd2 & Hr2 & Hf2 & _)); try done.
  assert (skip_useless s1 = (Ok (), s2)) as Hskip by exact Hrun.
  assert (line s2 = (Ok hdr, s2)) as Hline.
  { apply (line_upcoming s2 hdr post); auto. }
  destruct (parse_hunks_hunks hdr s2 (h :: hs) tail [] [])
    as (s3 & Hhunks & Hstop & Ha3 & Hd3 & Hr3 & Hf3); try done; try congruence.
  { by rewrite (next_from_AtNone s2 Hg2), Hu2, Hsec. }
  assert (conditions s2 = []) as Hcs2' by congruence. rewrite Hcs2' in Hstop.
  destruct (recorded_spec s3 _ _ tail [] Ha3 Hd3 Hstop) as (s4 & Hrec & Hr4 & Hf4 & Hstop4).
  exists s4. split_and!; [|rewrite Hr4, Hf3, Hr3; simpl; congruence|congruence|done].
  unfold get_changes. unfold bind at 1. unfold get_changes_for.
  unfold bind at 1. rewrite Hs1, Hnew, Hdel.
  unfold bind at 1. rewrite Hskip. unfold bind at 1. rewrite Hline.
  change (Py.startswith hdr "@") with true. cbv iota. by rewrite Hhunks.
Qed.

(** X28: in the section of a modified file, where the line after the file
    header is followed by lines that [skip_useless] passes over and then by
    one or more hunks with well-formed headers, [get_changes] returns, the
    cursor is on the first line after the hunks, and the result map holds
    for the file what [get_touched] makes of the anchors of all the added
    and all the deleted lines of the hunks, or is as before the call when
    there are no such lines. *)
Theorem get_changes_modified self ln pre h hs tail :
  wf self → conditions self = [] →
  next_from self = ln :: pre ++ List.concat (hunk_lines <$> h :: hs) ++ tail →
  Py.startswith ln "new file" = false → Py.startswith ln "deleted file" = false →
  Forall (λ x, useless x = true) pre →
  Forall (λ h, hunk_ok h = true) (h :: hs) →
  refused is_at tail → refused check tail →
  added self = Some [] → deleted self = Some [] →
  ∃ self', get_changes self = (Ok (), self')
    ∧ results self'
      = recorded (section_added (h :: hs)) (section_deleted (h :: hs))
          (filename self) (results self)
    ∧ filename self' = filename self
    ∧ next_from self' = tail.
Proof.
  intros Hwf Hcs Hnext Hnew Hdel Hpre Hhs Hat Hck Hal Hdl.
  destruct (get_changes_section self ln pre h hs tail)
    as (s' & ? & ? & ? & Hstop); try done.
  exists s'. split_and!; try done. by apply (stopped_next_from tail []).
Qed.

Lemma get_changes_modified_witness :
  ∃ self', get_changes at_two_hunks = (Ok (), self')
    ∧ results self'
      = recorded
          (section_added [mkHunk "1" (Some "3") "1" (Some "3") "" [" a"; "-b"; "+c"; " d"];
                          mkHunk "10" None "10" (Some "2") " g" [" e"; "+// f"]])
          (section_deleted [mkHunk "1" (Some "3") "1" (Some "3") "" [" a"; "-b"; "+c"; " d"];
                            mkHunk "10" None "10" (Some "2") " g" [" e"; "+// f"]])
          (filename at_two_hunks) (results at_two_hunks)
    ∧ filename self' = filename at_two_hunks
    ∧ next_from self' = ["diff --git a/y.c b/y.c"; "index 3..4 100644"].
Proof.
  apply (get_changes_modified at_two_hunks "index 1..2 100644" ["--- a/x.c"; "+++ b/x.c"]
           (mkHunk "1" (Some "3") "1" (Some "3") "" [" a"; "-b"; "+c"; " d"])
           [mkHunk "10" None "10" (Some "2") " g" [" e"; "+// f"]]
           ["diff --git a/y.c b/y.c"; "index 3..4 100644"]).
  - vm_compute. split; [lia | reflexivity].
  - reflexivity.
  - vm_compute. reflexivity.
  - reflexivity.
  - reflexivity.
  - repeat constructor.
  - repeat constructor.
  - reflexivity.
  - reflexivity.
  - reflexivity.
  - reflexivity.
Defined.

Example two_hunks_recorded :
  results (get_changes at_two_hunks).2 = {["x.c" := Modified [] [] [2]]}.
Proof. by vm_compute. Qed.

End Sections.

(** ** A run of deleted lines in a hunk *)

Section DeletedRuns.

Implicit Types (self : Patch) (ms rest tail : list string) (c : Z).






(** The run of [run_hunk]: three anchors from 10, the second negative for
    its empty line, and the added line after the run at 10 again; a run
    that the end of the input closes is anchored the same way. *)
Example run_anchors_values :
  run_anchors 10 ["-old1"; "-"; "-old3"] = [10; -11; 12]
  ∧ added_numbers 10 ["+new1"; " ctx"] = [10]
  ∧ deleted (parse_hunk_for 7 8 (set_conditions [check]
               (set_added (Some []) (set_deleted (Some [])
                  (next_line (Patch_init [["@@ -8,2 +8,0 @@"; "-x"; "-y"]])).2)))).2
    = Some [8; 9].
Proof. by vm_compute. Qed.

End DeletedRuns.

(** ** A patch of modified files *)

Section Patches.

Variable interesting : string → bool.

Implicit Types (self : Patch) (pre post tail : list string)
  (s : file_section) (secs : list file_section).












(** X29: [parse] ends on every input: the turns that [fuel] gives to its
    loop, counted from the lines of the input, are enough, whatever the
    lines hold and however they are spread over the chunks. *)
Theorem parse_terminates lines_gen changeset :
  (parse interesting (set_changeset changeset (Patch_init lines_gen))).1 ≠ Diverges.
Proof.
  set (p := set_changeset changeset (Patch_init lines_gen)).
  pose proof (parse_while_ends interesting (fuel p) p
                (conj (wf_init lines_gen changeset) (weight_fuel p (wf_init _ _))))
    as Hends.
  unfold parse. destruct (parse_while interesting (fuel p) p) as [[[]|e|] s'];
    [done| |done].
  by destruct e.
Qed.

End Patches.


(** The map of [truncated_patch]: both files are there. *)
Example truncated_sections_results :
  patch_results truncated_sections
  = {["x.cpp" := Modified [2] [] []; "y.cpp" := Modified [2] [] []]}.
Proof. by vm_compute. Qed.
